(** * Product scraper: catalog store, read API and scraping engine

    A shallow embedding of [utils/helpers.py], [api/routes.py] and
    [scraper/core.py], and the properties of the catalog merge, the
    persistence round trip, the [GET /products] handler and the
    orchestration run that the specification states.

    Layout: the model first (Python values and exceptions, the helpers, the
    route handler, the engine as a transition system), then the theorems. *)

From stdpp Require Import base option list strings gmap pretty.
From Stdlib Require Import ZArith QArith Qcanon Lia.
From Stdlib Require Import Ascii.
From Stdlib Require String.

Set Warnings "-register-all,-clear-no-such-hyp".
Open Scope Z_scope.

(* ================================================================== *)
(** * Part I. The model *)
(* ================================================================== *)

(** ** Python values, exceptions and insertion-ordered dictionaries *)
Module Py.

(** The exception classes the modules raise, catch or let through.  All of
    them derive from [Exception]: they are what [except Exception] catches. *)
Inductive exn :=
| TypeError
| ValueError
| AttributeError
| JSONDecodeError          (* a subclass of ValueError *)
| FileNotFoundError        (* the OSError family *)
| IsADirectoryError
| NotADirectoryError
| FileExistsError
| PermissionError
| OSError                  (* any other OSError: a name too long, a full disk *)
| ValidationError          (* pydantic *)
| PlaywrightError
| HTTPException (status_code : Z).   (* fastapi; the detail text is left out *)

(** What user code that is awaited may raise: an [Exception], or
    [asyncio.CancelledError], which derives from [BaseException] only, so
    that [except Exception] lets it through and [isinstance(_, Exception)]
    is false of it.  [KeyboardInterrupt] and [SystemExit], which end the
    event loop itself, are left out. *)
Inductive base_exn :=
| Exception (e : exn)
| CancelledError.

(** A computation that returns or raises an exception of the type [E]. *)
Inductive result_of (E A : Type) :=
| Ok (a : A)
| Raise (e : E).
Arguments Ok {E A} a.
Arguments Raise {E A} e.

(** A computation that returns or raises an [Exception]. *)
Abbreviation result := (result_of exn).

#[global] Instance exn_eq_dec : EqDecision exn.
Proof. solve_decision. Defined.
#[global] Instance base_exn_eq_dec : EqDecision base_exn.
Proof. solve_decision. Defined.
#[global] Instance result_eq_dec `{EqDecision E, EqDecision A} :
  EqDecision (result_of E A).
Proof. solve_decision. Defined.

#[global] Instance result_ret {E} : MRet (result_of E) := fun A a => Ok a.
#[global] Instance result_fmap {E} : FMap (result_of E) := fun A B f m =>
  match m with
  | Ok a => Ok (f a)
  | Raise e => Raise e
  end.
#[global] Instance result_bind {E} : MBind (result_of E) := fun A B k m =>
  match m with
  | Ok a => k a
  | Raise e => Raise e
  end.

(** The outcome of a call that raises [Exception]s only, among those of
    calls that may raise anything. *)
Definition raised {A} (r : result A) : result_of base_exn A :=
  match r with
  | Ok a => Ok a
  | Raise e => Raise (Exception e)
  end.

(** A float that is not NaN: [FFin m e] is [m * 2^e], [FInf neg] an infinity.
    NaN is left out: as a dictionary key it is found by object identity. *)
Inductive pyfloat :=
| FFin (m e : Z)
| FInf (neg : bool).

#[global] Instance pyfloat_eq_dec : EqDecision pyfloat.
Proof. solve_decision. Defined.

(** What [json.load] produces and [json.dump] accepts.  A [VDict] lists its
    items in insertion order. *)
Inductive value :=
| VNone
| VBool (b : bool)
| VInt (z : Z)
| VFloat (f : pyfloat)
| VStr (s : string)
| VList (l : list value)
| VDict (d : list (string * value)).

#[global] Instance value_eq_dec : EqDecision value.
Proof.
  refine (fix go (x y : value) {struct x} : Decision (x = y) :=
    match x, y with
    | VNone, VNone => left _
    | VBool a, VBool b => cast_if (decide (a = b))
    | VInt a, VInt b => cast_if (decide (a = b))
    | VFloat a, VFloat b => cast_if (decide (a = b))
    | VStr a, VStr b => cast_if (decide (a = b))
    | VList a, VList b => cast_if (@list_eq_dec _ go a b)
    | VDict a, VDict b => cast_if (@list_eq_dec _ (@prod_eq_dec _ _ _ go) a b)
    | _, _ => right _
    end); clear go; congruence.
Defined.

(** [Dict[str, Any]]: one product record. *)
Abbreviation product := (list (string * value)).

(** [d.get(name)]: the value stored under [name], [None] when there is none. *)
Fixpoint dict_get (d : list (string * value)) (name : string) : value :=
  match d with
  | [] => VNone
  | (k, v) :: d' => if decide (k = name) then v else dict_get d' name
  end.

(** [name in d] for a dict with string keys. *)
Definition dict_has (d : list (string * value)) (name : string) : bool :=
  bool_decide (name ∈ d.*1).

(** [v is None]. *)
Definition is_none (v : value) : bool :=
  match v with VNone => true | _ => false end.

(** The rational a finite float stands for. *)
Definition float_Q (m e : Z) : Q :=
  if 0 <=? e then inject_Z (m * 2 ^ e) else Qmake m (Z.to_pos (2 ^ (- e))).

(** Dictionary keys up to Python's [==] and [hash]: [True == 1 == 1.0] are one
    key, so numbers are kept as the rational they denote. *)
Inductive key :=
| KNone
| KNum (q : Qc)
| KInf (neg : bool)
| KStr (s : string).

#[global] Instance key_eq_dec : EqDecision key.
Proof. solve_decision. Defined.

(** [hash(v)] followed by normalisation; lists and dicts are unhashable. *)
Definition key_of (v : value) : result key :=
  match v with
  | VNone => Ok KNone
  | VBool b => Ok (KNum (Q2Qc (inject_Z (if b then 1 else 0))))
  | VInt z => Ok (KNum (Q2Qc (inject_Z z)))
  | VFloat (FFin m e) => Ok (KNum (Q2Qc (float_Q m e)))
  | VFloat (FInf neg) => Ok (KInf neg)
  | VStr s => Ok (KStr s)
  | VList _ | VDict _ => Raise TypeError
  end.

(** An insertion-ordered [dict]: the items in the order their keys were first
    inserted. *)
Definition pydict (V : Type) := list (key * V).

(** [d[k] = v]: overwrite in place when the key is there, append otherwise. *)
Fixpoint dict_set {V} (d : pydict V) (k : key) (v : V) : pydict V :=
  match d with
  | [] => [(k, v)]
  | (k', v') :: d' =>
      if decide (k' = k) then (k', v) :: d' else (k', v') :: dict_set d' k v
  end.

Fixpoint dict_lookup {V} (d : pydict V) (k : key) : option V :=
  match d with
  | [] => None
  | (k', v') :: d' => if decide (k' = k) then Some v' else dict_lookup d' k
  end.

(** [d.keys()] and [d.values()]. *)
Definition dict_keys {V} (d : pydict V) : list key := d.*1.
Definition dict_values {V} (d : pydict V) : list V := d.*2.

(** [v == i] for an [int] [i], as [in] and [==] decide it. *)
Definition eq_int (v : value) (i : Z) : bool :=
  match v with
  | VBool b => bool_decide ((if b then 1 else 0) = i)
  | VInt z => bool_decide (z = i)
  | VFloat (FFin m e) => bool_decide (Q2Qc (float_Q m e) = Q2Qc (inject_Z i))
  | _ => false
  end.

(** Truth value of an object, as [if v] and [not v] test it. *)
Definition truthy (v : value) : bool :=
  match v with
  | VNone => false
  | VBool b => b
  | VInt z => negb (z =? 0)
  | VFloat (FFin m _) => negb (m =? 0)
  | VFloat (FInf _) => true
  | VStr t => negb (String.eqb t "")
  | VList l => match l with [] => false | _ => true end
  | VDict d => match d with [] => false | _ => true end
  end.

(** [len(v)]. *)
Definition py_len (v : value) : result Z :=
  match v with
  | VList l => Ok (Z.of_nat (length l))
  | VDict d => Ok (Z.of_nat (length d))
  | VStr t => Ok (Z.of_nat (String.length t))
  | _ => Raise TypeError
  end.

(** The items [for p in v] runs over: the elements of a list, the keys of a
    dict, the characters of a string. *)
Definition py_iter (v : value) : result (list value) :=
  match v with
  | VList l => Ok l
  | VDict d => Ok (VStr <$> d.*1)
  | VStr t => Ok ((λ c, VStr (String c "")) <$> String.list_ascii_of_string t)
  | _ => Raise TypeError
  end.

(** [p.get(name)] on any object: only a dict has the method. *)
Definition py_get (p : value) (name : string) : result value :=
  match p with
  | VDict d => Ok (dict_get d name)
  | _ => Raise AttributeError
  end.

(** [l[lo:hi]] on a list, for any integers: a negative index counts from the
    end, and both are clamped to the list. *)
Definition slice_index (n i : Z) : Z :=
  if i <? 0 then Z.max (i + n) 0 else Z.min i n.
Definition list_slice {A} (l : list A) (lo hi : Z) : list A :=
  let n := Z.of_nat (length l) in
  let lo' := slice_index n lo in
  let hi' := slice_index n hi in
  take (Z.to_nat (hi' - lo')) (drop (Z.to_nat lo') l).

(** [v[lo:hi]]: lists and strings can be sliced, a dict cannot. *)
Definition py_slice (v : value) (lo hi : Z) : result value :=
  match v with
  | VList l => Ok (VList (list_slice l lo hi))
  | VStr t =>
      Ok (VStr (String.string_of_list_ascii (list_slice (String.list_ascii_of_string t) lo hi)))
  | _ => Raise TypeError
  end.

(** [s.split(sep)] for a one-character separator. *)
Fixpoint split_on (sep : Ascii.ascii) (s : string) : list string :=
  match s with
  | EmptyString => [EmptyString]
  | String c s' =>
      if decide (c = sep) then EmptyString :: split_on sep s'
      else
        match split_on sep s' with
        | tok :: toks => String c tok :: toks
        | [] => [String c EmptyString]
        end
  end.

(** A [str] is kept as its UTF-8 bytes.  [characters s] lists the characters
    of the text, each as its code point and its bytes; a byte that begins no
    well-formed sequence counts as the character U+FFFD. *)
Definition continuation (c : Ascii.ascii) : option N :=
  let n := Ascii.N_of_ascii c in
  if ((128 <=? n) && (n <? 192))%N then Some (n - 128)%N else None.

Fixpoint characters (s : string) : list (N * string) :=
  match s with
  | EmptyString => []
  | String c s1 =>
      let n := Ascii.N_of_ascii c in
      let one := String c EmptyString in
      if (n <? 128)%N then (n, one) :: characters s1
      else
        match s1 with
        | String c1 s2 =>
            match continuation c1 with
            | Some a1 =>
                if (n <? 192)%N then (65533%N, one) :: characters s1
                else if (n <? 224)%N then
                  (((n - 192) * 64 + a1)%N, String c (String c1 EmptyString))
                  :: characters s2
                else
                  match s2 with
                  | String c2 s3 =>
                      match continuation c2 with
                      | Some a2 =>
                          if (n <? 240)%N then
                            ((((n - 224) * 64 + a1) * 64 + a2)%N,
                             String c (String c1 (String c2 EmptyString)))
                            :: characters s3
                          else
                            match s3 with
                            | String c3 s4 =>
                                match continuation c3 with
                                | Some a3 =>
                                    if (n <? 248)%N then
                                      (((((n - 240) * 64 + a1) * 64 + a2) * 64
                                        + a3)%N,
                                       String c (String c1 (String c2
                                         (String c3 EmptyString))))
                                      :: characters s4
                                    else (65533%N, one) :: characters s1
                                | None => (65533%N, one) :: characters s1
                                end
                            | EmptyString => (65533%N, one) :: characters s1
                            end
                      | None => (65533%N, one) :: characters s1
                      end
                  | EmptyString => (65533%N, one) :: characters s1
                  end
            | None => (65533%N, one) :: characters s1
            end
        | EmptyString => [(65533%N, one)]
        end
  end.

(** [c.isspace()]: the white space of Unicode. *)
Definition is_space (n : N) : bool :=
  ((9 <=? n) && (n <=? 13) || (28 <=? n) && (n <=? 32) || (n =? 133)
   || (n =? 160) || (n =? 5760) || (8192 <=? n) && (n <=? 8202)
   || (n =? 8232) || (n =? 8233) || (n =? 8239) || (n =? 8287)
   || (n =? 12288))%N.

Fixpoint lstrip (cs : list (N * string)) : list (N * string) :=
  match cs with
  | c :: cs' => if is_space c.1 then lstrip cs' else cs
  | [] => []
  end.

(** [s.strip()]. *)
Definition strip (s : string) : string :=
  foldr (λ c t, c.2 +:+ t) EmptyString
        (reverse (lstrip (reverse (lstrip (characters s))))).

(** The decimal digits of Unicode (version 14, as Python 3.11 has it): every
    script has its ten digits in a row, and this is where each row starts. *)
Definition decimal_zeros : list N :=
  [48; 1632; 1776; 1984; 2406; 2534; 2662; 2790; 2918; 3046; 3174; 3302;
   3430; 3558; 3664; 3792; 3872; 4160; 4240; 6112; 6160; 6470; 6608; 6784;
   6800; 6992; 7088; 7232; 7248; 42528; 43216; 43264; 43472; 43504; 43600;
   44016; 65296; 66720; 68912; 69734; 69872; 69942; 70096; 70384; 70736;
   70864; 71248; 71360; 71472; 71904; 72016; 72784; 73040; 73120; 92768;
   92864; 93008; 120782; 120792; 120802; 120812; 120822; 123200; 123632;
   125264; 130032]%N.

(** The value of a decimal digit. *)
Definition decimal_of (n : N) : option Z :=
  head (omap (λ zero, if ((zero <=? n) && (n <? zero + 10))%N
                      then Some (Z.of_N (n - zero)) else None)
             decimal_zeros).

(** What [int] reads a character as: beyond ASCII, white space is a blank,
    a decimal digit is its ASCII digit, and anything else a question
    mark. *)
Definition to_ascii (n : N) : N :=
  if (n <? 128)%N then n
  else if is_space n then 32%N
  else match decimal_of n with
       | Some d => (48 + Z.to_N d)%N
       | None => 63%N
       end.

(** The blanks [int] skips around the number. *)
Definition is_blank (n : N) : bool :=
  ((9 <=? n) && (n <=? 13) || (n =? 32))%N.

Fixpoint skip_blanks (l : list N) : list N :=
  match l with
  | c :: l' => if is_blank c then skip_blanks l' else l
  | [] => []
  end.

Definition digit_value (n : N) : option Z :=
  if ((48 <=? n) && (n <=? 57))%N then Some (Z.of_N n - 48) else None.

(** The digits after a first digit: more digits, each optionally preceded by
    one underscore.  The digits are counted. *)
Fixpoint int_digits (acc count : Z) (l : list N) : option (Z * Z) :=
  match l with
  | [] => Some (acc, count)
  | c :: l' =>
      match digit_value c with
      | Some d => int_digits (10 * acc + d) (count + 1) l'
      | None =>
          if (c =? 95)%N then
            match l' with
            | c' :: l'' =>
                match digit_value c' with
                | Some d => int_digits (10 * acc + d) (count + 1) l''
                | None => None
                end
            | [] => None
            end
          else None
      end
  end.

Definition int_unsigned (l : list N) : option (Z * Z) :=
  match l with
  | c :: l' =>
      match digit_value c with
      | Some d => int_digits d 1 l'
      | None => None
      end
  | [] => None
  end.

(** [sys.get_int_max_str_digits()], as the interpreter starts with. *)
Definition int_max_str_digits : Z := 4300.

(** [int(s)]: blanks around, an optional sign, decimal digits with single
    underscores between them, the digits of any script; a number of more
    than [int_max_str_digits] digits, leading zeros counted, and anything
    else is a [ValueError]. *)
Definition py_int (s : string) : result Z :=
  let l := to_ascii <$> (characters s).*1 in
  let body := reverse (skip_blanks (reverse (skip_blanks l))) in
  let parsed :=
    match body with
    | c :: body' =>
        if (c =? 43)%N then int_unsigned body'
        else if (c =? 45)%N then
          (λ zk, (- zk.1, zk.2)) <$> int_unsigned body'
        else int_unsigned body
    | [] => None
    end in
  match parsed with
  | Some (z, digits) =>
      if int_max_str_digits <? digits then Raise ValueError else Ok z
  | None => Raise ValueError
  end.

(** [[f(x) for x in l]] when [f] may raise: the first exception ends the
    comprehension. *)
Fixpoint comprehension {A B} (f : A → result B) (l : list A) : result (list B) :=
  match l with
  | [] => Ok []
  | x :: l' => y ← f x; ys ← comprehension f l'; Ok (y :: ys)
  end.

(** [[x for x in l if f(x)]] when the test may raise. *)
Fixpoint comprehension_if {A} (f : A → result bool) (l : list A) : result (list A) :=
  match l with
  | [] => Ok []
  | x :: l' =>
      b ← f x; ys ← comprehension_if f l'; Ok (if b : bool then x :: ys else ys)
  end.

(** [except ValueError] also catches the subclasses. *)
Definition is_ValueError (e : exn) : bool :=
  match e with ValueError | JSONDecodeError => true | _ => false end.
Definition is_HTTPException (e : exn) : bool :=
  match e with HTTPException _ => true | _ => false end.

End Py.
Export Py.

(** ** [utils/helpers.py]: merging, loading and saving the catalog *)
Module Helpers.

(** [merge_products], the dict comprehension of line 100:
    [{p.get("id"): p for p in existing}], run from the dict built so far. *)
Fixpoint index_by_id (existing : list product) (products_dict : pydict product)
  : result (pydict product) :=
  match existing with
  | [] => Ok products_dict
  | p :: rest =>
      k ← key_of (dict_get p "id");
      index_by_id rest (dict_set products_dict k p)
  end.

(** [merge_products], the loop of lines 103-106. *)
Fixpoint update_all (new_products : list product) (products_dict : pydict product)
  : result (pydict product) :=
  match new_products with
  | [] => Ok products_dict
  | product :: rest =>
      let product_id := dict_get product "id" in
      if is_none product_id then update_all rest products_dict
      else
        k ← key_of product_id;
        update_all rest (dict_set products_dict k product)
  end.

Definition merge_products (existing new_products : list product)
  : result (list product) :=
  products_dict ← index_by_id existing [];
  products_dict ← update_all new_products products_dict;
  Ok (dict_values products_dict).

(** *** The file system the helpers read and write

    A path is its list of components relative to the working directory,
    innermost first: [Path("data/products.json")] is
    [["products.json"; "data"]] and [Path(".")] (also [Path("")]) is [[]]. *)
Abbreviation path := (list string).

Inductive node :=
| Dir
| File (content : string).

Abbreviation fs := (gmap path node).

(** The working directory always exists. *)
Definition fs_node (s : fs) (p : path) : option node :=
  match p with
  | [] => Some Dir
  | _ => s !! p
  end.

(** [path.parent]; the parent of [Path(".")] is itself. *)
Definition parent (p : path) : path := tail p.

(** The calls the helpers make on the operating system. *)
Inductive syscall :=
| Stat                     (* [os.stat], behind [exists()] and [is_dir()] *)
| Mkdir                    (* [os.mkdir] *)
| OpenRead                 (* [open(path, "r")] *)
| OpenWrite                (* [open(path, "w")] *)
| OpenAppend.              (* [open(path, "a")] *)

(** A computation over the file system that returns or raises. *)
Definition io (A : Type) := fs → result A * fs.

Definition io_ret {A} (a : A) : io A := λ s, (Ok a, s).
Definition io_raise {A} (e : exn) : io A := λ s, (Raise e, s).
Definition io_bind {A B} (m : io A) (k : A → io B) : io B := λ s,
  match m s with
  | (Ok a, s') => k a s'
  | (Raise e, s') => (Raise e, s')
  end.
(** [try: body except Exception as e: handler e]. *)
Definition io_try {A} (body : io A) (handler : exn → io A) : io A := λ s,
  match body s with
  | (Ok a, s') => (Ok a, s')
  | (Raise e, s') => handler e s'
  end.

(** A computation that does not touch the file system. *)
Definition io_lift {A} (r : result A) : io A := λ s, (r, s).

Notation "x ←ᵢ m ; k" := (io_bind m (λ x, k))
  (at level 20, m at level 100, k at level 200, right associativity,
   format "x  ←ᵢ  m ;  '/' k").
Notation "' x ←ᵢ m ; k" := (io_bind m (λ x, k))
  (at level 20, x pattern, m at level 100, k at level 200,
   right associativity, format "' x  ←ᵢ  m ;  '/' k").
Notation "m ;;ᵢ k" := (io_bind m (λ _, k))
  (at level 100, k at level 200, right associativity).

(** The [OSError] family. *)
Definition is_OSError (e : exn) : bool :=
  match e with
  | FileNotFoundError | IsADirectoryError | NotADirectoryError
  | FileExistsError | PermissionError | OSError => true
  | _ => false
  end.

(** The errors of [os.stat] that [exists()] and [is_dir()] of [pathlib] take
    for a no: [ENOENT] and [ENOTDIR] ([EBADF] and [ELOOP] have no class of
    their own here), and a [ValueError]. *)
Definition ignored_error (e : exn) : bool :=
  match e with
  | FileNotFoundError | NotADirectoryError | ValueError | JSONDecodeError => true
  | _ => false
  end.

(** The catalog as the JSON value [json.dump] is given. *)
Definition catalog_value (products : list product) : value :=
  VList (VDict <$> products).

Section store.
(** What the operating system answers a call on a path with when it refuses
    the call whatever the tree holds (the name is too long, a permission is
    missing); [None] when the call goes by the tree.  It answers a call in
    the same way throughout. *)
Variable os_error : syscall → path → option exn.

(** [json.dump(v, f, indent=2, ensure_ascii=False)] writes the document
    piece by piece.  [dump_error p v] is [None] when it writes the whole
    text [json_dumps v] to the file opened at [p] and returns, and
    [Some (e, written)] when it raises [e] (a value that cannot be written,
    a full disk) after [written], the beginning of the document, went to
    the file. *)
Variable dump_error : path → value → option (exn * string).
Variable json_dumps : value → string.
(** [json.load], which raises [JSONDecodeError] on text that is not JSON. *)
Variable json_loads : string → result value.

(** [os.stat(p)]. *)
Definition os_stat (s : fs) (p : path) : result node :=
  match os_error Stat p with
  | Some e => Raise e
  | None =>
      match fs_node s p with
      | Some n => Ok n
      | None => Raise FileNotFoundError
      end
  end.

(** [path.exists()] and [path.is_dir()]: an error of [os.stat] that is not
    taken for a no is raised again. *)
Definition path_exists (s : fs) (p : path) : result bool :=
  match os_stat s p with
  | Ok _ => Ok true
  | Raise e => if ignored_error e then Ok false else Raise e
  end.
Definition is_dir (s : fs) (p : path) : result bool :=
  match os_stat s p with
  | Ok Dir => Ok true
  | Ok (File _) => Ok false
  | Raise e => if ignored_error e then Ok false else Raise e
  end.

(** [os.mkdir(d)]. *)
Definition os_mkdir (d : path) : io unit := λ s,
  match os_error Mkdir d with
  | Some e => (Raise e, s)
  | None =>
      match fs_node s d with
      | Some _ => (Raise FileExistsError, s)
      | None =>
          match fs_node s (parent d) with
          | None => (Raise FileNotFoundError, s)
          | Some (File _) => (Raise NotADirectoryError, s)
          | Some Dir => (Ok (), <[d := Dir]> s)
          end
      end
  end.

(** The [except OSError] of [Path.mkdir] with [exist_ok=True]: the error is
    swallowed when the path is a directory already. *)
Definition unless_is_dir (d : path) (e : exn) : io unit := λ s,
  if is_OSError e then
    match is_dir s d with
    | Ok true => (Ok (), s)
    | Ok false => (Raise e, s)
    | Raise e' => (Raise e', s)
    end
  else (Raise e, s).

(** [d.mkdir(parents=False, exist_ok=True)], as [pathlib] defines it: try
    [os.mkdir]; a missing parent is an error. *)
Definition mkdir_leaf (d : path) : io unit :=
  io_try (os_mkdir d) (λ e,
    match e with
    | FileNotFoundError => io_raise e
    | _ => unless_is_dir d e
    end).

(** [d.mkdir(parents=True, exist_ok=True)]: on [FileNotFoundError] the
    parents are created first, unless the path is its own parent, and the
    directory is then made with [parents=False]. *)
Fixpoint mkdir_parents (d : path) {struct d} : io unit :=
  io_try (os_mkdir d) (λ e,
    match e with
    | FileNotFoundError =>
        match d with
        | _ :: d' => mkdir_parents d' ;;ᵢ mkdir_leaf d
        | [] => io_raise e
        end
    | _ => unless_is_dir d e
    end).

(** [open(path, "r")] followed by reading the whole file. *)
Definition read_text (p : path) : io string := λ s,
  match os_error OpenRead p with
  | Some e => (Raise e, s)
  | None =>
      match fs_node s p with
      | Some (File content) => (Ok content, s)
      | Some Dir => (Raise IsADirectoryError, s)
      | None => (Raise FileNotFoundError, s)
      end
  end.

(** [open(path, "w")]: the file is created, or emptied at once. *)
Definition open_w (p : path) : io unit := λ s,
  match os_error OpenWrite p with
  | Some e => (Raise e, s)
  | None =>
      match fs_node s p with
      | Some Dir => (Raise IsADirectoryError, s)
      | _ =>
          match fs_node s (parent p) with
          | Some Dir => (Ok (), <[p := File EmptyString]> s)
          | Some (File _) => (Raise NotADirectoryError, s)
          | None => (Raise FileNotFoundError, s)
          end
      end
  end.

(** [json.dump(v, f, ...)] on the file just opened at [p], and the end of
    the [with] block, which closes the file whether the dump raised or
    not. *)
Definition json_dump (v : value) (p : path) : io unit := λ s,
  match dump_error p v with
  | Some (e, written) => (Raise e, <[p := File written]> s)
  | None => (Ok (), <[p := File (json_dumps v)]> s)
  end.

(** [load_products]: the existence test stands before the [try]; the
    function returns whatever value the file holds; the [len(data)] of the
    log line is evaluated inside the [try]. *)
Definition load_products (file_path : path) : io value := λ s,
  match path_exists s file_path with
  | Raise e => (Raise e, s)
  | Ok false => (Ok (VList []), s)
  | Ok true =>
      io_try
        (text ←ᵢ read_text file_path;
         data ←ᵢ (λ s, (json_loads text, s));
         _ ←ᵢ (λ s, (py_len data, s));
         io_ret data)
        (λ e,
           match e with
           | JSONDecodeError => io_ret (VList [])
           | _ => io_ret (VList [])
           end) s
  end.

(** [save_products]. *)
Definition save_products (products : list product) (file_path : path) : io bool :=
  io_try
    (mkdir_parents (parent file_path) ;;ᵢ
     open_w file_path ;;ᵢ
     json_dump (catalog_value products) file_path ;;ᵢ
     io_ret true)
    (λ _, io_ret false).

End store.

(** No directory above the path is a regular file, and the path itself is
    not a directory: the tree lets a file be written there. *)
Definition writable (s : fs) (file_path : path) : Prop :=
  fs_node s file_path ≠ Some Dir ∧
  ∀ d content, d `suffix_of` parent file_path → fs_node s d ≠ Some (File content).

(** A system that refuses no call, and one that refuses the names of more
    than 255 bytes, as Linux does. *)
Definition os_permits : syscall → path → option exn := λ _ _, None.
(** A dump that fails on no value. *)
Definition dump_returns : path → value → option (exn * string) := λ _ _, None.
Definition name_max : nat := 255.
Definition os_name_max : syscall → path → option exn := λ _ p,
  if existsb (λ c, name_max <? String.length c)%nat p then Some OSError
  else None.

End Helpers.
Export Helpers.

(** ** A small JSON writer and reader

    The theorems about the helpers and the handler hold for every writer
    and reader; this pair runs them on concrete files.  It covers the JSON
    texts without fractions and exponents (written as [json.dump] lays them
    out with [indent=2]); the reader refuses everything else. *)
Module MiniJson.

Definition dquote : ascii := "034"%char.
Definition newline : ascii := "010"%char.

Definition digit_of (c : ascii) : option Z :=
  let n := Z.of_N (N_of_ascii c) in
  if (48 <=? n) && (n <=? 57) then Some (n - 48) else None.

(** A line break followed by the indentation of nesting level [lvl]. *)
Definition nl (lvl : nat) : string :=
  String newline (String.concat "" (replicate lvl "  ")).

Definition hex_digit (n : N) : ascii :=
  if (n <? 10)%N then ascii_of_N (48 + n) else ascii_of_N (87 + n).

(** The text of a string between its quotes. *)
Fixpoint escape (s : string) : string :=
  match s with
  | EmptyString => EmptyString
  | String c s' =>
      let n := N_of_ascii c in
      (if decide (c = dquote) then String "\" (String dquote EmptyString)
       else if decide (c = "\"%char) then "\\"
       else if decide (n = 8%N) then "\b"
       else if decide (n = 9%N) then "\t"
       else if decide (n = 10%N) then "\n"
       else if decide (n = 12%N) then "\f"
       else if decide (n = 13%N) then "\r"
       else if (n <? 32)%N then
         "\u00" +:+ String (hex_digit (n / 16)) (String (hex_digit (n mod 16)) EmptyString)
       else String c EmptyString) +:+ escape s'
  end.

Definition quote (s : string) : string :=
  String dquote (escape s +:+ String dquote EmptyString).

(** A float as an exact decimal. *)
Definition float_text (f : pyfloat) : string :=
  match f with
  | FInf false => "Infinity"
  | FInf true => "-Infinity"
  | FFin m e =>
      if 0 <=? e then pretty (m * 2 ^ e) +:+ ".0"
      else
        let k := Z.to_nat (- e) in
        let digits := pretty (Z.abs m * 5 ^ Z.of_nat k) in
        let padded :=
          String.concat "" (replicate (S k - String.length digits) "0") +:+ digits in
        let cut := (String.length padded - k)%nat in
        (if m <? 0 then "-" else "") +:+
        String.substring 0 cut padded +:+ "." +:+ String.substring cut k padded
  end.

(** [json.dumps(v, indent=2, ensure_ascii=False)], at nesting level [lvl]. *)
Fixpoint dumps_at (lvl : nat) (v : value) {struct v} : string :=
  match v with
  | VNone => "null"
  | VBool true => "true"
  | VBool false => "false"
  | VInt z => pretty z
  | VFloat f => float_text f
  | VStr t => quote t
  | VList [] => "[]"
  | VList l =>
      "[" +:+ nl (S lvl) +:+
      (fix items (l : list value) : string :=
         match l with
         | [] => EmptyString
         | [x] => dumps_at (S lvl) x
         | x :: l' => dumps_at (S lvl) x +:+ "," +:+ nl (S lvl) +:+ items l'
         end) l
      +:+ nl lvl +:+ "]"
  | VDict [] => "{}"
  | VDict d =>
      "{" +:+ nl (S lvl) +:+
      (fix members (d : list (string * value)) : string :=
         match d with
         | [] => EmptyString
         | [(k, x)] => quote k +:+ ": " +:+ dumps_at (S lvl) x
         | (k, x) :: d' =>
             quote k +:+ ": " +:+ dumps_at (S lvl) x +:+ "," +:+ nl (S lvl)
             +:+ members d'
         end) d
      +:+ nl lvl +:+ "}"
  end.

Definition json_dumps (v : value) : string := dumps_at 0 v.

(** White space between tokens. *)
Fixpoint skip_ws (s : string) : string :=
  match s with
  | String c s' =>
      let n := N_of_ascii c in
      if decide (n = 32%N ∨ n = 9%N ∨ n = 10%N ∨ n = 13%N) then skip_ws s' else s
  | EmptyString => EmptyString
  end.

(** [s] starts with [word]: what follows it. *)
Fixpoint after (word s : string) : option string :=
  match word, s with
  | EmptyString, _ => Some s
  | String c w', String c' s' => if decide (c = c') then after w' s' else None
  | _, _ => None
  end.

Definition hex_value (c : ascii) : option N :=
  let n := N_of_ascii c in
  if ((48 <=? n) && (n <=? 57))%N then Some (n - 48)%N
  else if ((97 <=? n) && (n <=? 102))%N then Some (n - 87)%N
  else if ((65 <=? n) && (n <=? 70))%N then Some (n - 55)%N
  else None.

(** The rest of a string literal after its opening quote: the string and
    what follows the closing quote. *)
Fixpoint read_string (fuel : nat) (s : string) : option (string * string) :=
  match fuel, s with
  | S fuel', String c s' =>
      if decide (c = dquote) then Some (EmptyString, s')
      else if decide (c = "\"%char) then
        match s' with
        | String e s'' =>
            let plain (c : ascii) :=
              '(t, rest) ← read_string fuel' s''; Some (String c t, rest) in
            if decide (e = dquote) then plain dquote
            else if decide (e = "\"%char) then plain "\"%char
            else if decide (e = "/"%char) then plain "/"%char
            else if decide (e = "b"%char) then plain "008"%char
            else if decide (e = "t"%char) then plain "009"%char
            else if decide (e = "n"%char) then plain "010"%char
            else if decide (e = "f"%char) then plain "012"%char
            else if decide (e = "r"%char) then plain "013"%char
            else if decide (e = "u"%char) then
              match s'' with
              | String "0" (String "0" (String h1 (String h2 rest))) =>
                  a ← hex_value h1; b ← hex_value h2;
                  if (a <? 8)%N then
                    '(t, rest') ← read_string fuel' rest;
                    Some (String (ascii_of_N (16 * a + b)) t, rest')
                  else None
              | _ => None
              end
            else None
        | EmptyString => None
        end
      else if (N_of_ascii c <? 32)%N then None
      else '(t, rest) ← read_string fuel' s'; Some (String c t, rest)
  | _, _ => None
  end.

(** The digits of an integer, most significant first. *)
Fixpoint read_digits (acc : Z) (s : string) : Z * string :=
  match s with
  | String c s' =>
      match digit_of c with
      | Some d => read_digits (10 * acc + d) s'
      | None => (acc, s)
      end
  | EmptyString => (acc, s)
  end.

(** An integer: no leading zero, no fraction and no exponent after it. *)
Definition read_int (s : string) : option (Z * string) :=
  match s with
  | String c s' =>
      d ← digit_of c;
      let '(n, rest) := if decide (d = 0) then (0, s') else read_digits d s' in
      match rest with
      | String c' _ =>
          if decide (c' = "."%char ∨ c' = "e"%char ∨ c' = "E"%char ∨
                     is_Some (digit_of c'))
          then None else Some (n, rest)
      | EmptyString => Some (n, rest)
      end
  | EmptyString => None
  end.

(** [d[k] = v] on a dict with string keys. *)
Fixpoint member_set (d : list (string * value)) (k : string) (v : value)
  : list (string * value) :=
  match d with
  | [] => [(k, v)]
  | (k', v') :: d' =>
      if decide (k' = k) then (k', v) :: d' else (k', v') :: member_set d' k v
  end.

(** One value, and what follows it. *)
Fixpoint read_value (fuel : nat) (s : string) : option (value * string) :=
  match fuel with
  | O => None
  | S fuel' =>
      match skip_ws s with
      | String c s' =>
          if decide (c = dquote) then
            '(t, rest) ← read_string (String.length s') s'; Some (VStr t, rest)
          else if decide (c = "["%char) then
            match skip_ws s' with
            | String "]" rest => Some (VList [], rest)
            | _ => read_items fuel' s' []
            end
          else if decide (c = "{"%char) then
            match skip_ws s' with
            | String "}" rest => Some (VDict [], rest)
            | _ => read_members fuel' s' []
            end
          else if decide (c = "-"%char) then
            match after "Infinity" s' with
            | Some rest => Some (VFloat (FInf true), rest)
            | None => '(n, rest) ← read_int s'; Some (VInt (- n), rest)
            end
          else
            match after "null" (String c s'), after "true" (String c s'),
                  after "false" (String c s'), after "Infinity" (String c s') with
            | Some rest, _, _, _ => Some (VNone, rest)
            | _, Some rest, _, _ => Some (VBool true, rest)
            | _, _, Some rest, _ => Some (VBool false, rest)
            | _, _, _, Some rest => Some (VFloat (FInf false), rest)
            | _, _, _, _ => '(n, rest) ← read_int (String c s'); Some (VInt n, rest)
            end
      | EmptyString => None
      end
  end
with read_items (fuel : nat) (s : string) (acc : list value)
  : option (value * string) :=
  match fuel with
  | O => None
  | S fuel' =>
      '(v, rest) ← read_value fuel' s;
      match skip_ws rest with
      | String "," rest' => read_items fuel' rest' (acc ++ [v])
      | String "]" rest' => Some (VList (acc ++ [v]), rest')
      | _ => None
      end
  end
with read_members (fuel : nat) (s : string) (acc : list (string * value))
  : option (value * string) :=
  match fuel with
  | O => None
  | S fuel' =>
      match skip_ws s with
      | String c s' =>
          if decide (c = dquote) then
            '(k, rest) ← read_string (String.length s') s';
            match skip_ws rest with
            | String ":" rest' =>
                '(v, rest'') ← read_value fuel' rest';
                match skip_ws rest'' with
                | String "," rest3 => read_members fuel' rest3 (member_set acc k v)
                | String "}" rest3 => Some (VDict (member_set acc k v), rest3)
                | _ => None
                end
            | _ => None
            end
          else None
      | EmptyString => None
      end
  end.

(** [json.loads]: one value and nothing after it. *)
Definition json_loads (s : string) : result value :=
  match read_value (S (String.length s)) s with
  | Some (v, rest) =>
      match skip_ws rest with
      | EmptyString => Ok v
      | _ => Raise JSONDecodeError
      end
  | None => Raise JSONDecodeError
  end.

End MiniJson.

(** ** [api/routes.py]: the [GET /products] handler *)
Module Routes.

(** [ProductResponse]: the count and the validated products. *)
Record ProductResponse (Product : Type) := {
  total : Z;
  products : list Product;
}.
Arguments total {Product} _.
Arguments products {Product} _.

Definition products_json : path := ["products.json"].

Section routes.
Variable os_error : syscall → path → option exn.
Variable json_loads : string → result value.
(** The pydantic model [Product], and its constructor applied to the items
    of a stored record [p]: the validated model, or the exception raised for
    a record that fails validation (or is no mapping at all). *)
Variable Product : Type.
Variable Product_new : value → result Product.

(** Lines 107-114, the body of the inner [try]. *)
Definition filter_by_ids (ids : string) (products_data : value) : result value :=
  id_list ← comprehension (λ id_str, py_int (strip id_str)) (split_on "," ids);
  items ← py_iter products_data;
  products_data ← comprehension_if
    (λ p, v ← py_get p "id"; Ok (existsb (eq_int v) id_list)) items;
  if negb (truthy (VList products_data)) then Raise (HTTPException 404)
  else Ok (VList products_data).

(** Lines 105-121: the filter, when [ids] is given and not empty, with
    the handler of the inner [try]. *)
Definition apply_ids (ids : option string) (products_data : value) : result value :=
  match ids with
  | Some ids_text =>
      if truthy (VStr ids_text) then
        match filter_by_ids ids_text products_data with
        | Ok products_data => Ok products_data
        | Raise e =>
            if is_ValueError e then Raise (HTTPException 400) else Raise e
        end
      else Ok products_data
  | None => Ok products_data
  end.

(** Lines 124-130: the count, then the slice. *)
Definition paginate (limit : option Z) (offset : Z) (products_data : value)
  : result (Z * value) :=
  total ← py_len products_data;
  products_data ←
    (if total <=? offset then Ok (VList [])
     else
       let end_index :=
         match limit with
         | Some n => if truthy (VInt n) then offset + n else total
         | None => total
         end in
       py_slice products_data offset end_index);
  Ok (total, products_data).

(** Lines 133-140: validation of the records to return. *)
Definition validate (products_data : value) : result (list Product) :=
  match (items ← py_iter products_data; comprehension Product_new items) with
  | Ok products => Ok products
  | Raise _ => Raise (HTTPException 500)
  end.

(** [get_products(ids, limit, offset)].  [offset] is never [None]: the
    query parameter defaults to 0. *)
Definition get_products (ids : option string) (limit : option Z) (offset : Z)
  : io (ProductResponse Product) :=
  io_try
    (products_data ←ᵢ load_products os_error json_loads products_json;
     if negb (truthy products_data) then io_raise (HTTPException 404)
     else
       products_data ←ᵢ io_lift (apply_ids ids products_data);
       '(total, products_data) ←ᵢ io_lift (paginate limit offset products_data);
       products ←ᵢ io_lift (validate products_data);
       io_ret {| total := total; products := products |})
    (λ e, if is_HTTPException e then io_raise e
          else io_raise (HTTPException 500)).

End routes.

(** The status line FastAPI answers with. *)
Definition http_status {A} (r : result A) : Z :=
  match r with
  | Ok _ => 200
  | Raise (HTTPException status_code) => status_code
  | Raise _ => 500
  end.

End Routes.
Export Routes.

(** ** [scraper/core.py]: the scraping engine

    [scrape_all] is a coroutine: between two [await]s the event loop may run
    any other task.  The run is modelled as a transition system whose steps
    are the stretches of code between suspension points, taken in any
    order the event loop may choose. *)
Module Core.

(** [ProductScraper]: the targets, and what awaiting
    [scrape_product(page, url, product_id)] gives, a record or an
    exception.  The class is abstract and its implementations are the
    caller's, so the exception need not be an [Exception]. *)
Record ProductScraper := {
  get_product_urls : list string;
  scrape_product : string → Z → result_of base_exn product;
}.

(** What Playwright answers: each awaited call returns or raises one of
    Playwright's errors, which are [Exception]s.  Pages belong to tasks, so
    the page calls are indexed by the task's product id. *)
Record Playwright := {
  chromium_launch : result ();
  browser_new_context : result ();
  context_new_page : Z → result ();
  page_close : Z → result ();
  context_close : result ();
  browser_close : result ();
}.

(** [ScraperEngine.__init__]: [self.semaphore = asyncio.Semaphore(max_concurrent)]. *)
Record ScraperEngine := {
  max_concurrent : Z;
}.

(** Where the coroutine [_scrape_single_product] stands. *)
Inductive pc :=
| AtSemaphore                     (* line 125: not yet inside [async with] *)
| AtNewPage                       (* line 128: inside, [page = None] *)
| AtScrape                        (* line 132: the page is open *)
| AtClose (r : result_of base_exn (option product))
                                  (* line 143: the [finally], with [r] to
                                     return or an exception on its way out *)
| Done (r : result_of base_exn (option product)).   (* returned, or raised *)

Record task := {
  task_url : string;
  task_id : Z;
  task_pc : pc;
}.

(** An item of the list [scrape_all] returns: a record, or the
    [CancelledError] object [gather] puts in the place of a task that ended
    with one. *)
Inductive scraped_item :=
| Item (p : product)
| CancelledErrorObject.

(** Where [scrape_all] stands. *)
Inductive phase :=
| Launching                       (* line 165 *)
| ContextOpening                  (* line 166 *)
| Running                         (* line 178: awaiting [gather] *)
| ContextClosing (ps : list scraped_item)   (* line 190 *)
| BrowserClosing (ps : list scraped_item)   (* line 191 *)
| Returned (ps : list scraped_item)
| Failed (e : exn).

(** What has happened to the browser so far. *)
Inductive event :=
| BrowserLaunched
| ContextOpened
| Entered (product_id : Z)        (* the task got past the semaphore *)
| PageOpened (product_id : Z)
| ScrapeCalled (url : string) (product_id : Z)
| PageClosed (product_id : Z)
| ContextClosed
| BrowserClosed.

#[global] Instance event_eq_dec : EqDecision event.
Proof. solve_decision. Defined.

Record state := {
  st_phase : phase;
  st_semaphore : Z;               (* the semaphore's value *)
  st_tasks : list task;
  st_pages : nat;                 (* pages open *)
  st_trace : list event;          (* latest first *)
}.

(** Lines 172-175: one task per url, [idx + 1] its product id. *)
Definition make_tasks (urls : list string) : list task :=
  imap (λ idx url,
          {| task_url := url; task_id := Z.of_nat idx + 1; task_pc := AtSemaphore |})
       urls.

(** Lines 181-184: [None] and the instances of [Exception] are dropped;
    [gather(return_exceptions=True)] has put the exception of a task in the
    place of its result. *)
Definition successes (results : list (result_of base_exn (option product)))
  : list scraped_item :=
  omap (λ r, match r with
             | Ok (Some p) => Some (Item p)
             | Ok None => None
             | Raise (Exception _) => None
             | Raise CancelledError => Some CancelledErrorObject
             end) results.

Definition task_result (t : task) : option (result_of base_exn (option product)) :=
  match task_pc t with Done r => Some r | _ => None end.

(** What the event loop can do next. *)
Inductive action :=
| DoLaunch
| DoNewContext
| DoTask (i : nat)                (* resume the [i]-th task of [gather] *)
| DoGather                        (* [gather] returns *)
| DoContextClose
| DoBrowserClose.

Section run.
Variable pw : Playwright.
Variable scraper : ProductScraper.

(** One stretch of [_scrape_single_product], from one suspension point to
    the next: the new place, and the changes to the semaphore, the open
    pages and the history.  [None]: the task cannot run (it waits for the
    semaphore, or it is over). *)
Definition task_step (t : task) (semaphore : Z)
  : option (pc * Z * (nat → nat) * list event) :=
  let product_id := task_id t in
  match task_pc t with
  | AtSemaphore =>
      if 0 <? semaphore
      then Some (AtNewPage, semaphore - 1, id, [Entered product_id])
      else None
  | AtNewPage =>
      match context_new_page pw product_id with
      | Ok _ => Some (AtScrape, semaphore, S, [PageOpened product_id])
      | Raise _ =>
          (* [except]: return None; [finally]: no page; semaphore released *)
          Some (Done (Ok None), semaphore + 1, id, [])
      end
  | AtScrape =>
      match scrape_product scraper (task_url t) product_id with
      | Ok product_data =>
          Some (AtClose (Ok (Some product_data)), semaphore, id,
                [ScrapeCalled (task_url t) product_id])
      | Raise (Exception _) =>
          (* [except Exception]: return None *)
          Some (AtClose (Ok None), semaphore, id,
                [ScrapeCalled (task_url t) product_id])
      | Raise CancelledError =>
          (* not caught: it leaves through the [finally] *)
          Some (AtClose (Raise CancelledError), semaphore, id,
                [ScrapeCalled (task_url t) product_id])
      end
  | AtClose r =>
      match page_close pw product_id with
      | Ok _ => Some (Done r, semaphore + 1, pred, [PageClosed product_id])
      | Raise e =>
          Some (Done (Raise (Exception e)), semaphore + 1, pred,
                [PageClosed product_id])
      end
  | Done _ => None
  end.

(** One step of the run; [None] when the action is not enabled. *)
Definition exec (a : action) (st : state) : option state :=
  let '{| st_phase := ph; st_semaphore := sem; st_tasks := ts;
          st_pages := pages; st_trace := tr |} := st in
  match a, ph with
  | DoLaunch, Launching =>
      match chromium_launch pw with
      | Ok _ => Some {| st_phase := ContextOpening; st_semaphore := sem;
                        st_tasks := ts; st_pages := pages;
                        st_trace := BrowserLaunched :: tr |}
      | Raise e => Some {| st_phase := Failed e; st_semaphore := sem;
                           st_tasks := ts; st_pages := pages; st_trace := tr |}
      end
  | DoNewContext, ContextOpening =>
      match browser_new_context pw with
      | Ok _ => Some {| st_phase := Running; st_semaphore := sem;
                        st_tasks := make_tasks (get_product_urls scraper);
                        st_pages := pages; st_trace := ContextOpened :: tr |}
      | Raise e => Some {| st_phase := Failed e; st_semaphore := sem;
                           st_tasks := ts; st_pages := pages; st_trace := tr |}
      end
  | DoTask i, Running =>
      t ← ts !! i;
      '(pc', sem', upd, evs) ← task_step t sem;
      Some {| st_phase := Running; st_semaphore := sem';
              st_tasks := <[i := {| task_url := task_url t; task_id := task_id t;
                                    task_pc := pc' |}]> ts;
              st_pages := upd pages; st_trace := evs ++ tr |}
  | DoGather, Running =>
      results ← mapM task_result ts;
      Some {| st_phase := ContextClosing (successes results); st_semaphore := sem;
              st_tasks := ts; st_pages := pages; st_trace := tr |}
  | DoContextClose, ContextClosing ps =>
      (* the [finally]: an exception of [context.close()] leaves
         [scrape_all] at once, past [browser.close()] *)
      match context_close pw with
      | Ok _ => Some {| st_phase := BrowserClosing ps; st_semaphore := sem;
                        st_tasks := ts; st_pages := pages;
                        st_trace := ContextClosed :: tr |}
      | Raise e => Some {| st_phase := Failed e; st_semaphore := sem;
                           st_tasks := ts; st_pages := pages; st_trace := tr |}
      end
  | DoBrowserClose, BrowserClosing ps =>
      match browser_close pw with
      | Ok _ => Some {| st_phase := Returned ps; st_semaphore := sem;
                        st_tasks := ts; st_pages := pages;
                        st_trace := BrowserClosed :: tr |}
      | Raise e => Some {| st_phase := Failed e; st_semaphore := sem;
                           st_tasks := ts; st_pages := pages; st_trace := tr |}
      end
  | _, _ => None
  end.

(** The event loop takes any enabled step. *)
Definition step (st st' : state) : Prop := ∃ a, exec a st = Some st'.

(** [scrape_all] is entered: the urls are there, nothing is open. *)
Definition scrape_all (engine : ScraperEngine) : state :=
  {| st_phase := Launching; st_semaphore := max_concurrent engine;
     st_tasks := []; st_pages := 0; st_trace := [] |}.

(** The states a run of [scrape_all] goes through. *)
Definition reachable (engine : ScraperEngine) (st : state) : Prop :=
  rtc step (scrape_all engine) st.

(** [scrape_all] is over: it returned or raised. *)
Definition finished (st : state) : bool :=
  match st_phase st with Returned _ | Failed _ => true | _ => false end.

(** One event loop: it resumes the first task that can run. *)
Definition candidates (st : state) : list action :=
  [DoLaunch; DoNewContext; DoGather; DoContextClose; DoBrowserClose]
  ++ (DoTask <$> seq 0 (length (st_tasks st))).

Definition next (st : state) : option state :=
  head (omap (λ a, exec a st) (candidates st)).

(** The run under a given schedule; an action that is not enabled is
    skipped. *)
Definition run_schedule (schedule : list action) (st : state) : state :=
  foldl (λ st a, default st (exec a st)) st schedule.

Fixpoint run (fuel : nat) (st : state) : state :=
  match fuel with
  | O => st
  | S fuel' => match next st with Some st' => run fuel' st' | None => st end
  end.

End run.

End Core.
Export Core.

(** ** Vocabulary of the statements about the engine *)
Module CoreSpec.

(** The task is inside the semaphore. *)
Definition holds (t : task) : nat :=
  match task_pc t with AtNewPage | AtScrape | AtClose _ => 1 | _ => 0 end.

(** The task has its page open. *)
Definition has_page (t : task) : nat :=
  match task_pc t with AtScrape | AtClose _ => 1 | _ => 0 end.

(** The task has been attempted: it got past the semaphore. *)
Definition started (t : task) : nat :=
  match task_pc t with AtSemaphore => 0 | _ => 1 end.

(** The task has reached its terminal outcome. *)
Definition is_done (t : task) : bool :=
  match task_pc t with Done _ => true | _ => false end.

(** Stretches of code the task still has to run, at most. *)
Definition remaining (t : task) : nat :=
  match task_pc t with
  | AtSemaphore => 4 | AtNewPage => 3 | AtScrape => 2 | AtClose _ => 1
  | Done _ => 0
  end.

(** How often an event occurs in the history. *)
Definition count (e : event) (tr : list event) : nat :=
  length (filter (λ e', e' = e) tr).

(** The events of a kind in the history. *)
Definition is_Entered (e : event) : bool :=
  match e with Entered _ => true | _ => false end.
Definition is_PageOpened (e : event) : bool :=
  match e with PageOpened _ => true | _ => false end.
Definition attempts (tr : list event) : nat := length (filter is_Entered tr).
Definition pages_opened (tr : list event) : nat := length (filter is_PageOpened tr).

Section spec.
Variable pw : Playwright.
Variable scraper : ProductScraper.

(** What the task for [url] and [product_id] ends with, whatever the other
    tasks do: [None] when the page cannot be opened or the extraction
    raises an [Exception], the record when it returns, the
    [CancelledError] the extraction raises, and in the place of all these
    the exception of [page.close()] when that raises. *)
Definition extraction (url : string) (product_id : Z)
  : result_of base_exn (option product) :=
  match scrape_product scraper url product_id with
  | Ok product_data => Ok (Some product_data)
  | Raise (Exception _) => Ok None
  | Raise CancelledError => Raise CancelledError
  end.

Definition outcome (url : string) (product_id : Z)
  : result_of base_exn (option product) :=
  match context_new_page pw product_id with
  | Raise _ => Ok None
  | Ok _ =>
      match page_close pw product_id with
      | Ok _ => extraction url product_id
      | Raise e => Raise (Exception e)
      end
  end.

(** The task stands where the answers it got so far put it. *)
Definition task_ok (t : task) : Prop :=
  match task_pc t with
  | AtSemaphore | AtNewPage => True
  | AtScrape => ∃ u, context_new_page pw (task_id t) = Ok u
  | AtClose r =>
      (∃ u, context_new_page pw (task_id t) = Ok u) ∧
      r = extraction (task_url t) (task_id t)
  | Done r => r = outcome (task_url t) (task_id t)
  end.

(** The list [scrape_all] returns: what line 183 keeps of the outcomes, in
    target order. *)
Definition expected_products : list scraped_item :=
  successes ((λ t, outcome (task_url t) (task_id t))
             <$> make_tasks (get_product_urls scraper)).

(** An upper bound on the steps the run still takes. *)
Definition measure (st : state) : nat :=
  match st_phase st with
  | Launching => 5 + 4 * length (get_product_urls scraper)
  | ContextOpening => 4 + 4 * length (get_product_urls scraper)
  | Running => 3 + sum_list (remaining <$> st_tasks st)
  | ContextClosing _ => 2
  | BrowserClosing _ => 1
  | Returned _ | Failed _ => 0
  end%nat.

(** The history a phase implies: how often the browser and the context were
    opened and closed. *)
Definition trace_ok (st : state) : Prop :=
  let tr := st_trace st in
  match st_phase st with
  | Launching => tr = []
  | ContextOpening => tr = [BrowserLaunched]
  | Failed e =>
      (chromium_launch pw = Raise e ∧ tr = []) ∨
      (browser_new_context pw = Raise e ∧ tr = [BrowserLaunched]) ∨
      (context_close pw = Raise e ∧
       count BrowserLaunched tr = 1%nat ∧ count ContextOpened tr = 1%nat ∧
       count ContextClosed tr = 0%nat ∧ count BrowserClosed tr = 0%nat) ∨
      (browser_close pw = Raise e ∧
       count BrowserLaunched tr = 1%nat ∧ count ContextOpened tr = 1%nat ∧
       count ContextClosed tr = 1%nat ∧ count BrowserClosed tr = 0%nat)
  | Running =>
      count BrowserLaunched tr = 1%nat ∧ count ContextOpened tr = 1%nat ∧
      count ContextClosed tr = 0%nat ∧ count BrowserClosed tr = 0%nat
  | ContextClosing _ =>
      count BrowserLaunched tr = 1%nat ∧ count ContextOpened tr = 1%nat ∧
      count ContextClosed tr = 0%nat ∧ count BrowserClosed tr = 0%nat
  | BrowserClosing _ =>
      count BrowserLaunched tr = 1%nat ∧ count ContextOpened tr = 1%nat ∧
      count ContextClosed tr = 1%nat ∧ count BrowserClosed tr = 0%nat
  | Returned _ =>
      count BrowserLaunched tr = 1%nat ∧ count ContextOpened tr = 1%nat ∧
      count ContextClosed tr = 1%nat ∧ count BrowserClosed tr = 1%nat
  end.

(** The tasks a phase implies. *)
Definition tasks_ok (st : state) : Prop :=
  match st_phase st with
  | Launching | ContextOpening => st_tasks st = []
  | Failed _ =>
      st_tasks st = [] ∨
      ((λ t, (task_url t, task_id t)) <$> st_tasks st =
       (λ t, (task_url t, task_id t)) <$> make_tasks (get_product_urls scraper) ∧
       Forall (λ t, is_done t = true) (st_tasks st))
  | Running =>
      (λ t, (task_url t, task_id t)) <$> st_tasks st =
      (λ t, (task_url t, task_id t)) <$> make_tasks (get_product_urls scraper)
  | ContextClosing ps | BrowserClosing ps | Returned ps =>
      (λ t, (task_url t, task_id t)) <$> st_tasks st =
      (λ t, (task_url t, task_id t)) <$> make_tasks (get_product_urls scraper) ∧
      Forall (λ t, is_done t = true) (st_tasks st) ∧
      ps = expected_products
  end.

(** [url] is the target at some position [idx] and [product_id] is
    [idx + 1]. *)
Definition target_of (url : string) (product_id : Z) : Prop :=
  ∃ idx : nat, get_product_urls scraper !! idx = Some url ∧
               product_id = Z.of_nat idx + 1.

(** The event is about a target and its identifier. *)
Definition event_ok (e : event) : Prop :=
  match e with
  | ScrapeCalled url product_id => target_of url product_id
  | Entered product_id | PageOpened product_id | PageClosed product_id =>
      ∃ url, target_of url product_id
  | _ => True
  end.

(** [gather] has been called. *)
Definition gathering (st : state) : bool :=
  match st_phase st with
  | Running | ContextClosing _ | BrowserClosing _ | Returned _ => true
  | _ => false
  end.

(** The tasks are the targets with their identifiers, and so is every
    event. *)
Definition identifiers_ok (st : state) : Prop :=
  (st_tasks st = [] ∧ gathering st = false ∨
   (λ t, (task_url t, task_id t)) <$> st_tasks st =
   (λ t, (task_url t, task_id t)) <$> make_tasks (get_product_urls scraper)) ∧
  Forall event_ok (st_trace st).

(** The invariant of the run. *)
Record invariant (engine : ScraperEngine) (st : state) : Prop := {
  inv_semaphore : 0 ≤ st_semaphore st;
  inv_permits :
    st_semaphore st + Z.of_nat (sum_list (holds <$> st_tasks st))
    = max_concurrent engine;
  inv_pages : st_pages st = sum_list (has_page <$> st_tasks st);
  inv_attempts : attempts (st_trace st) = sum_list (started <$> st_tasks st);
  inv_tasks : tasks_ok st;
  inv_task_ok : Forall task_ok (st_tasks st);
  inv_trace : trace_ok st;
}.

End spec.

End CoreSpec.
Export CoreSpec.

(** ** Vocabulary of the statements about the handler *)
Module RoutesSpec.

(** The ids a well-formed [ids] parameter lists. *)
Definition parse_ids (ids : string) : result (list Z) :=
  comprehension (λ id_str, py_int (strip id_str)) (split_on "," ids).

(** The record's id equals one of the listed ones. *)
Definition id_listed (id_list : list Z) (p : product) : Prop :=
  existsb (eq_int (dict_get p "id")) id_list = true.

#[global] Instance id_listed_dec id_list p : Decision (id_listed id_list p).
Proof. unfold id_listed. apply _. Defined.

(** The filtered set: the whole catalog without an [ids] parameter (or with
    an empty one), the records whose id is listed otherwise. *)
Definition selection (ids : option string) (C : list product)
  : result (list product) :=
  match ids with
  | Some ids_text =>
      if decide (ids_text = "") then Ok C
      else id_list ← parse_ids ids_text; Ok (filter (id_listed id_list) C)
  | None => Ok C
  end.

(** Offset/limit slicing of the filtered set. *)
Definition page {A} (limit : option Z) (offset : Z) (F : list A) : list A :=
  match limit with
  | Some n => take (Z.to_nat n) (drop (Z.to_nat offset) F)
  | None => drop (Z.to_nat offset) F
  end.

(** The same slicing as the handler computes it, for any integers. *)
Definition shown {A} (limit : option Z) (offset : Z) (F : list A) : list A :=
  if Z.of_nat (length F) <=? offset then []
  else list_slice F offset
         match limit with
         | Some n => if truthy (VInt n) then offset + n else Z.of_nat (length F)
         | None => Z.of_nat (length F)
         end.

End RoutesSpec.
Export RoutesSpec.

(** ** Vocabulary of the statements about the merge *)
Module MergeSpec.

(** [p.get("id")]. *)
Definition get_id (p : product) : value := dict_get p "id".

(** The record carries an integer [id]. *)
Definition has_int_id (p : product) : Prop := ∃ z, get_id p = VInt z.

(** The key an integer id is stored under. *)
Definition int_key (z : Z) : key := KNum (Q2Qc (inject_Z z)).

(** A list's version of the record with id [z]: the last one that carries
    it. *)
Definition version_of (z : Z) (l : list product) : option product :=
  last (filter (λ p, get_id p = VInt z) l).

(** Both passes of [merge_products] as one fold; [skip] says whether records
    without an id are passed over (the loop) or stored under [None] (the
    comprehension). *)
Fixpoint upsert_all (skip : bool) (l : list product) (d : pydict product)
  : result (pydict product) :=
  match l with
  | [] => Ok d
  | p :: rest =>
      if skip && is_none (get_id p) then upsert_all skip rest d
      else k ← key_of (get_id p); upsert_all skip rest (dict_set d k p)
  end.

(** The record a pass leaves under key [k], if it stores one there. *)
Fixpoint stored_last (skip : bool) (k : key) (l : list product) : option product :=
  match l with
  | [] => None
  | p :: rest =>
      match stored_last skip k rest with
      | Some q => Some q
      | None =>
          if skip && is_none (get_id p) then None
          else if decide (key_of (get_id p) = Ok k) then Some p else None
      end
  end.

(** Every item sits under the key of its own id. *)
Definition coherent (d : pydict product) : Prop :=
  Forall (λ kp, key_of (get_id kp.2) = Ok kp.1) d.

End MergeSpec.
Export MergeSpec.

(** ** Concrete catalogs, files, scrapers and browsers

    The inputs the statements are run on. *)
Module Examples.

(** The specification's merge scenario: the catalog holds record 1 named
    A, the incoming list holds record 1 named B and record 2 named C. *)
Definition scenario_catalog : list product :=
  [[("id", VInt 1); ("name", VStr "A")]].
Definition scenario_incoming : list product :=
  [[("id", VInt 1); ("name", VStr "B")]; [("id", VInt 2); ("name", VStr "C")]].

(** A record as the example scrapers produce it. *)
Definition olx_record (product_id : Z) (url : string) : product :=
  [("id", VInt product_id);
   ("name", VStr ("Used Electronics Item #" +:+ pretty product_id));
   ("image_url", VStr ("https://via.placeholder.com/300x300?text=Item+"
                       +:+ pretty product_id));
   ("description", VStr "Pre-owned electronics item in good condition.");
   ("price", VStr ("$" +:+ pretty (100 + product_id * 50)));
   ("rating", VNone);
   ("specifications", VDict [("condition", VStr "Used - Good")]);
   ("source_url", VStr url)].

Definition olx_url (i : Z) : string :=
  "https://example-olx.com/item/electronics-" +:+ pretty i.

(** A stored catalog of three records, and one whose second record has no
    name. *)
Definition stored_catalog : list product :=
  [olx_record 1 (olx_url 1); olx_record 2 (olx_url 2); olx_record 3 (olx_url 3)].
Definition damaged_catalog : list product :=
  [olx_record 1 (olx_url 1); [("id", VInt 2)]].

(** A file system whose [products.json] holds a catalog. *)
Definition fs_with (C : list product) : fs :=
  {[ products_json := File (MiniJson.json_dumps (catalog_value C)) ]}.

(** The fields of [models/product.py]. *)
Record Product := {
  id : Z;
  name : string;
  image_url : string;
  description : string;
  price : value;
  rating : value;
  specifications : list (string * value);
  source_url : value;
}.

(** A validator for [Product]: it accepts the records whose fields have the
    declared types as they stand (no conversion), with [rating],
    [specifications] and [source_url] optional. *)
Definition Product_new (p : value) : result Product :=
  match p with
  | VDict d =>
      match dict_get d "id", dict_get d "name", dict_get d "image_url",
            dict_get d "description" with
      | VInt i, VStr n, VStr img, VStr descr =>
          let price_ok :=
            match dict_get d "price" with
            | VStr _ | VFloat _ => true
            | _ => false
            end in
          let rating_ok :=
            match dict_get d "rating" with
            | VNone | VStr _ | VFloat _ => true
            | _ => false
            end in
          let source_ok :=
            match dict_get d "source_url" with
            | VNone | VStr _ => true
            | _ => false
            end in
          let specs :=
            match dict_get d "specifications" with
            | VDict sp => Some sp
            | VNone => if dict_has d "specifications" then None else Some []
            | _ => None
            end in
          match specs with
          | Some sp =>
              if negb (String.eqb n "") && price_ok && rating_ok && source_ok
              then Ok {| id := i; name := n; image_url := img;
                         description := descr; price := dict_get d "price";
                         rating := dict_get d "rating"; specifications := sp;
                         source_url := dict_get d "source_url" |}
              else Raise ValidationError
          | None => Raise ValidationError
          end
      | _, _, _, _ => Raise ValidationError
      end
  | _ => Raise TypeError
  end.

(** The specification's run scenario: five targets, the extraction of
    targets 2 and 4 raises, the bound is 2. *)
Definition five_urls : list string := olx_url <$> [1; 2; 3; 4; 5].

Definition flaky_scraper : ProductScraper := {|
  get_product_urls := five_urls;
  scrape_product := λ url product_id,
    if decide (product_id = 2 ∨ product_id = 4)
    then Raise (Exception PlaywrightError)
    else Ok (olx_record product_id url);
|}.

(** A scraper whose every extraction raises. *)
Definition failing_scraper : ProductScraper := {|
  get_product_urls := five_urls;
  scrape_product := λ _ _, Raise (Exception PlaywrightError);
|}.

(** A browser that works, and one that cannot be launched. *)
Definition working_browser : Playwright := {|
  chromium_launch := Ok ();
  browser_new_context := Ok ();
  context_new_page := λ _, Ok ();
  page_close := λ _, Ok ();
  context_close := Ok ();
  browser_close := Ok ();
|}.
Definition missing_browser : Playwright := {|
  chromium_launch := Raise PlaywrightError;
  browser_new_context := Ok ();
  context_new_page := λ _, Ok ();
  page_close := λ _, Ok ();
  context_close := Ok ();
  browser_close := Ok ();
|}.

(** A browser whose context does not close, and a scraper whose every
    extraction ends with a [CancelledError]. *)
Definition stuck_browser : Playwright := {|
  chromium_launch := Ok ();
  browser_new_context := Ok ();
  context_new_page := λ _, Ok ();
  page_close := λ _, Ok ();
  context_close := Raise PlaywrightError;
  browser_close := Ok ();
|}.
Definition cancelled_scraper : ProductScraper := {|
  get_product_urls := five_urls;
  scrape_product := λ _ _, Raise CancelledError;
|}.

Definition engine_of_two : ScraperEngine := {| max_concurrent := 2 |}.

(** A file name of 300 bytes. *)
Definition long_name : string := String.concat "" (replicate 300 "a").

End Examples.

(** ** Further vocabulary of the statements about the helpers *)
Module HelpersSpec.

(** [hash(v)] is defined: lists and dicts are the unhashable values. *)
Definition hashable (v : value) : bool :=
  match v with VList _ | VDict _ => false | _ => true end.

(** The record carries an id: the key is there and is not [None]. *)
Definition has_id (p : product) : Prop := get_id p ≠ VNone.

#[global] Instance has_id_dec p : Decision (has_id p).
Proof. unfold has_id. apply _. Defined.

(** The record a catalog record with an integer id becomes when [X] is
    merged in: [X]'s last version of it, or the record itself. *)
Definition replaced_by (X : list product) (p : product) : product :=
  match get_id p with
  | VInt z => default p (version_of z X)
  | _ => p
  end.

(** The tree is a tree: whatever exists sits in a directory. *)
Definition well_formed (s : fs) : Prop :=
  ∀ c d n, s !! (c :: d) = Some n → fs_node s d = Some Dir.

End HelpersSpec.
Export HelpersSpec.

(** ** [api/routes.py]: the [GET /products/{product_id}] handler *)
Module RoutesById.

Section routes.
Variable os_error : syscall → path → option exn.
Variable json_loads : string → result value.
Variable Product : Type.
Variable Product_new : value → result Product.

(** Lines 186-189: [next((p for p in products_data if p.get("id") ==
    product_id), None)].  The generator is consumed up to the first match,
    so what comes after it is never looked at. *)
Fixpoint next_with_id (product_id : Z) (items : list value) : result value :=
  match items with
  | [] => Ok VNone
  | p :: rest =>
      v ← py_get p "id";
      if eq_int v product_id then Ok p else next_with_id product_id rest
  end.

(** [get_product_by_id(product_id)]; FastAPI has converted the path
    parameter to an [int]. *)
Definition get_product_by_id (product_id : Z) : io Product :=
  io_try
    (products_data ←ᵢ load_products os_error json_loads products_json;
     if negb (truthy products_data) then io_raise (HTTPException 404)
     else
       items ←ᵢ io_lift (py_iter products_data);
       product_data ←ᵢ io_lift (next_with_id product_id items);
       if negb (truthy product_data) then io_raise (HTTPException 404)
       else
         io_try (io_lift (Product_new product_data))
                (λ _, io_raise (HTTPException 500)))
    (λ e, if is_HTTPException e then io_raise e
          else io_raise (HTTPException 500)).

End routes.

End RoutesById.
Export RoutesById.

(** ** Further vocabulary of the statements about the engine *)
Module CoreSpec2.

Definition is_PageClosed (e : event) : bool :=
  match e with PageClosed _ => true | _ => false end.

(** How many [page.close()] calls the history holds. *)
Definition pages_closed (tr : list event) : nat := length (filter is_PageClosed tr).

End CoreSpec2.
Export CoreSpec2.

(** ** [scraper/core.py]: [scrape_batch]

    [scrape_batch(scraper, urls, start_id)] repeats the body of [scrape_all]
    (lines 213-237 for lines 164-191) with two differences: the urls are an
    argument, and the task at position [idx] is given the id
    [start_id + idx].  The run is the transition system of [scrape_all]
    with these tasks. *)
Module Batch.

(** Lines 220-223. *)
Definition batch_tasks (urls : list string) (start_id : Z) : list task :=
  imap (λ idx url,
          {| task_url := url; task_id := start_id + Z.of_nat idx;
             task_pc := AtSemaphore |})
       urls.

Section run.
Variable pw : Playwright.
Variable scraper : ProductScraper.
Variable urls : list string.
Variable start_id : Z.

(** One step of the run: the step of [scrape_all], except that opening the
    context is followed by the creation of the batch's tasks. *)
Definition exec_batch (a : action) (st : state) : option state :=
  match a, st_phase st with
  | DoNewContext, ContextOpening =>
      match browser_new_context pw with
      | Ok _ => Some {| st_phase := Running; st_semaphore := st_semaphore st;
                        st_tasks := batch_tasks urls start_id;
                        st_pages := st_pages st;
                        st_trace := ContextOpened :: st_trace st |}
      | Raise e => Some {| st_phase := Failed e; st_semaphore := st_semaphore st;
                           st_tasks := st_tasks st; st_pages := st_pages st;
                           st_trace := st_trace st |}
      end
  | _, _ => exec pw scraper a st
  end.

Definition step_batch (st st' : state) : Prop := ∃ a, exec_batch a st = Some st'.

(** [scrape_batch] is entered: nothing is open, the semaphore is the
    engine's. *)
Definition scrape_batch (engine : ScraperEngine) : state := scrape_all engine.

Definition reachable_batch (engine : ScraperEngine) (st : state) : Prop :=
  rtc step_batch (scrape_batch engine) st.

(** The event loop, as for [scrape_all]. *)
Definition next_batch (st : state) : option state :=
  head (omap (λ a, exec_batch a st) (candidates st)).

Fixpoint run_batch (fuel : nat) (st : state) : state :=
  match fuel with
  | O => st
  | S fuel' =>
      match next_batch st with Some st' => run_batch fuel' st' | None => st end
  end.

(** [await engine.scrape_batch(scraper, urls, start_id)]; [None]: it never
    ends. *)
Definition await_scrape_batch (engine : ScraperEngine)
  : option (result (list scraped_item)) :=
  let fuel := (5 + 4 * length urls)%nat in
  match st_phase (run_batch fuel (scrape_batch engine)) with
  | Returned products => Some (Ok products)
  | Failed e => Some (Raise e)
  | _ => None
  end.

End run.

(** The list a batch returns: what line 229 keeps of the outcomes, in the
    order of the urls. *)
Definition batch_products (pw : Playwright) (scraper : ProductScraper)
    (urls : list string) (start_id : Z) : list scraped_item :=
  successes ((λ t, outcome pw scraper (task_url t) (task_id t))
             <$> batch_tasks urls start_id).

End Batch.
Export Batch.

(** ** A batch seen as a run of [scrape_all]

    A batch that starts at [start_id] takes the steps of [scrape_all] over
    the same urls, with every id shifted by [start_id - 1]. *)
Module BatchSpec.

Section shift.
Variable pw : Playwright.
Variable scraper : ProductScraper.
Variable urls : list string.
Variable start_id : Z.

Definition shifted_browser : Playwright := {|
  chromium_launch := chromium_launch pw;
  browser_new_context := browser_new_context pw;
  context_new_page := λ i, context_new_page pw (i + (start_id - 1));
  page_close := λ i, page_close pw (i + (start_id - 1));
  context_close := context_close pw;
  browser_close := browser_close pw;
|}.

Definition shifted_scraper : ProductScraper := {|
  get_product_urls := urls;
  scrape_product := λ url i, scrape_product scraper url (i + (start_id - 1));
|}.

Definition shift_task (t : task) : task :=
  {| task_url := task_url t; task_id := task_id t + (start_id - 1);
     task_pc := task_pc t |}.

Definition shift_event (e : event) : event :=
  match e with
  | Entered i => Entered (i + (start_id - 1))
  | PageOpened i => PageOpened (i + (start_id - 1))
  | ScrapeCalled url i => ScrapeCalled url (i + (start_id - 1))
  | PageClosed i => PageClosed (i + (start_id - 1))
  | _ => e
  end.

Definition shift_state (st : state) : state :=
  {| st_phase := st_phase st; st_semaphore := st_semaphore st;
     st_tasks := shift_task <$> st_tasks st; st_pages := st_pages st;
     st_trace := shift_event <$> st_trace st |}.

End shift.

End BatchSpec.
Export BatchSpec.

(** ** [scraper/examples.py]: the two example scrapers *)
Module ScraperExamples.

(** [range(lo, hi)]. *)
Definition py_range (lo hi : Z) : list Z :=
  (λ k, lo + Z.of_nat k) <$> seq 0 (Z.to_nat (hi - lo)).

Section scrapers.
(** Awaiting [page.goto(url, wait_until="domcontentloaded")] on the page of
    the task with the given product id: it returns or raises. *)
Variable page_goto : Z → string → result ().

(** [ExampleOLXScraper(category, max_products)]. *)
Definition olx_urls (max_products : Z) : list string :=
  (λ i, "https://example-olx.com/item/electronics-" +:+ pretty i)
    <$> py_range 1 (max_products + 1).

(** Lines 194-209: the record of a listing. *)
Definition olx_product_data (category url : string) (product_id : Z) : product :=
  [("id", VInt product_id);
   ("name", VStr ("Used Electronics Item #" +:+ pretty product_id));
   ("image_url", VStr ("https://via.placeholder.com/300x300?text=Item+"
                       +:+ pretty product_id));
   ("description", VStr ("Pre-owned " +:+ category +:+ " item in good condition. "
                         +:+ "Well maintained and fully functional."));
   ("price", VStr ("$" +:+ pretty (100 + product_id * 50)));
   ("rating", VNone);
   ("specifications",
    VDict [("condition", VStr "Used - Good");
           ("category", VStr category);
           ("location", VStr "Local pickup available");
           ("seller_type", VStr "Individual")]);
   ("source_url", VStr url)].

(** The [except] of [scrape_product] logs and raises again. *)
Definition ExampleOLXScraper (category : string) (max_products : Z)
  : ProductScraper := {|
  get_product_urls := olx_urls max_products;
  scrape_product := λ url product_id,
    match page_goto product_id url with
    | Ok _ => Ok (olx_product_data category url product_id)
    | Raise e => Raise (Exception e)
    end;
|}.

(** [ExampleMercadoLibreScraper(search_query, max_products)]. *)
Definition base_urls : list string :=
  ["https://example.com/product/smartphone-samsung-a54";
   "https://example.com/product/iphone-13-128gb";
   "https://example.com/product/xiaomi-redmi-note-12";
   "https://example.com/product/motorola-edge-30";
   "https://example.com/product/samsung-galaxy-s23"].

(** Line 62: [base_urls[:self.max_products]]. *)
Definition mercadolibre_urls (max_products : Z) : list string :=
  list_slice base_urls 0 max_products.

(** Lines 96-109 compute the record from the url and the id; its price and
    rating go through floats, and the computation is left open here: it
    gives a record or raises. *)
Variable mercadolibre_product_data : string → Z → result product.

Definition ExampleMercadoLibreScraper (search_query : string) (max_products : Z)
  : ProductScraper := {|
  get_product_urls := mercadolibre_urls max_products;
  scrape_product := λ url product_id,
    match page_goto product_id url with
    | Ok _ => raised (mercadolibre_product_data url product_id)
    | Raise e => Raise (Exception e)
    end;
|}.

End scrapers.

End ScraperExamples.
Export ScraperExamples.

(** ** [main.py]: running the scraper and saving what it found *)
Module Main.

(** [str.lower()] on ASCII text. *)
Definition ascii_lower (c : ascii) : ascii :=
  let n := Ascii.N_of_ascii c in
  if ((65 <=? n) && (n <=? 90))%N then Ascii.ascii_of_N (n + 32) else c.
Fixpoint lower (s : string) : string :=
  match s with
  | EmptyString => EmptyString
  | String c s' => String (ascii_lower c) (lower s')
  end.

(** [ScraperEngine(max_concurrent=...)]: [asyncio.Semaphore] raises a
    [ValueError] for a negative value. *)
Definition ScraperEngine_new (max_concurrent : Z) : result ScraperEngine :=
  if max_concurrent <? 0 then Raise ValueError
  else Ok {| max_concurrent := max_concurrent |}.

(** [p[name]]; [None] stands for the [KeyError] of a missing key. *)
Definition py_item (p : product) (name : string) : option value :=
  if dict_has p name then Some (dict_get p name) else None.

(** Lines 82-91: the record that is saved for a scraped product. *)
Definition product_row (p : product) : option product :=
  id ← py_item p "id";
  name ← py_item p "name";
  image_url ← py_item p "image_url";
  description ← py_item p "description";
  price ← py_item p "price";
  Some [("id", id); ("name", name); ("image_url", image_url);
        ("description", description); ("price", price);
        ("rating", dict_get p "rating");
        ("specifications",
         if dict_has p "specifications" then dict_get p "specifications"
         else VDict []);
        ("source_url", dict_get p "source_url")].

(** [merge_products], lines 100-109 of [utils/helpers.py], on what
    [load_products] returned, which need not be a list of records: every
    item of [existing] is asked for [.get("id")]. *)
Fixpoint index_values (existing : list value) (products_dict : pydict product)
  : result (pydict product) :=
  match existing with
  | [] => Ok products_dict
  | p :: rest =>
      match p with
      | VDict r =>
          k ← key_of (dict_get r "id");
          index_values rest (dict_set products_dict k r)
      | _ => Raise AttributeError
      end
  end.

Definition merge_loaded (existing : value) (new_products : list product)
  : result (list product) :=
  items ← py_iter existing;
  products_dict ← index_values items [];
  products_dict ← update_all new_products products_dict;
  Ok (dict_values products_dict).

(** Lines 82-91 for one item of the list: an exception object cannot be
    subscripted. *)
Definition item_row (i : scraped_item) : option product :=
  match i with
  | Item p => product_row p
  | CancelledErrorObject => None
  end.

Section main.
Variable pw : Playwright.
Variable page_goto : Z → string → result ().
Variable mercadolibre_product_data : string → Z → result product.
Variable os_error : syscall → path → option exn.
Variable dump_error : path → value → option (exn * string).
Variable json_dumps : value → string.
Variable json_loads : string → result value.

(** [await engine.scrape_all(scraper)]: the event loop runs the coroutine to
    its end, which takes at most four steps for each task and five for
    [scrape_all] itself.  [None]: it never ends, the tasks wait for a
    semaphore that has no permit to give. *)
Definition await_scrape_all (engine : ScraperEngine) (scraper : ProductScraper)
  : option (result (list scraped_item)) :=
  let fuel := (5 + 4 * length (get_product_urls scraper))%nat in
  match st_phase (run pw scraper fuel (scrape_all engine)) with
  | Returned products => Some (Ok products)
  | Failed e => Some (Raise e)
  | _ => None
  end.

(** Lines 60-69: the scraper [scraper_type] selects. *)
Definition select_scraper (scraper_type : string) (max_products : Z)
  : ProductScraper :=
  if decide (lower scraper_type = "olx")
  then ExampleOLXScraper page_goto "electronics" max_products
  else ExampleMercadoLibreScraper page_goto mercadolibre_product_data
         "smartphone" max_products.

(** [run_scraper(max_products, max_concurrent, scraper_type)]: what it
    returns and the file system it leaves; every exception ends in the
    [except Exception] of line 112, which answers [False]. *)
Definition run_scraper (max_products max_concurrent : Z) (scraper_type : string)
  : fs → option (bool * fs) := λ s,
  match ScraperEngine_new max_concurrent with
  | Raise _ => Some (false, s)
  | Ok engine =>
      let scraper := select_scraper scraper_type max_products in
      match await_scrape_all engine scraper with
      | None => None
      | Some (Raise _) => Some (false, s)
      | Some (Ok []) => Some (false, s)
      | Some (Ok products) =>
          match mapM item_row products with
          | None => Some (false, s)
          | Some products_data =>
              match load_products os_error json_loads products_json s with
              | (Raise _, s1) => Some (false, s1)
              | (Ok existing_products, s1) =>
                  match merge_loaded existing_products products_data with
                  | Raise _ => Some (false, s1)
                  | Ok merged_products =>
                      match save_products os_error dump_error json_dumps
                              merged_products products_json s1 with
                      | (Ok success, s2) => Some (success, s2)
                      | (Raise _, s2) => Some (false, s2)
                      end
                  end
              end
          end
      end
  end.

End main.

End Main.
Export Main.

(** ** Vocabulary of the statements about [run_scraper] *)
Module MainSpec.

(** The records of a list [scrape_all] returned. *)
Definition records (items : list scraped_item) : list product :=
  omap (λ i, match i with Item p => Some p | CancelledErrorObject => None end)
       items.

Section spec.
Variable pw : Playwright.
Variable page_goto : Z → string → result ().
Variable mercadolibre_product_data : string → Z → result product.
Variable os_error : syscall → path → option exn.
Variable json_loads : string → result value.

(** The records the scrape returns. *)
Definition scraped (scraper_type : string) (max_products : Z) : list product :=
  records
    (expected_products pw
       (select_scraper page_goto mercadolibre_product_data scraper_type
          max_products)).

(** The catalog a run hands to [save_products]: the rows of the scraped
    records merged into what [load_products] returns.  [None]: a row or the
    merge raises. *)
Definition merged_products (scraper_type : string) (max_products : Z) (s : fs)
  : option (list product) :=
  rows ← mapM product_row (scraped scraper_type max_products);
  match (load_products os_error json_loads products_json s).1 with
  | Ok existing =>
      match merge_loaded existing rows with
      | Ok merged => Some merged
      | Raise _ => None
      end
  | Raise _ => None
  end.

End spec.

End MainSpec.
Export MainSpec.

(** ** [utils/logger.py]: [get_logger]

    The loggers of the [logging] module are kept by name: asking twice for a
    name gives the same logger.  A logger is its level and its handlers; one
    that was never configured has no handler. *)
Module Logger.

Inductive handler :=
| StreamHandler (level : Z)                    (* on [sys.stdout] *)
| FileHandler (log_file : path) (level : Z).

Record logging := {
  levels : gmap string Z;
  handlers : gmap string (list handler);
}.

(** [logging.getLogger(name)]: the logger, which is its [.name] here.  The
    empty name and the name of the root logger both give the root
    logger. *)
Definition getLogger (name : string) : string :=
  if decide (name = "") then "root" else name.

(** [logger.handlers]. *)
Definition logger_handlers (lg : logging) (logger : string) : list handler :=
  default [] (handlers lg !! logger).

Definition setLevel (logger : string) (level : Z) (lg : logging) : logging :=
  {| levels := <[logger := level]> (levels lg); handlers := handlers lg |}.

Definition addHandler (logger : string) (h : handler) (lg : logging) : logging :=
  {| levels := levels lg;
     handlers := <[logger := logger_handlers lg logger ++ [h]]> (handlers lg) |}.

Section logger.
Variable os_error : syscall → path → option exn.

(** [logging.FileHandler(log_file)] opens the file for appending at once:
    the file is created when it is missing and left as it is otherwise. *)
Definition open_append (p : path) : io unit := λ s,
  match os_error OpenAppend p with
  | Some e => (Raise e, s)
  | None =>
      match fs_node s p with
      | Some Dir => (Raise IsADirectoryError, s)
      | Some (File _) => (Ok (), s)
      | None =>
          match fs_node s (parent p) with
          | Some Dir => (Ok (), <[p := File EmptyString]> s)
          | Some (File _) => (Raise NotADirectoryError, s)
          | None => (Raise FileNotFoundError, s)
          end
      end
  end.

(** [get_logger(name, level, log_file)]; it returns the logger.
    [log_file] is [None] for [None] and for the empty string, which
    [if log_file] both pass over. *)
Definition get_logger (name : string) (level : Z) (log_file : option path)
  : logging * fs → result string * (logging * fs) := λ '(lg, s),
  let logger := getLogger name in
  match logger_handlers lg logger with
  | _ :: _ => (Ok logger, (lg, s))
  | [] =>
      let lg := setLevel logger level lg in
      let lg := addHandler logger (StreamHandler level) lg in
      match log_file with
      | Some p =>
          match open_append p s with
          | (Ok _, s') =>
              (Ok logger, (addHandler logger (FileHandler p level) lg, s'))
          | (Raise e, s') => (Raise e, (lg, s'))
          end
      | None => (Ok logger, (lg, s))
      end
  end.

End logger.

End Logger.
Export Logger.

(* ================================================================== *)
(** * Part II. The theorems *)
(* ================================================================== *)

Example merge_docstring_example :
  merge_products
    [[("id", VInt 1); ("name", VStr "Old")]]
    [[("id", VInt 1); ("name", VStr "Updated")];
     [("id", VInt 2); ("name", VStr "New")]]
  = Ok [[("id", VInt 1); ("name", VStr "Updated")];
        [("id", VInt 2); ("name", VStr "New")]].
Proof. vm_compute. reflexivity. Qed.

(** ** Facts about insertion-ordered dictionaries *)
Section dict_facts.
Context {V : Type}.
Implicit Types (d : pydict V) (k : key) (v : V).

Lemma dict_lookup_set d k v k' :
  dict_lookup (dict_set d k v) k' = if decide (k = k') then Some v else dict_lookup d k'.
Proof.
  induction d as [|[k0 v0] d IH]; simpl.
  - repeat case_decide; congruence.
  - destruct (decide (k0 = k)) as [->|Hne]; simpl.
    + repeat case_decide; congruence.
    + rewrite IH. repeat case_decide; congruence.
Qed.

Lemma dict_set_keys d k v :
  dict_keys (dict_set d k v) =
  if decide (k ∈ dict_keys d) then dict_keys d else dict_keys d ++ [k].
Proof.
  unfold dict_keys. induction d as [|[k0 v0] d IH]; csimpl.
  - done.
  - destruct (decide (k0 = k)) as [->|Hne]; csimpl.
    + rewrite decide_True by left. done.
    + rewrite IH. destruct (decide (k ∈ d.*1)) as [Hin|Hin].
      * rewrite decide_True by (by right). done.
      * rewrite decide_False; [done|].
        intros [?|?]%elem_of_cons; congruence.
Qed.

Lemma dict_set_head d k v k0 v0 :
  k0 ≠ k → dict_set ((k0, v0) :: d) k v = (k0, v0) :: dict_set d k v.
Proof. intros ?. simpl. by rewrite decide_False. Qed.

Lemma dict_set_NoDup d k v :
  NoDup (dict_keys d) → NoDup (dict_keys (dict_set d k v)).
Proof.
  intros Hnd. rewrite dict_set_keys. case_decide; [done|].
  apply NoDup_app. split_and!; [done| |apply NoDup_singleton].
  intros x Hx ->%list_elem_of_singleton. done.
Qed.

Lemma dict_set_prefix d k v : dict_keys d `prefix_of` dict_keys (dict_set d k v).
Proof.
  rewrite dict_set_keys. case_decide; [done|]. by apply prefix_app_r.
Qed.

Lemma dict_lookup_None d k : dict_lookup d k = None ↔ k ∉ dict_keys d.
Proof.
  unfold dict_keys. induction d as [|[k0 v0] d IH]; csimpl.
  - split; [intros _ []%elem_of_nil | done].
  - case_decide as Hk; subst.
    + split; [done|]. intros H. exfalso. apply H. left.
    + rewrite IH, not_elem_of_cons.
      split; [intros ?; split; [congruence|done] | by intros [_ ?]].
Qed.

Lemma dict_lookup_elem d k v :
  NoDup (dict_keys d) → (k, v) ∈ d ↔ dict_lookup d k = Some v.
Proof.
  unfold dict_keys. induction d as [|[k0 v0] d IH]; csimpl; intros Hnd.
  - split; [intros []%elem_of_nil | done].
  - apply NoDup_cons in Hnd as [Hk0 Hnd]. rewrite elem_of_cons.
    case_decide as Hk; subst.
    + split.
      * intros [[= ->]|Hin]; [done|]. exfalso. apply Hk0.
        apply list_elem_of_fmap. by exists (k, v).
      * intros [= ->]. by left.
    + rewrite <- (IH Hnd). split; [|by right].
      intros [[= -> ->]|?]; [done|done].
Qed.

Lemma dict_values_elem d v :
  v ∈ dict_values d ↔ ∃ k, (k, v) ∈ d.
Proof.
  unfold dict_values. rewrite list_elem_of_fmap. split.
  - intros [[k v'] [-> ?]]. by exists k.
  - intros [k ?]. by exists (k, v).
Qed.

(** An item of a dict after a store is the stored one or was there before. *)
Lemma dict_lookup_elem_weak d k v k' v' :
  (k', v') ∈ dict_set d k v → (k' = k ∧ v' = v) ∨ (k', v') ∈ d.
Proof.
  induction d as [|[k0 v0] d IH]; simpl.
  - intros [= -> ->]%list_elem_of_singleton. by left.
  - case_decide; subst.
    + intros [[= -> ->]|?]%elem_of_cons; [by left|]. right. by right.
    + intros [[= -> ->]|?]%elem_of_cons; [right; by left|].
      destruct IH as [?|?]; [done|by left|]. right. by right.
Qed.

End dict_facts.

(** ** Facts about the two passes of [merge_products] *)
Section merge_facts.
Implicit Types (l : list product) (d : pydict product) (p : product) (k : key).

Lemma index_by_id_upsert l d : index_by_id l d = upsert_all false l d.
Proof.
  revert d. induction l as [|p l IH]; intros d; simpl; [done|].
  fold (get_id p). destruct (key_of (get_id p)); simpl; [apply IH | done].
Qed.

Lemma update_all_upsert l d : update_all l d = upsert_all true l d.
Proof.
  revert d. induction l as [|p l IH]; intros d; simpl; [done|].
  fold (get_id p). destruct (is_none (get_id p)); [apply IH|].
  destruct (key_of (get_id p)); simpl; [apply IH | done].
Qed.

(** One induction for every invariant of a pass: [P] holds of the start
    dict and is kept by each store. *)
Lemma upsert_all_ind (P : pydict product → Prop) skip l d d' :
  (∀ d0 p k, P d0 → p ∈ l → key_of (get_id p) = Ok k →
     (skip = true → get_id p ≠ VNone) → P (dict_set d0 k p)) →
  upsert_all skip l d = Ok d' → P d → P d'.
Proof.
  revert d. induction l as [|p l IH]; intros d Hstep Hrun Hd; simpl in Hrun.
  - by injection Hrun as <-.
  - assert (∀ d0 p0 k, P d0 → p0 ∈ l → key_of (get_id p0) = Ok k →
      (skip = true → get_id p0 ≠ VNone) → P (dict_set d0 k p0)) as Hstep'.
    { intros d0 p0 k ? ? ? ?. apply Hstep; [done|by right|done|done]. }
    destruct (skip && is_none (get_id p)) eqn:Hskip.
    + by eapply IH.
    + destruct (key_of (get_id p)) as [k|e] eqn:Hk; simpl in Hrun; [|done].
      eapply IH; [done|done|]. apply Hstep; [done|by left|done|].
      intros -> Hn. rewrite Hn in Hskip. done.
Qed.

Lemma upsert_all_NoDup skip l d d' :
  upsert_all skip l d = Ok d' → NoDup (dict_keys d) → NoDup (dict_keys d').
Proof.
  apply (upsert_all_ind (λ d, NoDup (dict_keys d))).
  intros d0 p k Hd0 _ _ _. by apply dict_set_NoDup.
Qed.

Lemma dict_set_coherent d k p :
  coherent d → key_of (get_id p) = Ok k → coherent (dict_set d k p).
Proof.
  unfold coherent. intros Hd Hk. induction Hd as [|[k0 p0] d Hx Hd IH]; simpl.
  - by repeat constructor.
  - case_decide; subst; constructor; auto.
Qed.

Lemma upsert_all_coherent skip l d d' :
  upsert_all skip l d = Ok d' → coherent d → coherent d'.
Proof.
  apply (upsert_all_ind coherent).
  intros d0 p k Hd0 _ Hk _. by apply dict_set_coherent.
Qed.

Lemma upsert_all_prefix skip l d d' :
  upsert_all skip l d = Ok d' → dict_keys d `prefix_of` dict_keys d'.
Proof.
  intros Hrun.
  eapply (upsert_all_ind (λ d0, dict_keys d `prefix_of` dict_keys d0));
    [|exact Hrun|done].
  intros d0 p k Hd0 _ _ _. etrans; [done|]. apply dict_set_prefix.
Qed.

Lemma upsert_all_lookup skip l d d' k :
  upsert_all skip l d = Ok d' →
  dict_lookup d' k =
  match stored_last skip k l with Some p => Some p | None => dict_lookup d k end.
Proof.
  revert d. induction l as [|p l IH]; intros d Hrun; simpl in Hrun |- *.
  - by injection Hrun as <-.
  - destruct (skip && is_none (get_id p)) eqn:Hskip.
    + rewrite (IH _ Hrun). by destruct (stored_last skip k l).
    + destruct (key_of (get_id p)) as [kp|e] eqn:Hk; simpl in Hrun; [|done].
      rewrite (IH _ Hrun), dict_lookup_set.
      destruct (stored_last skip k l); [done|].
      repeat case_decide; congruence.
Qed.

(** The loop never touches the item stored under [None]. *)
Lemma stored_last_skip_None l : stored_last true KNone l = None.
Proof.
  induction l as [|p l IH]; simpl; [done|]. rewrite IH.
  destruct (get_id p) as [| | |[]| | |] eqn:Hp; simpl; try done;
    case_decide; congruence.
Qed.

Lemma key_of_None v : key_of v = Ok KNone ↔ v = VNone.
Proof. split; [|by intros ->]. by destruct v as [| | |[]| | |]. Qed.

Lemma upsert_all_cons_head l d d' k p :
  (∀ q, q ∈ l → key_of (get_id q) ≠ Ok k) →
  upsert_all true l d = Ok d' →
  upsert_all true l ((k, p) :: d) = Ok ((k, p) :: d').
Proof.
  revert d. induction l as [|q l IH]; intros d Hne Hrun; simpl in Hrun |- *.
  - by injection Hrun as <-.
  - assert (∀ q0, q0 ∈ l → key_of (get_id q0) ≠ Ok k) as Hne'.
    { intros q0 ?. apply Hne. by right. }
    destruct (is_none (get_id q)); [by apply IH|].
    destruct (key_of (get_id q)) as [kq|e] eqn:Hk; simpl in Hrun |- *; [|done].
    rewrite decide_False; [by apply IH|].
    intros ->. by apply (Hne q); [left|].
Qed.

(** Feeding a dict's own values back through the loop rebuilds it, from any
    start that holds a prefix of its keys and its [None] item. *)
Lemma upsert_all_rebuild d1 d0 :
  NoDup (dict_keys d1) → coherent d1 →
  dict_keys d0 `prefix_of` dict_keys d1 →
  (∀ p, (KNone, p) ∈ d1 → (KNone, p) ∈ d0) →
  upsert_all true (dict_values d1) d0 = Ok d1.
Proof.
  unfold dict_keys, dict_values, coherent.
  revert d0. induction d1 as [|[k p] d1 IH]; intros d0 Hnd Hco Hpre Hnone; csimpl.
  - apply prefix_nil_inv in Hpre. apply fmap_nil_inv in Hpre. by subst.
  - rewrite fmap_cons in Hnd. simpl in Hnd.
    apply NoDup_cons in Hnd as [Hk Hnd]. apply Forall_cons in Hco as [Hkp Hco].
    simpl in Hkp.
    assert (∀ q, q ∈ d1.*2 → key_of (get_id q) ≠ Ok k) as Hne.
    { intros q [[kq q'] [-> Hq]]%list_elem_of_fmap Heq. simpl in *.
      rewrite Forall_forall in Hco. specialize (Hco _ Hq). simpl in Hco.
      assert (kq = k) as -> by congruence.
      apply Hk, list_elem_of_fmap. by exists (k, q'). }
    destruct d0 as [|[k0 p0] d0]; csimpl.
    + assert (k ≠ KNone) as Hk0.
      { intros ->. specialize (Hnone p (list_elem_of_here _ _)).
        by apply elem_of_nil in Hnone. }
      assert (is_none (get_id p) = false) as ->.
      { destruct (get_id p); try done. simpl in Hkp. congruence. }
      rewrite Hkp. simpl. apply upsert_all_cons_head; [done|].
      apply IH; [done|done|apply prefix_nil|].
      intros q Hq. specialize (Hnone q (list_elem_of_further _ _ _ Hq)).
      by apply elem_of_nil in Hnone.
    + rewrite !fmap_cons in Hpre.
      apply prefix_cons_inv_1 in Hpre as Hkk. apply prefix_cons_inv_2 in Hpre.
      simpl in Hkk. subst k0.
      assert (upsert_all true d1.*2 d0 = Ok d1) as Hrec.
      { apply IH; [done|done|done|]. intros q Hq.
        specialize (Hnone q (list_elem_of_further _ _ _ Hq)).
        apply elem_of_cons in Hnone as [[= <- <-]|?]; [|done].
        exfalso. apply Hk, list_elem_of_fmap. by exists (KNone, q). }
      destruct (is_none (get_id p)) eqn:Hn.
      * assert (k = KNone) as ->.
        { destruct (get_id p); try done. simpl in Hkp. congruence. }
        specialize (Hnone p (list_elem_of_here _ _)).
        apply elem_of_cons in Hnone as [[= <-]|Hin].
        -- by apply upsert_all_cons_head.
        -- exfalso. apply Hk. destruct Hpre as [rest Hrest].
           rewrite Hrest, elem_of_app. left.
           apply list_elem_of_fmap. by exists (KNone, p).
      * rewrite Hkp. simpl. rewrite decide_True by done.
        by apply upsert_all_cons_head.
Qed.

Lemma upsert_all_None_item l d d' p :
  upsert_all true l d = Ok d' → NoDup (dict_keys d) →
  (KNone, p) ∈ d' → (KNone, p) ∈ d.
Proof.
  intros Hrun Hnd Hin.
  apply dict_lookup_elem in Hin; [|by eapply upsert_all_NoDup].
  rewrite (upsert_all_lookup _ _ _ _ _ Hrun), stored_last_skip_None in Hin.
  by apply dict_lookup_elem.
Qed.

(** *** Catalogs whose records carry integer ids *)

Lemma int_key_inj z z' : int_key z = int_key z' → z = z'.
Proof.
  unfold int_key. intros H.
  assert (Q2Qc (inject_Z z) = Q2Qc (inject_Z z')) as Hq by congruence.
  apply Q2Qc_eq_iff in Hq. unfold Qeq in Hq. simpl in Hq. lia.
Qed.

Lemma key_of_int p z : get_id p = VInt z → key_of (get_id p) = Ok (int_key z).
Proof. by intros ->. Qed.

Lemma upsert_all_int_ok skip l d :
  Forall has_int_id l → ∃ d', upsert_all skip l d = Ok d'.
Proof.
  intros Hl. revert d. induction Hl as [|p l [z Hz] _ IH]; intros d; simpl.
  - by eexists.
  - rewrite Hz, andb_false_r. simpl. apply IH.
Qed.

Lemma version_of_cons z p l :
  version_of z (p :: l) =
  match version_of z l with
  | Some q => Some q
  | None => if decide (get_id p = VInt z) then Some p else None
  end.
Proof.
  unfold version_of. rewrite filter_cons. case_decide.
  - apply last_cons.
  - by destruct (last _).
Qed.

Lemma stored_last_int skip z l :
  Forall has_int_id l → stored_last skip (int_key z) l = version_of z l.
Proof.
  induction 1 as [|p l [z' Hz] _ IH]; [done|].
  rewrite version_of_cons. simpl. rewrite IH.
  destruct (version_of z l); [done|].
  rewrite Hz, andb_false_r. simpl. fold (int_key z').
  repeat case_decide; try done.
  - exfalso. assert (z' = z) as -> by (apply int_key_inj; congruence). done.
  - congruence.
Qed.

Lemma version_of_Some z l x :
  version_of z l = Some x → x ∈ l ∧ get_id x = VInt z.
Proof.
  intros H%last_Some_elem_of. by apply list_elem_of_filter in H as [? ?].
Qed.

Lemma version_of_None z l :
  version_of z l = None ↔ VInt z ∉ get_id <$> l.
Proof.
  induction l as [|p l IH]; [split; [intros _ []%elem_of_nil | done]|].
  rewrite version_of_cons, fmap_cons, not_elem_of_cons, <- IH.
  destruct (version_of z l); [naive_solver|].
  case_decide; naive_solver.
Qed.

Lemma version_of_NoDup z l r :
  NoDup (get_id <$> l) → r ∈ l → get_id r = VInt z → version_of z l = Some r.
Proof.
  induction l as [|p l IH]; intros Hnd Hr Hz; [by apply elem_of_nil in Hr|].
  rewrite fmap_cons in Hnd. apply NoDup_cons in Hnd as [Hp Hnd].
  rewrite version_of_cons. apply elem_of_cons in Hr as [->|Hr].
  - rewrite Hz in Hp. apply version_of_None in Hp as ->.
    by rewrite decide_True.
  - by rewrite (IH Hnd Hr Hz).
Qed.

(** What [merge_products] computes on integer ids: a dict holding, for each
    id, the incoming list's version when it has one and the catalog's
    otherwise. *)
Lemma merge_products_int_items C X :
  Forall has_int_id C → Forall has_int_id X →
  ∃ d, merge_products C X = Ok (dict_values d) ∧
    NoDup (dict_keys d) ∧ coherent d ∧
    (∀ z, dict_lookup d (int_key z) =
          match version_of z X with Some x => Some x | None => version_of z C end) ∧
    (∀ k r, (k, r) ∈ d → (r ∈ C ∨ r ∈ X) ∧ ∃ z, k = int_key z ∧ get_id r = VInt z).
Proof.
  intros HC HX. unfold merge_products.
  rewrite index_by_id_upsert.
  destruct (upsert_all_int_ok false C [] HC) as [d0 H0]. rewrite H0. simpl.
  rewrite update_all_upsert.
  destruct (upsert_all_int_ok true X d0 HX) as [d1 H1]. rewrite H1. simpl.
  assert (NoDup (dict_keys d0)) as Hnd0.
  { eapply upsert_all_NoDup; [done|]. constructor. }
  assert (NoDup (dict_keys d1)) as Hnd1 by by eapply upsert_all_NoDup.
  assert (coherent d1) as Hco.
  { eapply upsert_all_coherent; [done|].
    eapply upsert_all_coherent; [done|]. constructor. }
  assert (∀ k, dict_lookup d1 k =
    match stored_last true k X with
    | Some x => Some x
    | None => stored_last false k C
    end) as Hlook.
  { intros k. rewrite (upsert_all_lookup _ _ _ _ _ H1).
    rewrite (upsert_all_lookup _ _ _ _ _ H0). simpl.
    by destruct (stored_last false k C). }
  exists d1. split_and!; [done|done|done| |].
  - intros z. by rewrite Hlook, !stored_last_int.
  - intros k r Hin.
    assert (r ∈ C ∨ r ∈ X) as Hsrc.
    { eapply (upsert_all_ind (λ d, ∀ k r, (k, r) ∈ d → r ∈ C ∨ r ∈ X));
        [|exact H1| |exact Hin].
      - intros d p k0 Hd Hp _ _ k' r' Hin'.
        apply dict_lookup_elem_weak in Hin' as [[-> ->]|?]; [by right|by eapply Hd].
      - intros k' r' Hin'.
        eapply (upsert_all_ind (λ d, ∀ k r, (k, r) ∈ d → r ∈ C ∨ r ∈ X));
          [|exact H0| |exact Hin'].
        + intros d p k0 Hd Hp _ _ k'' r'' Hin''.
          apply dict_lookup_elem_weak in Hin'' as [[-> ->]|?]; [by left|by eapply Hd].
        + by intros ? ? ?%elem_of_nil. }
    split; [done|].
    assert (has_int_id r) as [z Hz].
    { rewrite Forall_forall in HC, HX. destruct Hsrc; auto. }
    exists z. split; [|done].
    unfold coherent in Hco.
    rewrite Forall_forall in Hco. specialize (Hco _ Hin). simpl in Hco.
    rewrite Hz in Hco. simpl in Hco. by injection Hco as <-.
Qed.

End merge_facts.

(** ** The merge (claims C1 and C5) *)
Module MergeFacts.

(** C5.  Merge is idempotent in its incoming batch: merging the catalog
    [C] with the result of [merge_products C X] gives that result again,
    record for record and in the same order; when [merge_products C X]
    raises (an unhashable id), so does the left-hand side. *)
Theorem merge_products_idempotent (C X : list product) :
  merge_products C X ≫= merge_products C = merge_products C X.
Proof.
  unfold merge_products. rewrite index_by_id_upsert.
  destruct (upsert_all false C []) as [d0|e] eqn:H0; simpl; [|done].
  rewrite update_all_upsert.
  destruct (upsert_all true X d0) as [d1|e] eqn:H1; simpl; [|done].
  rewrite update_all_upsert.
  assert (NoDup (dict_keys d0)) as Hnd0.
  { eapply upsert_all_NoDup; [done|]. constructor. }
  rewrite upsert_all_rebuild; [done| | | |].
  - by eapply upsert_all_NoDup.
  - eapply upsert_all_coherent; [done|].
    eapply upsert_all_coherent; [done|]. constructor.
  - by eapply upsert_all_prefix.
  - intros p. by eapply upsert_all_None_item.
Qed.

(** C1.  The merge key property.  For a catalog [C] and an incoming list
    [X] whose records all carry an integer id, [merge_products C X] returns a
    list [M] that holds exactly one record per id of [C] or [X]; for every id
    of [X] (so for every id present in both) the one record of [M] with that
    id is [X]'s version, the whole record; a catalog record whose id is not
    in [X] is in [M] as it was (for a catalog with unique ids: every such
    record; in general the last record of [C] with that id). *)
Theorem merge_products_key_property (C X : list product) :
  Forall has_int_id C → Forall has_int_id X →
  ∃ M, merge_products C X = Ok M ∧
    NoDup (get_id <$> M) ∧
    (∀ i, i ∈ get_id <$> M ↔ i ∈ get_id <$> C ∨ i ∈ get_id <$> X) ∧
    (∀ z, VInt z ∈ get_id <$> X →
       ∃ x, version_of z X = Some x ∧ x ∈ M ∧
            ∀ r, r ∈ M → get_id r = VInt z → r = x) ∧
    (∀ z r, VInt z ∉ get_id <$> X → version_of z C = Some r → r ∈ M) ∧
    (NoDup (get_id <$> C) →
       ∀ r, r ∈ C → get_id r ∉ get_id <$> X → r ∈ M).
Proof.
  intros HC HX.
  destruct (merge_products_int_items C X HC HX)
    as (d & Hrun & Hnd & Hco & Hlook & Hitems).
  exists (dict_values d). split; [done|].
  assert (∀ z r, dict_lookup d (int_key z) = Some r → r ∈ dict_values d) as Hval.
  { intros z r Hr. apply dict_values_elem. exists (int_key z).
    by apply dict_lookup_elem. }
  assert (∀ z r, r ∈ dict_values d → get_id r = VInt z →
                 dict_lookup d (int_key z) = Some r) as Hkey.
  { intros z r [k Hin]%dict_values_elem Hz.
    destruct (Hitems _ _ Hin) as (_ & z' & -> & Hz').
    assert (z' = z) as -> by congruence. by apply dict_lookup_elem. }
  assert (∀ z r, VInt z ∉ get_id <$> X → version_of z C = Some r →
                 r ∈ dict_values d) as Hkeep.
  { intros z r HzX HzC. apply (Hval z). rewrite Hlook.
    apply version_of_None in HzX as ->. done. }
  split_and!.
  - unfold dict_values. rewrite <- list_fmap_compose.
    apply NoDup_fmap_2_strong; [|by eapply NoDup_fmap_1].
    intros [k1 r1] [k2 r2] H1 H2 Heq. simpl in Heq.
    destruct (Hitems _ _ H1) as (_ & z1 & -> & Hz1).
    destruct (Hitems _ _ H2) as (_ & z2 & -> & Hz2).
    assert (z1 = z2) as -> by congruence.
    apply dict_lookup_elem in H1, H2; [|done..]. congruence.
  - intros i. split.
    + intros [r [-> [k Hin]%dict_values_elem]]%list_elem_of_fmap.
      destruct (Hitems _ _ Hin) as ([?|?] & _); [left|right];
        by apply list_elem_of_fmap_2.
    + intros Hi.
      assert (∃ z, i = VInt z ∧ (VInt z ∈ get_id <$> C ∨ VInt z ∈ get_id <$> X))
        as (z & -> & Hz).
      { rewrite Forall_forall in HC, HX.
        destruct Hi as [Hi|Hi]; pose proof Hi as Hi';
          apply list_elem_of_fmap in Hi as [p [-> Hp]].
        - destruct (HC _ Hp) as [z Hz]. exists z. rewrite Hz in Hi' |- *. auto.
        - destruct (HX _ Hp) as [z Hz]. exists z. rewrite Hz in Hi' |- *. auto. }
      assert (∃ r, dict_lookup d (int_key z) = Some r) as [r Hr].
      { rewrite Hlook. destruct (version_of z X) eqn:HvX; [by eexists|].
        destruct (version_of z C) eqn:HvC; [by eexists|].
        apply version_of_None in HvX, HvC. by destruct Hz. }
      apply list_elem_of_fmap. exists r. split; [|by eapply Hval].
      apply dict_lookup_elem in Hr; [|done].
      destruct (Hitems _ _ Hr) as (_ & z' & Hk & Hz').
      apply int_key_inj in Hk as ->. done.
  - intros z Hz.
    destruct (version_of z X) as [x|] eqn:HvX;
      [|by apply version_of_None in HvX].
    exists x. split_and!; [done| |].
    + apply (Hval z). by rewrite Hlook, HvX.
    + intros r Hr Hrz. specialize (Hkey _ _ Hr Hrz).
      rewrite Hlook, HvX in Hkey. congruence.
  - exact Hkeep.
  - intros HndC r Hr HrX. rewrite Forall_forall in HC.
    destruct (HC _ Hr) as [z Hz]. rewrite Hz in HrX.
    apply (Hkeep z); [done|]. by apply version_of_NoDup.
Qed.

Lemma merge_products_key_property_witness :
  ∃ M, merge_products Examples.scenario_catalog Examples.scenario_incoming = Ok M ∧
    NoDup (get_id <$> M) ∧
    (∀ i, i ∈ get_id <$> M ↔
          i ∈ get_id <$> Examples.scenario_catalog ∨ i ∈ get_id <$> Examples.scenario_incoming) ∧
    (∀ z, VInt z ∈ get_id <$> Examples.scenario_incoming →
       ∃ x, version_of z Examples.scenario_incoming = Some x ∧ x ∈ M ∧
            ∀ r, r ∈ M → get_id r = VInt z → r = x) ∧
    (∀ z r, VInt z ∉ get_id <$> Examples.scenario_incoming →
            version_of z Examples.scenario_catalog = Some r → r ∈ M) ∧
    (NoDup (get_id <$> Examples.scenario_catalog) →
       ∀ r, r ∈ Examples.scenario_catalog → get_id r ∉ get_id <$> Examples.scenario_incoming → r ∈ M).
Proof.
  apply (merge_products_key_property Examples.scenario_catalog Examples.scenario_incoming).
  - repeat constructor; by eexists.
  - repeat constructor; by eexists.
Defined.

Example merge_scenario :
  merge_products Examples.scenario_catalog Examples.scenario_incoming = Ok Examples.scenario_incoming.
Proof. vm_compute. reflexivity. Qed.

End MergeFacts.

(** ** Loading and saving the catalog (claims C4 and C9) *)
Module StoreFacts.
Section store_facts.
Variable os_error : syscall → path → option exn.
Variable dump_error : path → value → option (exn * string).
Variable json_dumps : value → string.
Variable json_loads : string → result value.

#[local] Abbreviation path_exists := (path_exists os_error).
#[local] Abbreviation load_products := (load_products os_error).
#[local] Abbreviation save_products := (save_products os_error dump_error).

Lemma open_w_inv p s s' :
  open_w os_error p s = (Ok (), s') →
  os_error OpenWrite p = None ∧ p ≠ [] ∧ s' = <[p := File EmptyString]> s.
Proof.
  unfold open_w. destruct (os_error OpenWrite p); [done|].
  destruct p as [|c p]; [done|].
  destruct (fs_node s (c :: p)) as [[|?]|];
    destruct (fs_node s (parent (c :: p))) as [[|?]|];
    intros ?; by simplify_eq.
Qed.

Lemma json_dump_inv v p s s' :
  json_dump dump_error json_dumps v p s = (Ok (), s') →
  dump_error p v = None ∧ s' = <[p := File (json_dumps v)]> s.
Proof.
  unfold json_dump. destruct (dump_error p v) as [[e written]|]; [done|].
  by intros [= <-].
Qed.

(** What a save that reports success has done. *)
Lemma save_products_inv products file_path s s' :
  save_products json_dumps products file_path s = (Ok true, s') →
  os_error OpenWrite file_path = None ∧
  dump_error file_path (catalog_value products) = None ∧
  file_path ≠ [] ∧
  s' !! file_path = Some (File (json_dumps (catalog_value products))).
Proof.
  unfold Helpers.save_products, io_try, io_bind, io_ret. intros Hsave.
  destruct (mkdir_parents os_error (parent file_path) s) as [[[]|e] s1]; [|done].
  destruct (open_w os_error file_path s1) as [[[]|e] s2] eqn:Hopen; [|done].
  destruct (json_dump _ _ _ file_path s2) as [[[]|e] s3] eqn:Hdump; [|done].
  injection Hsave as <-.
  apply open_w_inv in Hopen as (? & ? & ->).
  apply json_dump_inv in Hdump as (? & ->).
  split_and!; [done..|]. apply lookup_insert_eq.
Qed.

(** C4, as amended.  On a path whose existence test returns,
    [load_products] does not raise, whatever the file system holds, and
    leaves the file system as it was: it returns the empty catalog when the
    path is absent, the empty catalog when the file's text is not JSON
    ([json.load] raises), and the persisted list when the file exists, can
    be read and parses to one. *)
Theorem load_products_never_raises (file_path : path) (s : fs) :
  (∃ found, path_exists s file_path = Ok found) →
  ∃ data, load_products json_loads file_path s = (Ok data, s) ∧
    (fs_node s file_path = None → data = VList []) ∧
    (∀ text e, fs_node s file_path = Some (File text) →
               json_loads text = Raise e → data = VList []) ∧
    (∀ text persisted,
       os_error Stat file_path = None → os_error OpenRead file_path = None →
       fs_node s file_path = Some (File text) →
       json_loads text = Ok (VList persisted) → data = VList persisted).
Proof.
  intros [found Hfound].
  unfold Helpers.load_products, io_try, io_bind, read_text, io_ret.
  rewrite Hfound. revert Hfound.
  unfold Helpers.path_exists, os_stat.
  destruct found.
  2:{ intros Hfound. eexists. split; [done|]. split_and!; [done..|].
      intros text persisted Hstat _ Hnode _. rewrite Hstat, Hnode in Hfound.
      done. }
  destruct (os_error Stat file_path) as [e|] eqn:Hstat.
  { by destruct (ignored_error e). }
  destruct (fs_node s file_path) as [[|text]|] eqn:Hnode; simpl; [| |done];
    intros _.
  - exists (VList []). split; [by destruct (os_error OpenRead file_path) as [[]|]|].
    split_and!; intros; congruence.
  - destruct (os_error OpenRead file_path) as [e|] eqn:Hread.
    { exists (VList []). split; [by destruct e|].
      split_and!; [done|done|]. intros; congruence. }
    destruct (json_loads text) as [data|e] eqn:Hload.
    + destruct (py_len data) as [n|e] eqn:Hlen.
      * exists data. split; [done|]. split_and!; [done| |].
        -- intros ? ? [= <-] ?. congruence.
        -- intros ? ? _ _ [= <-] ?. congruence.
      * exists (VList []). split; [by destruct e|]. split_and!; [done|done|].
        intros ? persisted _ _ [= <-] ?.
        assert (data = VList persisted) as -> by congruence. done.
    + exists (VList []). split; [by destruct e|]. split_and!; [done|done|].
      intros ? ? _ _ [= <-] ?. congruence.
Qed.

(** A directory where the file should be reads as the empty catalog too. *)
Lemma load_products_directory file_path s :
  os_error Stat file_path = None →
  fs_node s file_path = Some Dir →
  load_products json_loads file_path s = (Ok (VList []), s).
Proof.
  intros Hstat H.
  unfold Helpers.load_products, Helpers.path_exists, os_stat, io_try, io_bind,
    read_text.
  rewrite Hstat, H. by destruct (os_error OpenRead file_path) as [[]|].
Qed.

(** When the existence test raises, so does [load_products]. *)
Lemma load_products_raises file_path s e :
  path_exists s file_path = Raise e →
  load_products json_loads file_path s = (Raise e, s).
Proof. unfold Helpers.load_products. by intros ->. Qed.

(** Reading a file that holds a list gives the list. *)
Lemma load_products_file file_path s text data :
  os_error Stat file_path = None → os_error OpenRead file_path = None →
  fs_node s file_path = Some (File text) →
  json_loads text = Ok (VList data) →
  load_products json_loads file_path s = (Ok (VList data), s).
Proof.
  intros Hstat Hread Hnode Hjson.
  unfold Helpers.load_products, Helpers.path_exists, os_stat, io_try, io_bind,
    read_text, io_ret.
  by rewrite Hstat, Hnode, Hread, Hjson.
Qed.

(** [save_products] never raises: it answers [True] or [False]. *)
Lemma save_products_total products file_path s :
  ∃ ok s', save_products json_dumps products file_path s = (Ok ok, s').
Proof.
  unfold Helpers.save_products, io_try, io_bind, io_ret.
  destruct (mkdir_parents _ (parent file_path) s) as [[[]|e] s1]; [|by eexists _, _].
  destruct (open_w _ file_path s1) as [[[]|e] s2]; [|by eexists _, _].
  destruct (json_dump _ _ _ file_path s2) as [[[]|e] s3]; by eexists _, _.
Qed.

(** C9, as amended.  The round trip, for a catalog that is
    JSON-representable (reading back the text [json.dump] writes for it
    gives it again): whenever [save_products] reports success on a path that
    the system lets be looked at and read, [load_products] on the same path
    returns the catalog that was saved, record for record and in the same
    order.  [save_products] itself never raises: where it cannot write it
    answers [False]. *)
Theorem save_load_round_trip (products : list product) (file_path : path) (s : fs) :
  json_loads (json_dumps (catalog_value products)) = Ok (catalog_value products) →
  (∀ s', save_products json_dumps products file_path s = (Ok true, s') →
         os_error Stat file_path = None → os_error OpenRead file_path = None →
         load_products json_loads file_path s' = (Ok (catalog_value products), s')) ∧
  (∃ ok s', save_products json_dumps products file_path s = (Ok ok, s')).
Proof.
  intros Hjson. split; [|apply save_products_total].
  intros s' Hsave Hstat Hread.
  apply save_products_inv in Hsave as (_ & _ & Hpath & Hnode).
  eapply load_products_file; [done..| |done].
  by destruct file_path.
Qed.

(** Saving under a plain file name in the working directory succeeds unless
    a directory has that name, when the system refuses nothing and the dump
    returns. *)
Lemma save_products_plain_name products name s :
  os_error Mkdir [] = None → os_error Stat [] = None →
  os_error OpenWrite [name] = None →
  dump_error [name] (catalog_value products) = None →
  s !! [name] ≠ Some Dir →
  save_products json_dumps products [name] s =
    (Ok true, <[[name] := File (json_dumps (catalog_value products))]> s).
Proof.
  intros Hmkdir Hstat Hopen Hdump Hname.
  unfold Helpers.save_products, io_try, io_bind, io_ret, open_w, json_dump.
  simpl. unfold io_try, os_mkdir, unless_is_dir, is_dir, os_stat. simpl.
  rewrite Hmkdir, Hstat, Hopen, Hdump. simpl.
  destruct (s !! [name]) as [[|?]|]; simpl; [congruence| |];
    by rewrite ?insert_insert_eq.
Qed.

End store_facts.

Lemma load_products_never_raises_witness :
  (∃ found, path_exists os_permits (Examples.fs_with Examples.stored_catalog)
              products_json = Ok found) ∧
  ∃ data,
    load_products os_permits MiniJson.json_loads products_json
      (Examples.fs_with Examples.stored_catalog)
    = (Ok data, Examples.fs_with Examples.stored_catalog) ∧
    data = catalog_value Examples.stored_catalog.
Proof.
  assert (∃ found, path_exists os_permits (Examples.fs_with Examples.stored_catalog)
                     products_json = Ok found) as Hfound
    by (exists true; vm_compute; reflexivity).
  split; [exact Hfound|].
  destruct (load_products_never_raises os_permits MiniJson.json_loads
              products_json (Examples.fs_with Examples.stored_catalog) Hfound)
    as (data & Hload & _ & _ & Hfile).
  exists data. split; [exact Hload|].
  apply (Hfile (MiniJson.json_dumps (catalog_value Examples.stored_catalog))
               (VDict <$> Examples.stored_catalog));
    vm_compute; reflexivity.
Defined.

(** On a name the system refuses to look at, here one of 300 bytes,
    [path.exists()] raises before the [try] is entered, and so does
    [load_products]. *)
Lemma load_products_never_raises_counterexample :
  load_products os_name_max MiniJson.json_loads [Examples.long_name] ∅
  = (Raise OSError, ∅).
Proof. vm_compute. reflexivity. Qed.

Lemma save_load_round_trip_witness :
  MiniJson.json_loads (MiniJson.json_dumps (catalog_value Examples.scenario_catalog))
    = Ok (catalog_value Examples.scenario_catalog) ∧
  save_products os_permits dump_returns MiniJson.json_dumps
    Examples.scenario_catalog products_json ∅
    = (Ok true, Examples.fs_with Examples.scenario_catalog) ∧
  load_products os_permits MiniJson.json_loads products_json
    (Examples.fs_with Examples.scenario_catalog)
    = (Ok (catalog_value Examples.scenario_catalog),
       Examples.fs_with Examples.scenario_catalog).
Proof.
  assert (MiniJson.json_loads
            (MiniJson.json_dumps (catalog_value Examples.scenario_catalog))
          = Ok (catalog_value Examples.scenario_catalog)) as Hjson
    by (vm_compute; reflexivity).
  assert (save_products os_permits dump_returns MiniJson.json_dumps
            Examples.scenario_catalog products_json ∅
          = (Ok true, Examples.fs_with Examples.scenario_catalog)) as Hsave
    by (vm_compute; reflexivity).
  split_and!; [exact Hjson|exact Hsave|].
  exact (proj1 (save_load_round_trip os_permits dump_returns MiniJson.json_dumps
                  MiniJson.json_loads Examples.scenario_catalog products_json ∅
                  Hjson) _ Hsave eq_refl eq_refl).
Defined.

(** Saving to the working directory itself fails, [save_products] says so,
    and what is loaded back is not what was to be saved. *)
Lemma save_load_round_trip_counterexample :
  save_products os_permits dump_returns MiniJson.json_dumps
    Examples.scenario_catalog [] ∅ = (Ok false, ∅) ∧
  load_products os_permits MiniJson.json_loads [] ∅ = (Ok (VList []), ∅) ∧
  VList [] ≠ catalog_value Examples.scenario_catalog.
Proof. split_and!; [vm_compute; reflexivity..|done]. Qed.

(** Missing parent directories are created. *)
Example save_creates_parents :
  (save_products os_permits dump_returns MiniJson.json_dumps
     Examples.scenario_catalog ["products.json"; "out"; "data"] ∅).1 = Ok true.
Proof. vm_compute. reflexivity. Qed.

(** Text that is not JSON, and JSON that has no length, load as the empty
    catalog. *)
Example load_unparseable :
  (load_products os_permits MiniJson.json_loads products_json
     {[ products_json := File "[{ not json" ]}).1 = Ok (VList []) ∧
  (load_products os_permits MiniJson.json_loads products_json
     {[ products_json := File "42" ]}).1 = Ok (VList []).
Proof. split; vm_compute; reflexivity. Qed.

(** A dump that raises on the way leaves the beginning of the document in
    the file, and [save_products] answers [False]. *)
Example save_products_partial :
  save_products os_permits (λ _ _, Some (ValueError, "[")) MiniJson.json_dumps
    Examples.scenario_catalog products_json
    (Examples.fs_with Examples.stored_catalog)
  = (Ok false, {[ products_json := File "[" ]}).
Proof. vm_compute. reflexivity. Qed.

End StoreFacts.

(** ** The [GET /products] handler (claims C8 and C10) *)
Module RoutesFacts.
Section routes_facts.
Variable os_error : syscall → path → option exn.
Variable json_loads : string → result value.
Variable Product : Type.
Variable Product_new : value → result Product.

#[local] Abbreviation load_products := (load_products os_error).
#[local] Abbreviation get_products := (get_products os_error).

Lemma comprehension_raises {A B} (f : A → result B) (l : list A) :
  (∃ e, comprehension f l = Raise e) ↔ Exists (λ x, ∃ e, f x = Raise e) l.
Proof.
  induction l as [|x l IH]; simpl.
  - split; [by intros [? ?]|by intros ?%Exists_nil].
  - rewrite Exists_cons, <- IH. destruct (f x) as [y|e]; simpl.
    + destruct (comprehension f l) as [ys|e]; simpl.
      * split; [by intros [? ?]|]. intros [[? ?]|[? ?]]; done.
      * split; [intros _; right; by eexists|by eexists].
    + split; [intros _; left; by eexists|by eexists].
Qed.

Lemma py_int_error t e : py_int t = Raise e → e = ValueError.
Proof. unfold py_int. repeat case_match; congruence. Qed.

Lemma parse_ids_error ids e : parse_ids ids = Raise e → e = ValueError.
Proof.
  unfold parse_ids. generalize (split_on "," ids). intros l.
  induction l as [|t l IH]; simpl; [done|].
  destruct (py_int (strip t)) as [z|e'] eqn:Ht; simpl.
  - destruct (comprehension _ l); simpl; [done|]. intros [= <-]. by apply IH.
  - intros [= <-]. by eapply py_int_error.
Qed.

Lemma filter_catalog id_list (C : list product) :
  comprehension_if (λ p, v ← py_get p "id"; Ok (existsb (eq_int v) id_list))
    (VDict <$> C)
  = Ok (VDict <$> filter (id_listed id_list) C).
Proof.
  induction C as [|p C IH]; [done|].
  rewrite fmap_cons. simpl. rewrite IH. simpl.
  rewrite filter_cons. unfold id_listed at 2.
  destruct (existsb _ id_list) eqn:Hp.
  - by rewrite decide_True.
  - by rewrite decide_False by congruence.
Qed.

Lemma list_slice_fmap {A B} (f : A → B) (l : list A) lo hi :
  list_slice (f <$> l) lo hi = f <$> list_slice l lo hi.
Proof.
  unfold list_slice. by rewrite length_fmap, fmap_take, fmap_drop.
Qed.

(** Within the bounds FastAPI enforces on the query, Python's slice is the
    page. *)
Lemma list_slice_page {A} (F : list A) limit offset :
  0 ≤ offset → (∀ n, limit = Some n → 1 ≤ n) →
  shown limit offset F = page limit offset F.
Proof.
  intros Hoff Hlim. unfold shown, page. destruct (Z.leb_spec (Z.of_nat (length F)) offset).
  - rewrite drop_ge by lia. by destruct limit; rewrite ?take_nil.
  - unfold list_slice, slice_index. destruct limit as [n|].
    + specialize (Hlim n eq_refl). simpl.
      destruct (Z.eqb_spec n 0); [lia|]. simpl.
      destruct (Z.ltb_spec offset 0); [lia|].
      destruct (Z.ltb_spec (offset + n) 0); [lia|].
      rewrite (Z.min_l offset) by lia.
      destruct (Z.le_ge_cases (offset + n) (Z.of_nat (length F))).
      * rewrite Z.min_l by lia. f_equal. lia.
      * rewrite Z.min_r by lia.
        transitivity (drop (Z.to_nat offset) F).
        -- apply take_ge. rewrite length_drop. lia.
        -- symmetry. apply take_ge. rewrite length_drop. lia.
    + destruct (Z.ltb_spec offset 0); [lia|].
      destruct (Z.ltb_spec (Z.of_nat (length F)) 0); [lia|].
      rewrite Z.min_id, (Z.min_l offset) by lia.
      apply take_ge. rewrite length_drop. lia.
Qed.

Lemma shown_fmap {A B} (f : A → B) limit offset (F : list A) :
  shown limit offset (f <$> F) = f <$> shown limit offset F.
Proof.
  unfold shown. rewrite length_fmap. case_match; [done|].
  apply list_slice_fmap.
Qed.

Lemma apply_ids_catalog ids (C : list product) :
  C ≠ [] →
  apply_ids ids (catalog_value C) =
  match selection ids C with
  | Raise _ => Raise (HTTPException 400)
  | Ok [] => Raise (HTTPException 404)
  | Ok F => Ok (catalog_value F)
  end.
Proof.
  intros HC. unfold apply_ids, selection.
  destruct ids as [t|]; [|by destruct C].
  simpl truthy. destruct (decide (t = "")) as [->|Ht].
  - by destruct C.
  - rewrite (proj2 (String.eqb_neq t "")) by done. simpl negb. cbv iota.
    unfold filter_by_ids. fold (parse_ids t).
    destruct (parse_ids t) as [id_list|e] eqn:Hids; simpl.
    + unfold catalog_value at 1. rewrite filter_catalog. simpl.
      by destruct (filter _ C).
    + by rewrite (parse_ids_error _ _ Hids).
Qed.

Lemma paginate_catalog limit offset (F : list product) :
  paginate limit offset (catalog_value F) =
  Ok (Z.of_nat (length F), catalog_value (shown limit offset F)).
Proof.
  unfold paginate, catalog_value, shown. simpl. rewrite length_fmap.
  destruct (Z.of_nat (length F) <=? offset); simpl; [done|].
  by rewrite list_slice_fmap.
Qed.

Lemma validate_catalog (F : list product) :
  validate Product Product_new (catalog_value F) =
  match comprehension Product_new (VDict <$> F) with
  | Ok ps => Ok ps
  | Raise _ => Raise (HTTPException 500)
  end.
Proof. done. Qed.

(** The handler on a stored catalog of records, as one expression. *)
Lemma get_products_catalog ids limit offset s (C : list product) :
  load_products json_loads products_json s = (Ok (catalog_value C), s) →
  get_products json_loads Product Product_new ids limit offset s =
  (match C with
   | [] => Raise (HTTPException 404)
   | _ =>
       match selection ids C with
       | Raise _ => Raise (HTTPException 400)
       | Ok [] => Raise (HTTPException 404)
       | Ok F =>
           match comprehension Product_new (VDict <$> shown limit offset F) with
           | Ok ps => Ok {| total := Z.of_nat (length F); products := ps |}
           | Raise _ => Raise (HTTPException 500)
           end
       end
   end, s).
Proof.
  intros Hload. unfold Routes.get_products, io_try, io_bind.
  rewrite Hload. destruct C as [|p C]; [done|].
  set (C1 := p :: C). simpl truthy. simpl negb. cbv iota.
  unfold io_lift. rewrite apply_ids_catalog by done.
  destruct (selection ids C1) as [[|q F]|e]; [done| |done].
  rewrite paginate_catalog, validate_catalog.
  by destruct (comprehension _ _).
Qed.

(** C8, as amended.  [GET /products] on a stored catalog [C], for a query
    within the bounds FastAPI enforces ([offset >= 0], [limit >= 1]): the
    catalog is read and the file system left as it was; an empty catalog
    answers 404; otherwise an [ids] parameter that is not the empty string
    and has a token that [int] refuses answers 400; otherwise the ids filter
    is applied first, an empty [ids] parameter being no filter at all, and
    a filter that matches no record answers 404; otherwise offset/limit
    slicing is applied to the filtered set [F], a record of that page that
    fails validation answers 500, and when all validate the answer carries
    them with [total = |F|]. *)
Theorem get_products_contract ids limit offset s (C : list product) :
  load_products json_loads products_json s = (Ok (catalog_value C), s) →
  0 ≤ offset → (∀ n, limit = Some n → 1 ≤ n) →
  ∃ r, get_products json_loads Product Product_new ids limit offset s = (r, s) ∧
    (C = [] → r = Raise (HTTPException 404)) ∧
    (C ≠ [] → ∀ t, ids = Some t → t ≠ "" →
       Exists (λ tok, py_int (strip tok) = Raise ValueError) (split_on "," t) →
       r = Raise (HTTPException 400)) ∧
    (C ≠ [] → selection ids C = Ok [] → r = Raise (HTTPException 404)) ∧
    (C ≠ [] → ∀ F, selection ids C = Ok F → F ≠ [] →
       (Exists (λ p, ∃ e, Product_new (VDict p) = Raise e) (page limit offset F) →
          r = Raise (HTTPException 500)) ∧
       (∀ ps, comprehension Product_new (VDict <$> page limit offset F) = Ok ps →
          r = Ok {| total := Z.of_nat (length F); products := ps |})).
Proof.
  intros Hload Hoff Hlim. eexists. split; [by apply get_products_catalog|].
  split_and!.
  - by intros ->.
  - intros HC t -> Ht Hbad. destruct C as [|p C]; [done|].
    unfold selection. rewrite decide_False by done. fold (parse_ids t).
    assert (∃ e, parse_ids t = Raise e) as [e ->]; [|done].
    apply comprehension_raises. eapply Exists_impl; [done|].
    intros tok Htok. simpl in Htok. by eexists.
  - intros HC Hsel. destruct C as [|p C]; [done|]. by rewrite Hsel.
  - intros HC F Hsel HF. destruct C as [|p C]; [done|]. rewrite Hsel.
    destruct F as [|q F]; [done|].
    rewrite list_slice_page by done. split.
    + intros Hbad.
      assert (∃ e, comprehension Product_new
                     (VDict <$> page limit offset (q :: F)) = Raise e)
        as [e ->]; [|done].
      apply comprehension_raises. by apply Exists_fmap.
    + by intros ps ->.
Qed.

(** C10.  On a non-empty catalog whose filtered set [F] is non-empty, an
    offset at or past the size of [F] answers 200 with an empty products
    list (not 404), and every successful answer, whatever the offset and
    the limit, carries [total = |F|], the size of the filtered set before
    slicing. *)
Theorem get_products_offset_past_end ids limit offset s (C F : list product) :
  load_products json_loads products_json s = (Ok (catalog_value C), s) →
  C ≠ [] → selection ids C = Ok F → F ≠ [] →
  (Z.of_nat (length F) ≤ offset →
     get_products json_loads Product Product_new ids limit offset s =
       (Ok {| total := Z.of_nat (length F); products := [] |}, s) ∧
     http_status (get_products json_loads Product Product_new ids limit offset s).1
       = 200) ∧
  (∀ limit' offset' response s',
     get_products json_loads Product Product_new ids limit' offset' s =
       (Ok response, s') →
     total response = Z.of_nat (length F)).
Proof.
  intros Hload HC Hsel HF.
  assert (∀ limit' offset',
    get_products json_loads Product Product_new ids limit' offset' s =
    (match comprehension Product_new (VDict <$> shown limit' offset' F) with
     | Ok ps => Ok {| total := Z.of_nat (length F); products := ps |}
     | Raise _ => Raise (HTTPException 500)
     end, s)) as Hget.
  { intros limit' offset'. rewrite (get_products_catalog _ _ _ _ _ Hload).
    destruct C as [|p C]; [done|]. rewrite Hsel. by destruct F. }
  split.
  - intros Hoff. rewrite Hget. unfold shown.
    rewrite (proj2 (Z.leb_le _ _)) by done. done.
  - intros limit' offset' response s'. rewrite Hget.
    destruct (comprehension _ _); [|done]. by intros [= <- _].
Qed.

End routes_facts.

Lemma get_products_contract_witness :
  load_products os_permits MiniJson.json_loads products_json
    (Examples.fs_with Examples.stored_catalog)
    = (Ok (catalog_value Examples.stored_catalog),
       Examples.fs_with Examples.stored_catalog) ∧
  ∃ r, get_products os_permits MiniJson.json_loads Examples.Product
         Examples.Product_new
         (Some "1, 3") (Some 1) 0 (Examples.fs_with Examples.stored_catalog)
       = (r, Examples.fs_with Examples.stored_catalog).
Proof.
  assert (load_products os_permits MiniJson.json_loads products_json
            (Examples.fs_with Examples.stored_catalog)
          = (Ok (catalog_value Examples.stored_catalog),
             Examples.fs_with Examples.stored_catalog)) as Hload
    by (vm_compute; reflexivity).
  split; [exact Hload|].
  destruct (get_products_contract os_permits MiniJson.json_loads Examples.Product
              Examples.Product_new (Some "1, 3") (Some 1) 0 _ _ Hload)
    as (r & Hr & _); [lia|intros n [= <-]; lia|].
  by exists r.
Defined.

(** An [ids] parameter that is the empty string has one token, the empty
    one, which [int] refuses; the handler does not look at it and answers
    with the whole catalog. *)
Lemma get_products_contract_counterexample :
  Exists (λ tok, py_int (strip tok) = Raise ValueError) (split_on "," "") ∧
  (get_products os_permits MiniJson.json_loads Examples.Product
     Examples.Product_new (Some "") None 0
     (Examples.fs_with Examples.stored_catalog)).1
  = (λ ps, {| total := 3; products := ps |})
      <$> comprehension Examples.Product_new (VDict <$> Examples.stored_catalog) ∧
  http_status
    (get_products os_permits MiniJson.json_loads Examples.Product
       Examples.Product_new (Some "") None 0
       (Examples.fs_with Examples.stored_catalog)).1 = 200.
Proof.
  split_and!; [|vm_compute; reflexivity..].
  apply Exists_cons_hd. vm_compute. reflexivity.
Qed.

Lemma get_products_offset_past_end_witness :
  get_products os_permits MiniJson.json_loads Examples.Product
    Examples.Product_new
    (Some "1,3") (Some 10) 5 (Examples.fs_with Examples.stored_catalog)
  = (Ok {| total := 2; products := [] |}, Examples.fs_with Examples.stored_catalog).
Proof.
  assert (load_products os_permits MiniJson.json_loads products_json
            (Examples.fs_with Examples.stored_catalog)
          = (Ok (catalog_value Examples.stored_catalog),
             Examples.fs_with Examples.stored_catalog)) as Hload
    by (vm_compute; reflexivity).
  assert (selection (Some "1,3") Examples.stored_catalog
          = Ok [Examples.olx_record 1 (Examples.olx_url 1);
                Examples.olx_record 3 (Examples.olx_url 3)]) as Hsel
    by (vm_compute; reflexivity).
  destruct (get_products_offset_past_end os_permits MiniJson.json_loads
              Examples.Product
              Examples.Product_new (Some "1,3") (Some 10) 5 _ _ _ Hload
              ltac:(done) Hsel ltac:(done)) as [Hpast _].
  destruct Hpast as [Hget _]; [simpl; lia|]. exact Hget.
Defined.

(** The handler on concrete files: the filter comes before the slice; a
    malformed list of ids answers 400, unknown ids 404, an empty store 404,
    a damaged record on the page 500. *)
Example get_products_examples :
  let get ids limit offset C :=
    (get_products os_permits MiniJson.json_loads Examples.Product
       Examples.Product_new ids limit offset (Examples.fs_with C)).1 in
  (total <$> get (Some "3,1") (Some 1) 1 Examples.stored_catalog,
   (λ r, Examples.id <$> products r) <$> get (Some "3,1") (Some 1) 1 Examples.stored_catalog)
    = (Ok 2, Ok [3]) ∧
  http_status (get (Some "1,x") None 0 Examples.stored_catalog) = 400 ∧
  http_status (get (Some "7") None 0 Examples.stored_catalog) = 404 ∧
  http_status (get None None 0 []) = 404 ∧
  http_status (get (Some "1,x") None 0 []) = 404 ∧
  http_status (get None None 0 Examples.damaged_catalog) = 500 ∧
  http_status (get None (Some 1) 0 Examples.damaged_catalog) = 200 ∧
  http_status (get None None 7 Examples.stored_catalog) = 200.
Proof. vm_compute. repeat split. Qed.

(** [int] reads the digits of every script and refuses a number of more
    than 4300 digits. *)
Example parse_ids_examples :
  parse_ids " 1 ,+2,0_3" = Ok [1; 2; 3] ∧
  parse_ids (String "217" (String "161" EmptyString)) = Ok [1] ∧
  parse_ids (String.concat "" (replicate 4300 "0") +:+ "1") = Raise ValueError ∧
  parse_ids (String.concat "" (replicate 4299 "0") +:+ "1") = Ok [1] ∧
  parse_ids "1,,2" = Raise ValueError.
Proof. vm_compute. repeat split. Qed.

End RoutesFacts.

(** ** The scraping engine (claims C2, C3, C6 and C7) *)
Module EngineFacts.

Lemma sum_list_insert {A} (f : A → nat) (l : list A) i x y :
  l !! i = Some x →
  (sum_list (f <$> <[i := y]> l) + f x = sum_list (f <$> l) + f y)%nat.
Proof.
  revert i. induction l as [|z l IH]; intros [|i] Hi; simplify_eq/=; [lia|].
  specialize (IH _ Hi). lia.
Qed.

Lemma fmap_insert_same {A B} (g : A → B) (l : list A) i x y :
  l !! i = Some x → g y = g x → g <$> <[i := y]> l = g <$> l.
Proof.
  intros Hi Hg. rewrite list_fmap_insert, Hg.
  apply list_insert_id. by rewrite list_lookup_fmap, Hi.
Qed.

Lemma count_cons e e' tr :
  count e (e' :: tr) = ((if decide (e' = e) then 1 else 0) + count e tr)%nat.
Proof. unfold count. rewrite filter_cons. by case_decide. Qed.

Lemma count_app e tr1 tr2 : count e (tr1 ++ tr2) = (count e tr1 + count e tr2)%nat.
Proof. unfold count. by rewrite filter_app, length_app. Qed.

Lemma make_tasks_length urls : length (make_tasks urls) = length urls.
Proof. apply length_imap. Qed.

Lemma make_tasks_lookup urls idx :
  make_tasks urls !! idx =
  (λ url, {| task_url := url; task_id := Z.of_nat idx + 1; task_pc := AtSemaphore |})
    <$> urls !! idx.
Proof. unfold make_tasks. by rewrite list_lookup_imap. Qed.

Lemma sum_list_imap_const {A B} (f : B → nat) (g : nat → A → B) (l : list A) c :
  (∀ i x, f (g i x) = c) → sum_list (f <$> imap g l) = (c * length l)%nat.
Proof.
  revert g. induction l as [|x l IH]; intros g Hg; simpl; [lia|].
  rewrite Hg, IH; [lia|]. intros i y. apply Hg.
Qed.

Lemma make_tasks_sum (f : task → nat) urls c :
  (∀ t, task_pc t = AtSemaphore → f t = c) →
  sum_list (f <$> make_tasks urls) = (c * length urls)%nat.
Proof. intros Hf. apply sum_list_imap_const. intros i x. by apply Hf. Qed.

Lemma make_tasks_Forall (P : task → Prop) urls :
  (∀ t, task_pc t = AtSemaphore → P t) → Forall P (make_tasks urls).
Proof.
  intros HP. apply Forall_forall. intros t [i Ht]%list_elem_of_lookup.
  rewrite make_tasks_lookup in Ht. destruct (urls !! i); simplify_eq/=.
  by apply HP.
Qed.

(** Goals about the counters of a single task. *)
Ltac task_arith :=
  split_and!;
  unfold holds, has_page, started, remaining, attempts, count; simpl;
  try done; try lia.

Section engine_facts.
Variable pw : Playwright.
Variable scraper : ProductScraper.
Variable engine : ScraperEngine.

(** [asyncio.Semaphore] refuses a negative value, so an engine that exists
    has a bound of at least 0. *)
Hypothesis max_concurrent_nonneg : 0 ≤ max_concurrent engine.

#[local] Abbreviation invariant := (invariant pw scraper engine).
#[local] Abbreviation step := (step pw scraper).
#[local] Abbreviation reachable := (reachable pw scraper engine).

Lemma invariant_init : invariant (scrape_all engine).
Proof. split; simpl; try done; lia. Qed.

(** What one stretch of a task changes. *)
Lemma task_step_spec t sem pc' sem' upd evs :
  task_step pw scraper t sem = Some (pc', sem', upd, evs) →
  task_ok pw scraper t → 0 ≤ sem →
  let t' := {| task_url := task_url t; task_id := task_id t; task_pc := pc' |} in
  0 ≤ sem' ∧
  sem' + Z.of_nat (holds t') = sem + Z.of_nat (holds t) ∧
  (∀ n, (has_page t ≤ n → upd n + has_page t = n + has_page t')%nat) ∧
  (attempts evs + started t = started t')%nat ∧
  task_ok pw scraper t' ∧
  (remaining t' < remaining t)%nat ∧
  count BrowserLaunched evs = 0%nat ∧ count ContextOpened evs = 0%nat ∧
  count ContextClosed evs = 0%nat ∧ count BrowserClosed evs = 0%nat.
Proof.
  destruct t as [url pid pc]. unfold task_step, task_ok, outcome. simpl.
  intros Hstep Hok Hsem.
  destruct pc as [| | |r|r]; simpl in *.
  - destruct (Z.ltb_spec 0 sem); simplify_eq/=. task_arith.
  - destruct (context_new_page pw pid) as [[]|e] eqn:Hpage; simplify_eq/=.
    + task_arith. by eexists.
    + task_arith.
  - destruct Hok as [u Hu].
    destruct (scrape_product scraper url pid) as [product_data|[e|]] eqn:Hs;
      simplify_eq/=.
    + task_arith; [by eexists|]. unfold extraction. by rewrite Hs.
    + task_arith; [by eexists|]. unfold extraction. by rewrite Hs.
    + task_arith; [by eexists|]. unfold extraction. by rewrite Hs.
  - destruct Hok as [[u Hu] ->]. rewrite Hu.
    destruct (page_close pw pid) as [[]|e] eqn:Hc; simplify_eq/=; task_arith.
  - done.
Qed.

Lemma sum_list_lookup_le {A} (f : A → nat) (l : list A) i x :
  l !! i = Some x → (f x ≤ sum_list (f <$> l))%nat.
Proof.
  revert i. induction l as [|z l IH]; intros [|i] Hi; simplify_eq/=; [lia|].
  specialize (IH _ Hi). lia.
Qed.

(** When [gather] returns, every task is over and the results are the
    outcomes of the tasks, in task order. *)
Lemma gather_results ts results :
  mapM task_result ts = Some results →
  Forall (task_ok pw scraper) ts →
  Forall (λ t, is_done t = true) ts ∧
  results = (λ t, outcome pw scraper (task_url t) (task_id t)) <$> ts.
Proof.
  intros Hres%mapM_Some Hok.
  induction Hres as [|t r ts results Ht _ IH]; [done|].
  apply Forall_cons in Hok as [Hok1 Hok]. destruct (IH Hok) as [? ->].
  unfold task_result in Ht. unfold task_ok in Hok1. unfold is_done at 1.
  destruct (task_pc t) eqn:Hpc; simplify_eq/=.
  split; [constructor; [by rewrite Hpc|done]|done].
Qed.

Lemma outcomes_of_tasks (ts ts' : list task) :
  (λ t, (task_url t, task_id t)) <$> ts = (λ t, (task_url t, task_id t)) <$> ts' →
  (λ t, outcome pw scraper (task_url t) (task_id t)) <$> ts =
  (λ t, outcome pw scraper (task_url t) (task_id t)) <$> ts'.
Proof.
  intros H.
  change (λ t, outcome pw scraper (task_url t) (task_id t))
    with ((λ ui, outcome pw scraper ui.1 ui.2) ∘ (λ t, (task_url t, task_id t))).
  by rewrite !list_fmap_compose, H.
Qed.

(** Every step keeps the invariant. *)
Lemma invariant_step st st' : invariant st → step st st' → invariant st'.
Proof.
  intros Hinv [a Hexec]. destruct st as [ph sem ts pages tr].
  destruct Hinv as [Hsem Hperm Hpages Hatt Htasks Hok Htrace]. simpl in *.
  unfold tasks_ok, trace_ok in *. simpl in *.
  destruct a, ph; simpl in Hexec; try done.
  - (* the browser is launched, or cannot be *)
    destruct (chromium_launch pw) as [[]|e] eqn:Hl; simplify_eq/=;
      split; simpl; try done; [by left|by left].
  - (* the context is opened, or cannot be *)
    destruct (browser_new_context pw) as [[]|e] eqn:Hc; simplify_eq/=.
    + split; simpl; try done.
      * rewrite (make_tasks_sum holds _ 0%nat)
          by (intros t; unfold holds; by intros ->).
        simpl. lia.
      * by rewrite (make_tasks_sum has_page _ 0%nat)
          by (intros t; unfold has_page; by intros ->).
      * by rewrite (make_tasks_sum started _ 0%nat)
          by (intros t; unfold started; by intros ->).
      * apply make_tasks_Forall. intros t. unfold task_ok. by intros ->.
    + split; simpl; try done; [by left|right; by left].
  - (* a task runs to its next suspension point *)
    destruct (ts !! i) as [t|] eqn:Hi; simpl in Hexec; [|done].
    destruct (task_step pw scraper t sem) as [[[[pc' sem'] upd] evs]|] eqn:Hts;
      simplify_eq/=.
    pose proof (Forall_lookup_1 _ _ _ _ Hok Hi) as Hokt.
    destruct (task_step_spec _ _ _ _ _ _ Hts Hokt Hsem)
      as (Hsem' & Hholds & Hupd & Hstart & Hokt' & _ & Hc1 & Hc2 & Hc3 & Hc4).
    set (t' := {| task_url := task_url t; task_id := task_id t; task_pc := pc' |})
      in *.
    pose proof (sum_list_insert holds ts i t t' Hi).
    pose proof (sum_list_insert has_page ts i t t' Hi).
    pose proof (sum_list_insert started ts i t t' Hi).
    pose proof (sum_list_lookup_le has_page ts i t Hi).
    split; simpl.
    + done.
    + lia.
    + specialize (Hupd (sum_list (has_page <$> ts))). lia.
    + unfold attempts in *. rewrite filter_app, length_app. lia.
    + unfold tasks_ok. simpl. by rewrite (fmap_insert_same _ _ _ t).
    + by apply Forall_insert.
    + unfold trace_ok. simpl. rewrite !count_app.
      destruct Htrace as (? & ? & ? & ?). split_and!; lia.
  - (* gather returns *)
    destruct (mapM task_result ts) as [results|] eqn:Hres; simplify_eq/=.
    destruct (gather_results _ _ Hres Hok) as [Hdone ->].
    split; simpl; try done. unfold tasks_ok. simpl. split_and!; [done|done|].
    unfold expected_products. f_equal. by apply outcomes_of_tasks.
  - (* the context is closed, or cannot be *)
    destruct (context_close pw) as [[]|e] eqn:Hc; simplify_eq/=.
    + split; simpl; try done.
      unfold trace_ok. simpl.
      rewrite !count_cons. destruct Htrace as (? & ? & ? & ?).
      repeat case_decide; try done. split_and!; lia.
    + split; simpl; try done.
      * unfold tasks_ok. simpl. right. by destruct Htasks as (? & ? & _).
      * unfold trace_ok. simpl. right. right. by left.
  - (* the browser is closed, or cannot be *)
    destruct (browser_close pw) as [[]|e] eqn:Hc; simplify_eq/=.
    + split; simpl; try done.
      unfold trace_ok. simpl.
      rewrite !count_cons. destruct Htrace as (? & ? & ? & ?).
      repeat case_decide; try done. split_and!; lia.
    + split; simpl; try done.
      * unfold tasks_ok. simpl. right. by destruct Htasks as (? & ? & _).
      * unfold trace_ok. simpl. right. right. by right.
Qed.

Lemma invariant_reachable st : reachable st → invariant st.
Proof.
  unfold reachable. intros Hreach.
  eapply (rtc_ind_r (λ st, invariant st)); [apply invariant_init| |exact Hreach].
  intros y z _ Hstep Hy. by eapply invariant_step.
Qed.

(** *** Termination: every step brings the run closer to its end *)

Lemma task_step_remaining t sem pc' sem' upd evs :
  task_step pw scraper t sem = Some (pc', sem', upd, evs) →
  (remaining {| task_url := task_url t; task_id := task_id t; task_pc := pc' |}
   < remaining t)%nat.
Proof.
  unfold task_step, remaining. simpl.
  destruct (task_pc t); intros; repeat case_match; simplify_eq/=; lia.
Qed.

Lemma step_measure st st' :
  step st st' → (measure scraper st' < measure scraper st)%nat.
Proof.
  intros [a Hexec]. destruct st as [ph sem ts pages tr].
  unfold measure. destruct a, ph; simpl in Hexec; try done.
  - destruct (chromium_launch pw); simplify_eq/=; lia.
  - destruct (browser_new_context pw); simplify_eq/=; [|lia].
    rewrite (make_tasks_sum remaining _ 4%nat)
      by (intros t; unfold remaining; by intros ->).
    lia.
  - destruct (ts !! i) as [t|] eqn:Hi; simpl in Hexec; [|done].
    destruct (task_step pw scraper t sem) as [[[[pc' sem'] upd] evs]|] eqn:Hts;
      simplify_eq/=.
    pose proof (task_step_remaining _ _ _ _ _ _ Hts).
    pose proof (sum_list_insert remaining ts i t
      {| task_url := task_url t; task_id := task_id t; task_pc := pc' |} Hi).
    lia.
  - destruct (mapM task_result ts); simplify_eq/=. lia.
  - destruct (context_close pw); simplify_eq/=; lia.
  - destruct (browser_close pw); simplify_eq/=; lia.
Qed.

(** *** Progress: with a bound of at least 1 the run is never stuck *)

Lemma task_step_holder t sem :
  holds t = 1%nat → is_Some (task_step pw scraper t sem).
Proof.
  unfold holds, task_step. destruct (task_pc t); try done; intros _;
    repeat case_match; by eexists.
Qed.

Lemma task_step_waiting t sem :
  task_pc t = AtSemaphore → 0 < sem → is_Some (task_step pw scraper t sem).
Proof.
  unfold task_step. intros -> Hsem.
  rewrite (proj2 (Z.ltb_lt 0 sem)) by done. by eexists.
Qed.

Lemma sum_list_zero {A} (f : A → nat) (l : list A) :
  Forall (λ x, f x = 0%nat) l → sum_list (f <$> l) = 0%nat.
Proof. induction 1 as [|x l Hx _ IH]; csimpl in *; [done|]. lia. Qed.

Lemma exec_task_enabled st i t :
  st_phase st = Running → st_tasks st !! i = Some t →
  is_Some (task_step pw scraper t (st_semaphore st)) →
  ∃ st', exec pw scraper (DoTask i) st = Some st'.
Proof.
  destruct st as [ph sem ts pages tr]. simpl. intros -> Hi [[[[pc' sem'] upd] evs] Hts].
  simpl. rewrite Hi. simpl. rewrite Hts. simpl. by eexists.
Qed.

Lemma progress st :
  1 ≤ max_concurrent engine → invariant st → finished st = false →
  ∃ st', step st st'.
Proof.
  intros Hmax Hinv Hfin. unfold step.
  pose proof (inv_permits _ _ _ _ Hinv) as Hperm.
  destruct st as [ph sem ts pages tr]. unfold finished in Hfin. simpl in *.
  destruct ph; try done.
  - destruct (chromium_launch pw) as [u|e] eqn:Hl;
      eexists _, DoLaunch; simpl; by rewrite ?Hl.
  - destruct (browser_new_context pw) as [u|e] eqn:Hc;
      eexists _, DoNewContext; simpl; by rewrite ?Hc.
  - destruct (decide (Exists (λ t, holds t = 1%nat) ts)) as [Hex|Hno].
    { apply Exists_exists in Hex as (t & [i Hi]%list_elem_of_lookup & Ht).
      destruct (exec_task_enabled
                  {| st_phase := Running; st_semaphore := sem; st_tasks := ts;
                     st_pages := pages; st_trace := tr |} i t eq_refl Hi)
        as [st' Hst']; [by apply task_step_holder|].
      by exists st', (DoTask i). }
    apply not_Exists_Forall in Hno; [|intros t; apply _].
    destruct (decide (Forall (λ t, is_Some (task_result t)) ts)) as [Hdone|Hnot].
    { apply mapM_is_Some_2 in Hdone as [results Hres].
      eexists _, DoGather. simpl. by rewrite Hres. }
    apply not_Forall_Exists in Hnot; [|intros t; apply _].
    apply Exists_exists in Hnot as (t & Hin & Ht).
    pose proof Hin as [i Hi]%list_elem_of_lookup.
    rewrite Forall_forall in Hno. pose proof (Hno t Hin) as Hnt. simpl in Hnt.
    assert (task_pc t = AtSemaphore) as Hpc.
    { unfold compose, task_result in Ht. unfold holds in Hnt.
      destruct (task_pc t); try done. exfalso. apply Ht. by eexists. }
    assert (0 < sem) as Hsem.
    { rewrite sum_list_zero in Hperm; [lia|].
      apply Forall_forall. intros t' Ht'. specialize (Hno t' Ht'). simpl in Hno.
      unfold holds in Hno |- *. destruct (task_pc t'); done. }
    destruct (exec_task_enabled
                {| st_phase := Running; st_semaphore := sem; st_tasks := ts;
                   st_pages := pages; st_trace := tr |} i t eq_refl Hi)
      as [st' Hst']; [by apply task_step_waiting|].
    by exists st', (DoTask i).
  - destruct (context_close pw) as [u|e] eqn:Hc;
      eexists _, DoContextClose; simpl; by rewrite ?Hc.
  - destruct (browser_close pw) as [u|e] eqn:Hc;
      eexists _, DoBrowserClose; simpl; by rewrite ?Hc.
Qed.

(** *** The event loop [run] follows the steps to the end *)

Lemma next_step st st' : next pw scraper st = Some st' → step st st'.
Proof.
  unfold next. intros H%head_Some_elem_of.
  apply list_elem_of_omap in H as (a & _ & Ha). by exists a.
Qed.

Lemma step_next st st' : step st st' → is_Some (next pw scraper st).
Proof.
  intros [a Ha]. unfold next.
  assert (a ∈ candidates st) as Hin.
  { unfold candidates. destruct a; try (set_solver).
    apply elem_of_app. right. apply list_elem_of_fmap. exists i. split; [done|].
    apply elem_of_seq. split; [lia|]. simpl.
    destruct st as [ph sem ts pages tr]. simpl in *.
    destruct ph; try done. destruct (ts !! i) eqn:Hi; [|done].
    by apply lookup_lt_Some in Hi. }
  assert (st' ∈ omap (λ a, exec pw scraper a st) (candidates st)) as Hst'.
  { apply list_elem_of_omap. by exists a. }
  destruct (omap _ _); [by apply elem_of_nil in Hst'|by eexists].
Qed.

Lemma run_finishes fuel st :
  1 ≤ max_concurrent engine → invariant st → (measure scraper st ≤ fuel)%nat →
  finished (run pw scraper fuel st) = true ∧ rtc step st (run pw scraper fuel st).
Proof.
  intros Hmax. revert st. induction fuel as [|fuel IH]; intros st Hinv Hfuel.
  - simpl. split; [|done]. unfold measure, finished in *.
    destruct (st_phase st); simpl in *; try done; lia.
  - simpl. destruct (next pw scraper st) as [st'|] eqn:Hnext.
    + apply next_step in Hnext as Hstep.
      pose proof (step_measure _ _ Hstep).
      destruct (IH st') as [? ?]; [by eapply invariant_step|lia|].
      split; [done|]. by eapply rtc_l.
    + split; [|done]. destruct (finished st) eqn:Hfin; [done|].
      destruct (progress st Hmax Hinv Hfin) as [st' Hstep].
      apply step_next in Hstep as [? ?]. congruence.
Qed.

End engine_facts.

(** *** Counting over the tasks *)

Lemma sum_list_le {A} (f g : A → nat) (l : list A) :
  (∀ x, f x ≤ g x)%nat → (sum_list (f <$> l) ≤ sum_list (g <$> l))%nat.
Proof.
  intros Hfg. induction l as [|x l IH]; csimpl; [done|].
  specialize (Hfg x). lia.
Qed.

Lemma sum_list_bound {A} (f : A → nat) (l : list A) :
  (∀ x, f x ≤ 1)%nat → (sum_list (f <$> l) ≤ length l)%nat.
Proof.
  intros Hf. induction l as [|x l IH]; csimpl; [done|].
  specialize (Hf x). lia.
Qed.

Lemma sum_list_all {A} (f : A → nat) (l : list A) c :
  Forall (λ x, f x = c) l → sum_list (f <$> l) = (c * length l)%nat.
Proof. induction 1 as [|x l Hx _ IH]; csimpl in *; lia. Qed.

Lemma tasks_length scraper (ts : list task) :
  (λ t, (task_url t, task_id t)) <$> ts =
  (λ t, (task_url t, task_id t)) <$> make_tasks (get_product_urls scraper) →
  length ts = length (get_product_urls scraper).
Proof.
  intros H. apply (f_equal length) in H.
  by rewrite !length_fmap, make_tasks_length in H.
Qed.

Lemma successes_nil (results : list (result_of base_exn (option product))) :
  Forall (λ r, r = Ok None ∨ ∃ e, r = Raise (Exception e)) results →
  successes results = [].
Proof.
  unfold successes. induction 1 as [|r results Hr _ IH]; [done|]. csimpl.
  rewrite IH. by destruct Hr as [->|[e ->]].
Qed.

Lemma successes_elem (results : list (result_of base_exn (option product))) p :
  Ok (Some p) ∈ results → Item p ∈ successes results.
Proof.
  intros H. unfold successes. apply list_elem_of_omap. by exists (Ok (Some p)).
Qed.

Lemma scrape_all_run_reachable pw scraper engine :
  1 ≤ max_concurrent engine →
  reachable pw scraper engine
    (run pw scraper (measure scraper (scrape_all engine)) (scrape_all engine)).
Proof.
  intros Hmax. assert (0 ≤ max_concurrent engine) as Hmax0 by lia.
  destruct (run_finishes pw scraper engine Hmax0
              (measure scraper (scrape_all engine)) (scrape_all engine))
    as [_ Hrun]; [done|by apply invariant_init|done|]. exact Hrun.
Qed.

(** *** Targets and identifiers *)
Section identifiers.
Variable pw : Playwright.
Variable scraper : ProductScraper.
Variable engine : ScraperEngine.

Lemma make_tasks_ids urls :
  task_id <$> make_tasks urls = (λ idx, Z.of_nat idx + 1) <$> seq 0 (length urls).
Proof.
  apply list_eq. intros i. rewrite !list_lookup_fmap, make_tasks_lookup.
  destruct (urls !! i) as [u|] eqn:Hi; simpl.
  - rewrite lookup_seq_lt by (by eapply lookup_lt_Some). done.
  - rewrite lookup_seq_ge by (by apply lookup_ge_None). done.
Qed.

Lemma make_tasks_urls urls : task_url <$> make_tasks urls = urls.
Proof.
  apply list_eq. intros i. rewrite !list_lookup_fmap, make_tasks_lookup.
  by destruct (urls !! i).
Qed.

Lemma task_target (ts : list task) i t :
  (λ t, (task_url t, task_id t)) <$> ts =
  (λ t, (task_url t, task_id t)) <$> make_tasks (get_product_urls scraper) →
  ts !! i = Some t → target_of scraper (task_url t) (task_id t).
Proof.
  intros Hts Hi. exists i.
  assert (((λ t, (task_url t, task_id t)) <$> ts) !! i
          = Some (task_url t, task_id t)) as H by by rewrite list_lookup_fmap, Hi.
  rewrite Hts, list_lookup_fmap, make_tasks_lookup in H.
  destruct (get_product_urls scraper !! i); by simplify_eq/=.
Qed.

Lemma task_step_events t sem pc' sem' upd evs :
  task_step pw scraper t sem = Some (pc', sem', upd, evs) →
  target_of scraper (task_url t) (task_id t) → Forall (event_ok scraper) evs.
Proof.
  unfold task_step. intros Hstep Ht.
  destruct (task_pc t); repeat case_match; simplify_eq/=;
    repeat constructor; simpl; try done; by eexists.
Qed.

Lemma identifiers_step st st' :
  identifiers_ok scraper st → step pw scraper st st' → identifiers_ok scraper st'.
Proof.
  intros [Hts Htr] [a Hexec]. destruct st as [ph sem ts pages tr].
  unfold identifiers_ok, gathering in *. simpl in *.
  destruct a, ph; simpl in Hexec; try done.
  - destruct (chromium_launch pw); simplify_eq/=;
      (split; [destruct Hts as [[-> _]|Hts]; [by left|by right]|]);
      [by constructor|done].
  - destruct (browser_new_context pw); simplify_eq/=.
    + split; [by right|by constructor].
    + split; [destruct Hts as [[-> _]|Hts]; [by left|by right]|done].
  - destruct Hts as [[_ ?]|Hts]; [done|].
    destruct (ts !! i) as [t|] eqn:Hi; simpl in Hexec; [|done].
    destruct (task_step pw scraper t sem) as [[[[pc' sem'] upd] evs]|] eqn:Hstep;
      simplify_eq/=.
    split.
    + right. by rewrite (EngineFacts.fmap_insert_same _ _ _ t).
    + apply Forall_app. split; [|done].
      eapply task_step_events; [done|]. by eapply task_target.
  - destruct Hts as [[_ ?]|Hts]; [done|].
    destruct (mapM task_result ts); simplify_eq/=. split; [by right|done].
  - destruct Hts as [[_ ?]|Hts]; [done|].
    destruct (context_close pw); simplify_eq/=;
      (split; [by right|]); [by constructor|done].
  - destruct Hts as [[_ ?]|Hts]; [done|].
    destruct (browser_close pw); simplify_eq/=;
      (split; [by right|]); [by constructor|done].
Qed.

Lemma identifiers_reachable st :
  reachable pw scraper engine st → identifiers_ok scraper st.
Proof.
  unfold reachable. intros Hreach.
  eapply (rtc_ind_r (λ st, identifiers_ok scraper st)); [|  |exact Hreach].
  - split; [by left|constructor].
  - intros y z _ Hstep Hy. by eapply identifiers_step.
Qed.

End identifiers.

(** C3.  The identifier of the target at zero-based position [idx] is
    [idx + 1]: the tasks [scrape_all] creates carry the urls in target order
    with the identifiers 1..M, they keep them in every state of every run
    (whatever the completion order, whichever tasks fail), and every call of
    [scrape_product] is made with a target's url and that target's
    identifier. *)
Theorem scrape_all_identifiers pw scraper engine :
  let urls := get_product_urls scraper in
  let ids := (λ idx, Z.of_nat idx + 1) <$> seq 0 (length urls) in
  task_id <$> make_tasks urls = ids ∧
  task_url <$> make_tasks urls = urls ∧
  (∀ idx url, urls !! idx = Some url →
     ∃ t, make_tasks urls !! idx = Some t ∧
          task_url t = url ∧ task_id t = Z.of_nat idx + 1) ∧
  ∀ st, reachable pw scraper engine st →
    (gathering st = true →
       task_id <$> st_tasks st = ids ∧ task_url <$> st_tasks st = urls) ∧
    (∀ url product_id, ScrapeCalled url product_id ∈ st_trace st →
       ∃ idx : nat, urls !! idx = Some url ∧ product_id = Z.of_nat idx + 1).
Proof.
  intros urls ids. subst ids. split_and!.
  - apply make_tasks_ids.
  - apply make_tasks_urls.
  - intros idx url Hidx. eexists. rewrite make_tasks_lookup, Hidx. done.
  - intros st [Hts Htr]%identifiers_reachable. split.
    + intros Hg. destruct Hts as [[_ ?]|Hts]; [congruence|]. split.
      * rewrite <- (make_tasks_ids urls).
        change task_id with (snd ∘ (λ t, (task_url t, task_id t))).
        by rewrite !list_fmap_compose, Hts.
      * transitivity (task_url <$> make_tasks urls); [|apply make_tasks_urls].
        change task_url with (fst ∘ (λ t, (task_url t, task_id t))).
        by rewrite !list_fmap_compose, Hts.
    + intros url product_id Hin.
      rewrite Forall_forall in Htr. by apply (Htr _ Hin).
Qed.


(** C7.  For every bound N >= 1 and every number M of targets: in every
    state of every run, whatever the interleaving, at most N pages are open
    and at most N tasks are inside the semaphore; [gather] is given exactly
    M tasks, never more than M attempts have been made, and when
    [scrape_all] has returned all M tasks have reached their terminal
    outcome and exactly M attempts were made; the run is never stuck before
    it is over, every step brings it closer to the end, and the event loop
    [run] does reach the end.  (A page counts as open from the moment
    [new_page] returns until [page.close()] has been awaited.) *)
Theorem scrape_all_bounded_concurrency pw scraper engine :
  1 ≤ max_concurrent engine →
  let M := length (get_product_urls scraper) in
  let start := scrape_all engine in
  (∀ st, reachable pw scraper engine st →
     Z.of_nat (st_pages st) ≤ max_concurrent engine ∧
     Z.of_nat (sum_list (holds <$> st_tasks st)) ≤ max_concurrent engine ∧
     (gathering st = true → length (st_tasks st) = M) ∧
     (attempts (st_trace st) ≤ M)%nat ∧
     (∀ ps, st_phase st = Returned ps →
        Forall (λ t, is_done t = true) (st_tasks st) ∧
        attempts (st_trace st) = M) ∧
     (finished st = false → ∃ st', step pw scraper st st') ∧
     (∀ st', step pw scraper st st' →
        (measure scraper st' < measure scraper st)%nat)) ∧
  finished (run pw scraper (measure scraper start) start) = true ∧
  reachable pw scraper engine (run pw scraper (measure scraper start) start).
Proof.
  intros Hmax M start. assert (0 ≤ max_concurrent engine) as Hmax0 by lia.
  split.
  - intros st Hreach.
    pose proof (invariant_reachable pw scraper engine Hmax0 st Hreach) as Hinv.
    destruct Hinv as [Hsem Hperm Hpages Hatt Htasks Hok Htrace].
    assert (length (st_tasks st) ≤ M)%nat as Hlen.
    { unfold tasks_ok in Htasks. destruct (st_phase st);
        try (rewrite Htasks; simpl; lia);
        try (by rewrite (tasks_length scraper _ Htasks));
        try (destruct Htasks as [Htasks _]; by rewrite (tasks_length scraper _ Htasks)).
      destruct Htasks as [->|[Htasks _]]; [simpl; lia|].
      by rewrite (tasks_length scraper _ Htasks). }
    split_and!.
    + rewrite Hpages.
      pose proof (sum_list_le has_page holds (st_tasks st)) as Hle.
      assert (∀ t, has_page t ≤ holds t)%nat as Hph
        by (intros t; unfold has_page, holds; destruct (task_pc t); lia).
      specialize (Hle Hph). lia.
    + lia.
    + unfold gathering, tasks_ok in *. intros Hg.
      destruct (st_phase st); try done;
        try (by apply tasks_length);
        try (destruct Htasks as [Htasks _]; by apply tasks_length).
    + rewrite Hatt.
      pose proof (sum_list_bound started (st_tasks st)) as Hle.
      assert (∀ t, started t ≤ 1)%nat as Hst
        by (intros t; unfold started; destruct (task_pc t); lia).
      specialize (Hle Hst). lia.
    + intros ps Hps. unfold tasks_ok in Htasks. rewrite Hps in Htasks.
      destruct Htasks as (Hshape & Hdone & _). split; [done|].
      rewrite Hatt, (sum_list_all started _ 1%nat).
      * rewrite (tasks_length scraper _ Hshape). unfold M. lia.
      * eapply Forall_impl; [exact Hdone|]. intros t. unfold is_done, started.
        by destruct (task_pc t).
    + intros Hfin. by eapply progress.
    + intros st'. apply step_measure.
  - destruct (run_finishes pw scraper engine Hmax0 (measure scraper start) start)
      as [Hfin Hrun]; [done|by apply invariant_init|done|].
    split; [done|]. exact Hrun.
Qed.

Lemma expected_products_elem pw scraper idx url p :
  get_product_urls scraper !! idx = Some url →
  outcome pw scraper url (Z.of_nat idx + 1) = Ok (Some p) →
  Item p ∈ expected_products pw scraper.
Proof.
  intros Hidx Hout. unfold expected_products. apply successes_elem.
  apply list_elem_of_fmap.
  exists {| task_url := url; task_id := Z.of_nat idx + 1; task_pc := AtSemaphore |}.
  split; [done|]. apply list_elem_of_lookup. exists idx.
  by rewrite make_tasks_lookup, Hidx.
Qed.

Lemma expected_products_all_fail pw scraper :
  (∀ url product_id,
     ∃ e, scrape_product scraper url product_id = Raise (Exception e)) →
  expected_products pw scraper = [].
Proof.
  intros Hfail. unfold expected_products. apply successes_nil.
  apply Forall_fmap, Forall_forall. intros t _. simpl.
  unfold outcome, extraction.
  destruct (Hfail (task_url t) (task_id t)) as [e ->].
  destruct (context_new_page pw (task_id t)); [|by left].
  destruct (page_close pw (task_id t)) as [|e']; [by left|right; by exists e'].
Qed.

(** C2, as amended.  When the browser and the context open and close
    without raising (and the bound is at least 1), [scrape_all] never raises
    and always returns: no state of any run is a failure, the run is never
    stuck, and the event loop reaches a state where it has returned.  What
    it returns holds, in target order, the record of every target whose own
    page opened, whose own extraction returned and whose own page closed,
    whatever happened to the other tasks; and when it has returned the
    browser and the context were each opened once and closed once and no
    page is open.  If every extraction raises an [Exception], the returned
    list is empty. *)
Theorem scrape_all_failure_isolation pw scraper engine :
  1 ≤ max_concurrent engine →
  chromium_launch pw = Ok () → browser_new_context pw = Ok () →
  context_close pw = Ok () → browser_close pw = Ok () →
  let start := scrape_all engine in
  let final := run pw scraper (measure scraper start) start in
  (reachable pw scraper engine final ∧
   st_phase final = Returned (expected_products pw scraper)) ∧
  (∀ st, reachable pw scraper engine st →
     (∀ e, st_phase st ≠ Failed e) ∧
     (finished st = false → ∃ st', step pw scraper st st') ∧
     (∀ st', step pw scraper st st' →
        (measure scraper st' < measure scraper st)%nat) ∧
     (∀ ps, st_phase st = Returned ps →
        ps = expected_products pw scraper ∧
        count BrowserLaunched (st_trace st) = 1%nat ∧
        count ContextOpened (st_trace st) = 1%nat ∧
        count ContextClosed (st_trace st) = 1%nat ∧
        count BrowserClosed (st_trace st) = 1%nat ∧
        st_pages st = 0%nat)) ∧
  (∀ idx url p,
     get_product_urls scraper !! idx = Some url →
     outcome pw scraper url (Z.of_nat idx + 1) = Ok (Some p) →
     Item p ∈ expected_products pw scraper) ∧
  ((∀ url product_id,
      ∃ e, scrape_product scraper url product_id = Raise (Exception e)) →
   expected_products pw scraper = []).
Proof.
  intros Hmax Hlaunch Hcontext Hcclose Hbclose start final.
  assert (0 ≤ max_concurrent engine) as Hmax0 by lia.
  assert (∀ st, reachable pw scraper engine st →
     (∀ e, st_phase st ≠ Failed e) ∧
     (finished st = false → ∃ st', step pw scraper st st') ∧
     (∀ st', step pw scraper st st' →
        (measure scraper st' < measure scraper st)%nat) ∧
     (∀ ps, st_phase st = Returned ps →
        ps = expected_products pw scraper ∧
        count BrowserLaunched (st_trace st) = 1%nat ∧
        count ContextOpened (st_trace st) = 1%nat ∧
        count ContextClosed (st_trace st) = 1%nat ∧
        count BrowserClosed (st_trace st) = 1%nat ∧
        st_pages st = 0%nat)) as Hall.
  { intros st Hreach.
    pose proof (invariant_reachable pw scraper engine Hmax0 st Hreach) as Hinv.
    destruct Hinv as [Hsem Hperm Hpages Hatt Htasks Hok Htrace].
    split_and!.
    - intros e He. unfold trace_ok in Htrace. rewrite He in Htrace.
      destruct Htrace as [[? _]|[[? _]|[[? _]|[? _]]]]; congruence.
    - intros Hfin. by eapply progress.
    - intros st'. apply step_measure.
    - intros ps Hps. unfold trace_ok, tasks_ok in *. rewrite Hps in *.
      destruct Htasks as (_ & Hdone & ->).
      destruct Htrace as (? & ? & ? & ?). split_and!; try done.
      rewrite Hpages. apply sum_list_zero.
      eapply Forall_impl; [exact Hdone|]. intros t. unfold is_done, has_page.
      by destruct (task_pc t). }
  split_and!.
  - by apply (scrape_all_run_reachable pw scraper engine).
  - destruct (run_finishes pw scraper engine Hmax0 (measure scraper start) start)
      as [Hfin Hrun]; [done|by apply invariant_init|done|].
    destruct (Hall _ Hrun) as (Hnofail & _ & _ & Hret).
    fold final in Hfin, Hnofail, Hret. unfold finished in Hfin.
    destruct (st_phase final) eqn:Hph; try done.
    + by destruct (Hret ps eq_refl) as [-> _].
    + by destruct (Hnofail e).
  - exact Hall.
  - apply expected_products_elem.
  - apply expected_products_all_fail.
Qed.

(** C6.  If launching the browser raises, [scrape_all] raises that
    exception at its first step: the run has only two states, the start and
    the failure; no task is created or attempted, no page is opened, and
    nothing is returned. *)
Theorem scrape_all_backend_unavailable pw scraper engine e :
  chromium_launch pw = Raise e →
  let start := scrape_all engine in
  let failed :=
    {| st_phase := Failed e; st_semaphore := max_concurrent engine;
       st_tasks := []; st_pages := 0; st_trace := [] |} in
  (∀ st, step pw scraper start st ↔ st = failed) ∧
  (∀ st, ¬ step pw scraper failed st) ∧
  (∀ fuel, run pw scraper (S fuel) start = failed) ∧
  (∀ st, reachable pw scraper engine st →
     (st = start ∨ st = failed) ∧
     st_tasks st = [] ∧ st_pages st = 0%nat ∧
     attempts (st_trace st) = 0%nat ∧ pages_opened (st_trace st) = 0%nat ∧
     ∀ ps, st_phase st ≠ Returned ps).
Proof.
  intros Hlaunch start failed.
  assert (∀ st, step pw scraper start st ↔ st = failed) as Hfirst.
  { intros st. split.
    - intros [a Ha]. destruct a; simpl in Ha; try done.
      rewrite Hlaunch in Ha. by injection Ha as <-.
    - intros ->. exists DoLaunch. simpl. by rewrite Hlaunch. }
  assert (∀ st, ¬ step pw scraper failed st) as Hlast.
  { intros st [a Ha]. by destruct a. }
  split_and!; [done|done| |].
  - intros fuel. simpl. unfold next. simpl. rewrite Hlaunch. simpl.
    destruct fuel; [done|]. simpl. unfold next. simpl. done.
  - intros st Hreach.
    assert (st = start ∨ st = failed) as Hst.
    { unfold reachable in Hreach. fold start in Hreach.
      eapply (rtc_ind_r (λ st, st = start ∨ st = failed)); [by left| |exact Hreach].
      intros y z _ Hstep [-> | ->].
      - right. by apply Hfirst.
      - by destruct (Hlast z). }
    split; [done|]. by destruct Hst as [Hst|Hst]; rewrite Hst.
Qed.

Lemma scrape_all_bounded_concurrency_witness :
  1 ≤ max_concurrent Examples.engine_of_two ∧
  finished
    (run Examples.working_browser Examples.flaky_scraper
       (measure Examples.flaky_scraper (scrape_all Examples.engine_of_two))
       (scrape_all Examples.engine_of_two)) = true.
Proof.
  assert (1 ≤ max_concurrent Examples.engine_of_two) as Hmax by (simpl; lia).
  split; [exact Hmax|].
  exact (proj1 (proj2 (scrape_all_bounded_concurrency
                         Examples.working_browser Examples.flaky_scraper
                         Examples.engine_of_two Hmax))).
Defined.

Lemma scrape_all_failure_isolation_witness :
  1 ≤ max_concurrent Examples.engine_of_two ∧
  chromium_launch Examples.working_browser = Ok () ∧
  browser_new_context Examples.working_browser = Ok () ∧
  context_close Examples.working_browser = Ok () ∧
  browser_close Examples.working_browser = Ok () ∧
  st_phase
    (run Examples.working_browser Examples.failing_scraper
       (measure Examples.failing_scraper (scrape_all Examples.engine_of_two))
       (scrape_all Examples.engine_of_two))
  = Returned [].
Proof.
  assert (1 ≤ max_concurrent Examples.engine_of_two) as Hmax by (simpl; lia).
  split_and!; [exact Hmax|reflexivity..|].
  destruct (scrape_all_failure_isolation
              Examples.working_browser Examples.failing_scraper
              Examples.engine_of_two Hmax eq_refl eq_refl eq_refl eq_refl)
    as ([_ Hfinal] & _ & _ & Hnone).
  rewrite Hfinal, Hnone; [reflexivity|].
  intros url product_id. by exists PlaywrightError.
Defined.

(** Two runs in which every extraction raises.  In the first the context
    does not close: [scrape_all] raises and [browser.close()] is never
    called.  In the second the extractions end with [CancelledError]:
    [scrape_all] returns a list of five exception objects. *)
Lemma scrape_all_failure_isolation_counterexample :
  let stuck :=
    run Examples.stuck_browser Examples.failing_scraper
      (measure Examples.failing_scraper (scrape_all Examples.engine_of_two))
      (scrape_all Examples.engine_of_two) in
  let cancelled :=
    run Examples.working_browser Examples.cancelled_scraper
      (measure Examples.cancelled_scraper (scrape_all Examples.engine_of_two))
      (scrape_all Examples.engine_of_two) in
  (st_phase stuck = Failed PlaywrightError ∧
   count BrowserClosed (st_trace stuck) = 0%nat) ∧
  st_phase cancelled = Returned (replicate 5 CancelledErrorObject).
Proof. vm_compute. repeat split. Qed.

Lemma scrape_all_backend_unavailable_witness :
  chromium_launch Examples.missing_browser = Raise PlaywrightError ∧
  ∀ st, reachable Examples.missing_browser Examples.flaky_scraper
          Examples.engine_of_two st →
        st_tasks st = [] ∧ pages_opened (st_trace st) = 0%nat.
Proof.
  split; [reflexivity|]. intros st Hst.
  destruct (scrape_all_backend_unavailable
              Examples.missing_browser Examples.flaky_scraper
              Examples.engine_of_two PlaywrightError eq_refl)
    as (_ & _ & _ & Hall).
  destruct (Hall st Hst) as (_ & ? & _ & _ & ? & _). by split.
Defined.

(** The specification's scenario: bound 2, five targets, the extractions of
    targets 2 and 4 raise.  Three records come back, with the identifiers 1,
    3 and 5; the browser was opened once and closed once. *)
Example scrape_all_scenario :
  let final :=
    run Examples.working_browser Examples.flaky_scraper
      (measure Examples.flaky_scraper (scrape_all Examples.engine_of_two))
      (scrape_all Examples.engine_of_two) in
  (match st_phase final with
   | Returned ps => Some ((λ p, dict_get p "id") <$> records ps)
   | _ => None
   end) = Some [VInt 1; VInt 3; VInt 5] ∧
  count BrowserLaunched (st_trace final) = 1%nat ∧
  count BrowserClosed (st_trace final) = 1%nat ∧
  st_pages final = 0%nat.
Proof. vm_compute. repeat split. Qed.

(** With both permits taken a third task cannot enter; it can once a page
    is closed. *)
Example semaphore_blocks_third_task :
  let pw := Examples.working_browser in
  let sc := Examples.flaky_scraper in
  let st := run_schedule pw sc
              [DoLaunch; DoNewContext; DoTask 0; DoTask 1; DoTask 0; DoTask 1]
              (scrape_all Examples.engine_of_two) in
  st_pages st = 2%nat ∧ st_semaphore st = 0 ∧
  exec pw sc (DoTask 2) st = None ∧
  is_Some (exec pw sc (DoTask 2)
             (run_schedule pw sc [DoTask 0; DoTask 0] st)).
Proof. vm_compute. repeat split. by eexists. Qed.

End EngineFacts.

(** ** More about [merge_products] *)
Section merge_more.
Implicit Types (l : list product) (d : pydict product) (p : product) (k : key).

Lemma upsert_all_app skip l1 l2 d :
  upsert_all skip (l1 ++ l2) d = upsert_all skip l1 d ≫= upsert_all skip l2.
Proof.
  revert d. induction l1 as [|p l1 IH]; intros d; simpl; [done|].
  destruct (skip && is_none (get_id p)); [apply IH|].
  destruct (key_of (get_id p)); simpl; [apply IH|done].
Qed.

Lemma upsert_all_error skip l d e :
  upsert_all skip l d = Raise e →
  e = TypeError ∧ Exists (λ p, hashable (get_id p) = false) l.
Proof.
  revert d. induction l as [|p l IH]; intros d; simpl; [done|].
  destruct (skip && is_none (get_id p)).
  { intros [? ?]%IH. split; [done|by right]. }
  destruct (key_of (get_id p)) as [k|e'] eqn:Hk; simpl.
  { intros [? ?]%IH. split; [done|by right]. }
  intros [= ->]. destruct (get_id p) as [| | |[]| | |] eqn:Hp; simplify_eq/=.
  - split; [done|]. left. by rewrite Hp.
  - split; [done|]. left. by rewrite Hp.
Qed.

Lemma upsert_all_hashable skip l d :
  Forall (λ p, hashable (get_id p) = true) l → ∃ d', upsert_all skip l d = Ok d'.
Proof.
  intros Hl. revert d. induction Hl as [|p l Hp _ IH]; intros d; simpl.
  - by eexists.
  - destruct (skip && is_none (get_id p)); [apply IH|].
    destruct (get_id p) as [| | |[]| | |]; simplify_eq/=; apply IH.
Qed.

Lemma upsert_all_ok_hashable skip l d d' :
  upsert_all skip l d = Ok d' → Forall (λ p, hashable (get_id p) = true) l.
Proof.
  revert d. induction l as [|p l IH]; intros d; simpl; [by constructor|].
  destruct (skip && is_none (get_id p)) eqn:Hs.
  { intros ?%IH. constructor; [|done].
    apply andb_true_iff in Hs as [_ Hn]. by destruct (get_id p). }
  destruct (key_of (get_id p)) as [k|e'] eqn:Hk; simpl; [|done].
  intros ?%IH. constructor; [|done]. by destruct (get_id p).
Qed.

Lemma upsert_all_false_head l d d' k p :
  (∀ q, q ∈ l → key_of (get_id q) ≠ Ok k) →
  upsert_all false l d = Ok d' →
  upsert_all false l ((k, p) :: d) = Ok ((k, p) :: d').
Proof.
  revert d. induction l as [|q l IH]; intros d Hne Hrun; simpl in Hrun |- *.
  - by injection Hrun as <-.
  - assert (∀ q0, q0 ∈ l → key_of (get_id q0) ≠ Ok k) as Hne'.
    { intros q0 ?. apply Hne. by right. }
    destruct (key_of (get_id q)) as [kq|e] eqn:Hk; simpl in Hrun |- *; [|done].
    rewrite decide_False; [by apply IH|].
    intros ->. by apply (Hne q); [left|].
Qed.

(** The comprehension rebuilds a dict from its own values. *)
Lemma index_by_id_values d :
  NoDup (dict_keys d) → coherent d → upsert_all false (dict_values d) [] = Ok d.
Proof.
  unfold dict_keys, dict_values, coherent.
  induction d as [|[k p] d IH]; intros Hnd Hco; csimpl; [done|].
  apply NoDup_cons in Hnd as [Hk Hnd]. apply Forall_cons in Hco as [Hkp Hco].
  simpl in Hkp. rewrite Hkp. simpl.
  apply upsert_all_false_head; [|by apply IH].
  intros q [[kq q'] [-> Hq]]%list_elem_of_fmap Heq. simpl in *.
  rewrite Forall_forall in Hco. specialize (Hco _ Hq). simpl in Hco.
  assert (kq = k) as -> by congruence.
  apply Hk, list_elem_of_fmap. by exists (k, q').
Qed.

Lemma merge_products_dict C X M :
  merge_products C X = Ok M →
  ∃ d0 d1, upsert_all false C [] = Ok d0 ∧ upsert_all true X d0 = Ok d1 ∧
           M = dict_values d1 ∧ NoDup (dict_keys d0) ∧ NoDup (dict_keys d1) ∧
           coherent d0 ∧ coherent d1.
Proof.
  unfold merge_products. rewrite index_by_id_upsert.
  destruct (upsert_all false C []) as [d0|e] eqn:H0; simpl; [|done].
  rewrite update_all_upsert.
  destruct (upsert_all true X d0) as [d1|e] eqn:H1; simpl; [|done].
  intros [= <-]. exists d0, d1.
  assert (NoDup (dict_keys d0)) by (eapply upsert_all_NoDup; [done|constructor]).
  assert (coherent d0) by (eapply upsert_all_coherent; [done|constructor]).
  split_and!; try done.
  - by eapply upsert_all_NoDup.
  - by eapply upsert_all_coherent.
Qed.

(** The records of a dict stored under one key. *)
Lemma dict_values_filter_key d k :
  NoDup (dict_keys d) → coherent d →
  filter (λ r, key_of (get_id r) = Ok k) (dict_values d)
  = option_list (dict_lookup d k).
Proof.
  unfold dict_keys, dict_values, coherent.
  induction d as [|[k0 p0] d IH]; intros Hnd Hco; csimpl; [done|].
  apply NoDup_cons in Hnd as [Hk0 Hnd]. apply Forall_cons in Hco as [Hkp Hco].
  simpl in Hkp. rewrite filter_cons. rewrite Hkp.
  destruct (decide (k0 = k)) as [->|Hne].
  - rewrite decide_True by done. simpl. f_equal.
    rewrite IH by done.
    assert (dict_lookup d k = None) as ->; [|done].
    by apply dict_lookup_None.
  - rewrite decide_False by congruence. by apply IH.
Qed.

Lemma stored_last_false_None l :
  stored_last false KNone l = last (filter (λ p, get_id p = VNone) l).
Proof.
  induction l as [|p l IH]; [done|]. simpl. rewrite IH, filter_cons.
  destruct (decide (get_id p = VNone)) as [Hp|Hp].
  - rewrite last_cons. destruct (last _); [done|].
    rewrite decide_True; [done|]. by apply key_of_None.
  - destruct (last _); [done|].
    rewrite decide_False; [done|]. by rewrite key_of_None.
Qed.

Lemma stored_last_elem skip k l p :
  stored_last skip k l = Some p → p ∈ l ∧ key_of (get_id p) = Ok k.
Proof.
  induction l as [|q l IH]; [done|]. simpl.
  destruct (stored_last skip k l) as [q'|].
  - intros [= ->]. destruct IH as [? ?]; [done|]. split; [by right|done].
  - destruct (skip && is_none (get_id q)); [done|].
    case_decide; [|done]. intros [= ->]. split; [by left|done].
Qed.

Lemma dict_set_fresh d k p :
  k ∉ dict_keys d → dict_set d k p = d ++ [(k, p)].
Proof.
  unfold dict_keys. induction d as [|[k0 p0] d IH]; csimpl; [done|].
  intros [? ?]%not_elem_of_cons. rewrite decide_False by done. by rewrite IH.
Qed.

(** The comprehension over a catalog with unique integer ids keeps every
    record, in order. *)
Lemma index_by_id_unique l d :
  Forall has_int_id l → NoDup (get_id <$> l) →
  (∀ p z, p ∈ l → get_id p = VInt z → int_key z ∉ dict_keys d) →
  ∃ ks, upsert_all false l d = Ok (d ++ zip ks l) ∧ length ks = length l.
Proof.
  intros Hl. revert d. induction Hl as [|p l [z Hz] _ IH]; intros d Hnd Hfresh.
  - exists []. simpl. by rewrite app_nil_r.
  - rewrite fmap_cons in Hnd. apply NoDup_cons in Hnd as [Hp Hnd].
    simpl. rewrite Hz. simpl. fold (int_key z).
    rewrite dict_set_fresh by (eapply Hfresh; [by left|done]).
    destruct (IH (d ++ [(int_key z, p)])) as (ks & Hks & Hlen); [done| |].
    { intros q z' Hq Hz'. unfold dict_keys. rewrite fmap_app, elem_of_app.
      intros [Hin|Hin].
      - eapply Hfresh; [by right|done|done].
      - apply list_elem_of_singleton in Hin. apply int_key_inj in Hin as ->.
        apply Hp. rewrite Hz, <- Hz'. by apply list_elem_of_fmap_2. }
    exists (int_key z :: ks). rewrite Hks, <- app_assoc. simpl.
    split; [done|]. by rewrite Hlen.
Qed.

(** Two dicts with the same keys in the same order and the same item under
    each key are one dict. *)
Lemma dict_ext d1 d2 :
  NoDup (dict_keys d1) → dict_keys d2 = dict_keys d1 →
  (∀ k, dict_lookup d2 k = dict_lookup d1 k) → d2 = d1.
Proof.
  unfold dict_keys. revert d2.
  induction d1 as [|[k1 p1] d1 IH]; intros [|[k2 p2] d2] Hnd Hkeys Hlook;
    csimpl in *; try done.
  injection Hkeys as -> Hkeys. apply NoDup_cons in Hnd as [Hk1 Hnd].
  pose proof (Hlook k1) as Hhead. simpl in Hhead.
  rewrite !decide_True in Hhead by done. injection Hhead as ->.
  f_equal. apply IH; [done|done|].
  intros k. specialize (Hlook k). simpl in Hlook.
  destruct (decide (k1 = k)) as [<-|Hne]; [|done].
  transitivity (@None product).
  - apply dict_lookup_None. unfold dict_keys. by rewrite Hkeys.
  - symmetry. by apply dict_lookup_None.
Qed.

Lemma stored_last_is_Some skip l p k :
  p ∈ l → (skip && is_none (get_id p)) = false → key_of (get_id p) = Ok k →
  is_Some (stored_last skip k l).
Proof.
  intros Hp Hskip Hk. induction l as [|q l IH]; [by apply elem_of_nil in Hp|].
  simpl. apply elem_of_cons in Hp as [<-|Hp].
  - destruct (stored_last skip k l); [by eexists|].
    rewrite Hskip. rewrite decide_True by done. by eexists.
  - destruct (IH Hp) as [x ->]. by eexists.
Qed.

Lemma upsert_all_keys_absorb skip l d d' :
  (∀ p k, p ∈ l → (skip && is_none (get_id p)) = false →
          key_of (get_id p) = Ok k → k ∈ dict_keys d) →
  upsert_all skip l d = Ok d' → dict_keys d' = dict_keys d.
Proof.
  revert d. induction l as [|p l IH]; intros d Hin Hrun; simpl in Hrun.
  - by injection Hrun as <-.
  - assert (∀ d0, dict_keys d0 = dict_keys d →
              ∀ q k, q ∈ l → (skip && is_none (get_id q)) = false →
                     key_of (get_id q) = Ok k → k ∈ dict_keys d0) as Hin'.
    { intros d0 -> q k ? ? ?. eapply Hin; [by right|done|done]. }
    destruct (skip && is_none (get_id p)) eqn:Hskip.
    + apply IH; [by apply Hin'|done].
    + destruct (key_of (get_id p)) as [k|e] eqn:Hk; simpl in Hrun; [|done].
      assert (dict_keys (dict_set d k p) = dict_keys d) as Hset.
      { rewrite dict_set_keys, decide_True; [done|].
        eapply Hin; [by left|done|done]. }
      rewrite <- Hset. apply IH; [by apply Hin'|done].
Qed.

(** Running a pass a second time changes nothing. *)
Lemma upsert_all_twice skip l d d1 :
  NoDup (dict_keys d) → upsert_all skip l d = Ok d1 → upsert_all skip l d1 = Ok d1.
Proof.
  intros Hnd Hrun.
  destruct (upsert_all_hashable skip l d1) as [d2 Hrun2];
    [by eapply upsert_all_ok_hashable|].
  rewrite Hrun2. f_equal. apply dict_ext.
  - by eapply upsert_all_NoDup.
  - eapply upsert_all_keys_absorb; [|done].
    intros p k Hp Hskip Hk. apply dec_stable. intros Hnot.
    apply dict_lookup_None in Hnot.
    rewrite (upsert_all_lookup _ _ _ _ _ Hrun) in Hnot.
    destruct (stored_last_is_Some skip l p k Hp Hskip Hk) as [x Hx].
    by rewrite Hx in Hnot.
  - intros k. rewrite (upsert_all_lookup _ _ _ _ _ Hrun2).
    rewrite (upsert_all_lookup _ _ _ _ _ Hrun).
    by destruct (stored_last skip k l).
Qed.

End merge_more.

Module MergeExtra.

(** X1.  [merge_products] raises exactly when some record of the catalog or
    of the incoming list carries an unhashable id (a list or a dict), and
    what it raises is then a [TypeError]; on all other inputs it returns. *)
Theorem merge_products_raises (C X : list product) :
  ((∃ M, merge_products C X = Ok M) ↔
   Forall (λ p, hashable (get_id p) = true) (C ++ X)) ∧
  (∀ e, merge_products C X = Raise e → e = TypeError).
Proof.
  assert (∀ e, merge_products C X = Raise e →
               e = TypeError ∧ Exists (λ p, hashable (get_id p) = false) (C ++ X))
    as Herr.
  { intros e. unfold merge_products.
    rewrite index_by_id_upsert.
    destruct (upsert_all false C []) as [d0|e0] eqn:H0; simpl.
    - rewrite update_all_upsert.
      destruct (upsert_all true X d0) as [d1|e1] eqn:H1; simpl; [done|].
      intros [= ->]. apply upsert_all_error in H1 as [-> ?].
      split; [done|]. apply Exists_app. by right.
    - intros [= ->]. apply upsert_all_error in H0 as [-> ?].
      split; [done|]. apply Exists_app. by left. }
  split; [|intros e He; by destruct (Herr e He)].
  split.
  - intros [M HM].
    destruct (merge_products_dict _ _ _ HM) as (d0 & d1 & H0 & H1 & _).
    apply Forall_app. split; by eapply upsert_all_ok_hashable.
  - intros Hall. apply Forall_app in Hall as [HC HX].
    unfold merge_products. rewrite index_by_id_upsert.
    destruct (upsert_all_hashable false C [] HC) as [d0 ->]. simpl.
    rewrite update_all_upsert.
    destruct (upsert_all_hashable true X d0 HX) as [d1 ->]. simpl. by eexists.
Qed.

(** X2.  Merging two batches one after the other is merging their
    concatenation: [merge(merge(C, X), Y) = merge(C, X + Y)], as ordered lists,
    and one side raises when the other does. *)
Theorem merge_products_batches (C X Y : list product) :
  merge_products C X ≫= (λ M, merge_products M Y) = merge_products C (X ++ Y).
Proof.
  destruct (merge_products C X) as [M|e] eqn:HM; simpl.
  - destruct (merge_products_dict _ _ _ HM)
      as (d0 & d1 & H0 & H1 & -> & Hnd0 & Hnd1 & Hco0 & Hco1).
    unfold merge_products. rewrite !index_by_id_upsert, H0.
    rewrite index_by_id_values by done. simpl.
    by rewrite !update_all_upsert, upsert_all_app, H1.
  - unfold merge_products in *. rewrite index_by_id_upsert in *.
    destruct (upsert_all false C []) as [d0|e0]; simpl in *; [|done].
    rewrite update_all_upsert in *. rewrite upsert_all_app.
    by destruct (upsert_all true X d0).
Qed.

(** X3.  Records without an id (the key is missing, or its value is
    [None]) are treated differently on the two sides: those of the incoming
    list are ignored altogether, and of those of the catalog exactly the last
    one is kept. *)
Theorem merge_products_without_id (C X : list product) :
  merge_products C X = merge_products C (filter has_id X) ∧
  ∀ M, merge_products C X = Ok M →
       filter (λ r, get_id r = VNone) M
       = option_list (last (filter (λ p, get_id p = VNone) C)).
Proof.
  split.
  - unfold merge_products.
    destruct (index_by_id C []) as [d0|e]; simpl; [|done].
    f_equal. generalize d0 as d. clear.
    induction X as [|p X IH]; intros d; [done|].
    rewrite filter_cons. simpl.
    destruct (decide (has_id p)) as [Hp|Hp]; unfold has_id, get_id in Hp.
    + simpl. destruct (is_none (dict_get p "id")) eqn:Hn.
      { by destruct (dict_get p "id"). }
      destruct (key_of (dict_get p "id")); simpl; [apply IH|done].
    + apply dec_stable in Hp. rewrite Hp. simpl. apply IH.
  - intros M HM.
    destruct (merge_products_dict _ _ _ HM)
      as (d0 & d1 & H0 & H1 & -> & Hnd0 & Hnd1 & Hco0 & Hco1).
    transitivity (filter (λ r, key_of (get_id r) = Ok KNone) (dict_values d1)).
    { apply list_filter_iff. intros r. by rewrite key_of_None. }
    rewrite dict_values_filter_key by done. f_equal.
    rewrite (upsert_all_lookup _ _ _ _ _ H1), stored_last_skip_None.
    rewrite (upsert_all_lookup _ _ _ _ _ H0). simpl.
    rewrite stored_last_false_None. by destruct (last _).
Qed.

Lemma merge_products_without_id_witness :
  filter (λ r, get_id r = VNone)
    [[("name", VStr "kept")]; [("id", VInt 1); ("name", VStr "A")]]
  = option_list
      (last (filter (λ p, get_id p = VNone)
               [[("name", VStr "dropped")]; [("name", VStr "kept")];
                [("id", VInt 1); ("name", VStr "A")]])).
Proof.
  apply (proj2 (merge_products_without_id
                  [[("name", VStr "dropped")]; [("name", VStr "kept")];
                   [("id", VInt 1); ("name", VStr "A")]]
                  [[("name", VStr "ignored")]])).
  vm_compute. reflexivity.
Defined.

(** X4.  Updates happen in place and new records are appended: for a
    catalog with unique integer ids, the merged list is the catalog in its
    own order, each record replaced by the incoming list's last version of it
    when there is one, followed by records of the incoming list whose ids the
    catalog does not have. *)
Theorem merge_products_in_place (C X : list product) :
  Forall has_int_id C → Forall has_int_id X → NoDup (get_id <$> C) →
  ∃ N, merge_products C X = Ok ((replaced_by X <$> C) ++ N) ∧
       ∀ r, r ∈ N → r ∈ X ∧ get_id r ∉ get_id <$> C.
Proof.
  intros HC HX HndC.
  destruct (merge_products_int_items C X HC HX)
    as (d & Hrun & Hnd & Hco & Hlook & Hitems).
  destruct (merge_products_dict _ _ _ Hrun)
    as (d0 & d1 & H0 & H1 & Hval & Hnd0 & Hnd1 & Hco0 & Hco1).
  destruct (index_by_id_unique C [] HC HndC) as (ks & Hks & Hlen).
  { intros p z _ _. apply not_elem_of_nil. }
  rewrite H0 in Hks. simpl in Hks. injection Hks as ->.
  pose proof (upsert_all_prefix _ _ _ _ H1) as [ks' Hpre].
  assert (∀ z, dict_lookup d1 (int_key z) =
               match version_of z X with Some x => Some x | None => version_of z C end)
    as Hlook1.
  { intros z. rewrite (upsert_all_lookup _ _ _ _ _ H1).
    rewrite (upsert_all_lookup _ _ _ _ _ H0). simpl.
    rewrite !stored_last_int by done. by destruct (version_of z C). }
  exists (dict_values (drop (length C) d1)). split.
  - rewrite Hrun, Hval. f_equal.
    rewrite <- (take_drop (length C) d1) at 1.
    unfold dict_values at 1. rewrite fmap_app. f_equal.
    apply list_eq. intros i. rewrite !list_lookup_fmap, lookup_take.
    case_decide as Hi.
    + destruct (lookup_lt_is_Some_2 C i Hi) as [p Hp]. rewrite Hp. simpl.
      assert (dict_keys d1 !! i = dict_keys (zip ks C) !! i) as Hki.
      { rewrite Hpre. rewrite lookup_app_l; [done|].
        unfold dict_keys. rewrite length_fmap, length_zip. lia. }
      destruct (lookup_lt_is_Some_2 ks i) as [k Hk]; [lia|].
      assert (zip ks C !! i = Some (k, p)) as Hz.
      { rewrite lookup_zip_with. rewrite Hk. simpl. by rewrite Hp. }
      unfold dict_keys in Hki. rewrite !list_lookup_fmap, Hz in Hki. simpl in Hki.
      apply fmap_Some in Hki as ([k' r] & Hd1 & Hkk). simpl in Hkk. subst k'.
      rewrite Hd1. simpl. f_equal.
      rewrite Forall_forall in HC. destruct (HC p) as [z Hpz].
      { by eapply list_elem_of_lookup_2. }
      assert (k = int_key z) as ->.
      { unfold coherent in Hco0. rewrite Forall_forall in Hco0.
        specialize (Hco0 (k, p)). simpl in Hco0. rewrite Hpz in Hco0.
        simpl in Hco0. symmetry.
        assert (@Ok exn _ (int_key z) = Ok k) as Heq; [|congruence].
        apply Hco0. by eapply list_elem_of_lookup_2. }
      assert (dict_lookup d1 (int_key z) = Some r) as Hr.
      { apply dict_lookup_elem; [done|]. by eapply list_elem_of_lookup_2. }
      rewrite Hlook1 in Hr. unfold replaced_by. rewrite Hpz.
      destruct (version_of z X); simplify_eq/=; [done|].
      rewrite (version_of_NoDup z C p) in Hr; [congruence|done| |done].
      by eapply list_elem_of_lookup_2.
    + rewrite (lookup_ge_None_2 C) by lia. done.
  - intros r [k Hin]%dict_values_elem.
    apply list_elem_of_lookup in Hin as [i Hi]. rewrite lookup_drop in Hi.
    assert ((k, r) ∈ d1) as Hin1 by by eapply list_elem_of_lookup_2.
    assert (k ∉ dict_keys (zip ks C)) as Hfresh.
    { intros Hk. apply list_elem_of_lookup in Hk as [j Hj].
      assert (j < length C)%nat as Hjlt.
      { apply lookup_lt_Some in Hj. unfold dict_keys in Hj.
        rewrite length_fmap, length_zip in Hj. lia. }
      assert (dict_keys d1 !! j = Some k) as Hj1.
      { rewrite Hpre. by rewrite lookup_app_l by (by eapply lookup_lt_Some). }
      assert (dict_keys d1 !! (length C + i)%nat = Some k) as Hi1.
      { unfold dict_keys. by rewrite list_lookup_fmap, Hi. }
      pose proof (NoDup_lookup _ _ _ _ Hnd1 Hj1 Hi1). lia. }
    apply dict_lookup_elem in Hin1; [|done].
    rewrite (upsert_all_lookup _ _ _ _ _ H1) in Hin1.
    destruct (stored_last true k X) as [x|] eqn:Hx.
    + injection Hin1 as ->. apply stored_last_elem in Hx as [HrX Hkr].
      split; [done|]. intros [p [Hpr Hp]]%list_elem_of_fmap.
      apply Hfresh.
      apply list_elem_of_lookup in Hp as [j Hj].
      destruct (lookup_lt_is_Some_2 ks j) as [kj Hkj].
      { apply lookup_lt_Some in Hj. lia. }
      assert (zip ks C !! j = Some (kj, p)) as Hz.
      { rewrite lookup_zip_with. rewrite Hkj. simpl. by rewrite Hj. }
      assert (key_of (get_id p) = Ok kj) as Hkp.
      { unfold coherent in Hco0. rewrite Forall_forall in Hco0.
        apply (Hco0 (kj, p)). by eapply list_elem_of_lookup_2. }
      assert (kj = k) as -> by congruence.
      apply list_elem_of_fmap. exists (k, p). split; [done|].
      by eapply list_elem_of_lookup_2.
    + exfalso. apply dict_lookup_None in Hfresh. congruence.
Qed.

Lemma merge_products_in_place_witness :
  ∃ N, merge_products Examples.scenario_catalog Examples.scenario_incoming
       = Ok ((replaced_by Examples.scenario_incoming <$> Examples.scenario_catalog) ++ N) ∧
       ∀ r, r ∈ N → r ∈ Examples.scenario_incoming ∧
                    get_id r ∉ get_id <$> Examples.scenario_catalog.
Proof.
  apply (merge_products_in_place Examples.scenario_catalog Examples.scenario_incoming).
  - repeat constructor; by eexists.
  - repeat constructor; by eexists.
  - apply NoDup_singleton.
Defined.

(** X17.  Merging the same batch a second time changes nothing:
    [merge(merge(C, X), X) = merge(C, X)], as ordered lists, so running a
    scrape twice leaves the catalog as the first run left it. *)
Theorem merge_products_again (C X : list product) :
  merge_products C X ≫= (λ M, merge_products M X) = merge_products C X.
Proof.
  destruct (merge_products C X) as [M|e] eqn:HM; simpl; [|done].
  destruct (merge_products_dict _ _ _ HM)
    as (d0 & d1 & H0 & H1 & -> & Hnd0 & Hnd1 & Hco0 & Hco1).
  unfold merge_products. rewrite index_by_id_upsert.
  rewrite index_by_id_values by done. simpl.
  rewrite update_all_upsert. by rewrite (upsert_all_twice _ _ _ _ Hnd0 H1).
Qed.

End MergeExtra.

(** ** More about [load_products] and [save_products] *)
Module StoreExtra.
Section store_extra.
Variable os_error : syscall → path → option exn.
Variable dump_error : path → value → option (exn * string).
Variable json_dumps : value → string.
Variable json_loads : string → result value.

#[local] Abbreviation path_exists := (path_exists os_error).
#[local] Abbreviation is_dir := (is_dir os_error).
#[local] Abbreviation os_mkdir := (os_mkdir os_error).
#[local] Abbreviation unless_is_dir := (unless_is_dir os_error).
#[local] Abbreviation mkdir_leaf := (mkdir_leaf os_error).
#[local] Abbreviation mkdir_parents := (mkdir_parents os_error).
#[local] Abbreviation open_w := (open_w os_error).
#[local] Abbreviation json_dump := (json_dump dump_error json_dumps).
#[local] Abbreviation load_products := (load_products os_error).
#[local] Abbreviation save_products := (save_products os_error dump_error).

(** What the calls behind [save_products] may change. *)
Lemma os_mkdir_cases d s r s' :
  os_mkdir d s = (r, s') →
  ((∃ e, r = Raise e) ∧ s' = s) ∨
  (r = Ok () ∧ d ≠ [] ∧ s !! d = None ∧ fs_node s (parent d) = Some Dir ∧
   s' = <[d := Dir]> s).
Proof.
  unfold Helpers.os_mkdir. destruct (os_error Mkdir d) as [e|].
  { intros [= <- <-]. left. split; [by eexists|done]. }
  destruct (fs_node s d) as [n|] eqn:Hd.
  { intros [= <- <-]. left. split; [by eexists|done]. }
  destruct (fs_node s (parent d)) as [[|content]|] eqn:Hp; intros [= <- <-].
  - right. destruct d as [|c d]; [done|]. by split_and!.
  - left. split; [by eexists|done].
  - left. split; [by eexists|done].
Qed.

Lemma unless_is_dir_cases d e s r s' :
  unless_is_dir d e s = (r, s') →
  s' = s ∧
  (r = Ok () → is_OSError e = true ∧ os_error Stat d = None ∧
               fs_node s d = Some Dir).
Proof.
  unfold Helpers.unless_is_dir, Helpers.is_dir, os_stat.
  destruct (is_OSError e); [|by intros [= <- <-]].
  destruct (os_error Stat d) as [e'|].
  { destruct (ignored_error e'); by intros [= <- <-]. }
  destruct (fs_node s d) as [[|content]|]; simpl; by intros [= <- <-].
Qed.

Lemma mkdir_leaf_cases d s r s' :
  mkdir_leaf d s = (r, s') →
  s' = s ∨
  (r = Ok () ∧ d ≠ [] ∧ s !! d = None ∧ fs_node s (parent d) = Some Dir ∧
   s' = <[d := Dir]> s).
Proof.
  unfold Helpers.mkdir_leaf, io_try.
  destruct (Helpers.os_mkdir os_error d s) as [r1 s1] eqn:Hmk.
  destruct (os_mkdir_cases _ _ _ _ Hmk) as [[[e ->] ->]|(-> & ? & ? & ? & ->)].
  - destruct e; unfold io_raise;
      try (intros [= <- <-]; by left);
      intros [-> _]%unless_is_dir_cases; by left.
  - intros [= <- <-]. right. by split_and!.
Qed.

(** What [mkdir(parents=True, exist_ok=True)] may change: it only adds
    directories, and only at the path or above it. *)
Lemma mkdir_parents_frame d s r s' :
  mkdir_parents d s = (r, s') →
  ∀ q, s' !! q = s !! q ∨
       (s !! q = None ∧ s' !! q = Some Dir ∧ q `suffix_of` d ∧ q ≠ []).
Proof.
  revert s r s'. induction d as [|c d IH]; intros s r s'.
  - cbn. unfold io_try.
    destruct (Helpers.os_mkdir os_error [] s) as [r1 s1] eqn:Hmk.
    destruct (os_mkdir_cases _ _ _ _ Hmk) as [[[e ->] ->]|(-> & ? & _)]; [|done].
    destruct e; unfold io_raise;
      try (intros [= <- <-] q; by left);
      intros [-> _]%unless_is_dir_cases q; by left.
  - cbn [Helpers.mkdir_parents]. unfold io_try.
    destruct (Helpers.os_mkdir os_error (c :: d) s) as [r1 s1] eqn:Hmk.
    destruct (os_mkdir_cases _ _ _ _ Hmk)
      as [[[e ->] ->]|(-> & ? & Hd & ? & ->)].
    2:{ intros [= <- <-] q. destruct (decide (q = c :: d)) as [->|Hq].
        - right. rewrite lookup_insert_eq. by split_and!.
        - left. by rewrite lookup_insert_ne. }
    destruct e;
      try (intros [-> _]%unless_is_dir_cases q; by left).
    unfold io_bind.
    destruct (Helpers.mkdir_parents os_error d s) as [[[]|e] s1] eqn:Hrun.
    + pose proof (IH _ _ _ Hrun) as Hframe.
      assert (∀ q, s1 !! q = s !! q ∨
                (s !! q = None ∧ s1 !! q = Some Dir ∧ q `suffix_of` c :: d ∧ q ≠ []))
        as Hframe'.
      { intros q. destruct (Hframe q) as [?|(? & ? & ? & ?)]; [by left|right].
        split_and!; [done|done|by apply suffix_cons_r|done]. }
      intros [->|(-> & _ & Hd1 & _ & ->)]%mkdir_leaf_cases; [done|].
      intros q. destruct (decide (q = c :: d)) as [->|Hq].
      * right. rewrite lookup_insert_eq.
        destruct (Hframe (c :: d)) as [Heq|(_ & ? & _)]; [|congruence].
        rewrite <- Heq. by split_and!.
      * rewrite lookup_insert_ne by done. apply Hframe'.
    + intros [= <- <-] q.
      destruct (IH _ _ _ Hrun q) as [?|(? & ? & ? & ?)]; [by left|].
      right. split_and!; [done|done|by apply suffix_cons_r|done].
Qed.

Lemma open_w_cases p s r s' :
  open_w p s = (r, s') →
  ((∃ e, r = Raise e) ∧ s' = s) ∨
  (r = Ok () ∧ p ≠ [] ∧ os_error OpenWrite p = None ∧ s !! p ≠ Some Dir ∧
   fs_node s (parent p) = Some Dir ∧ s' = <[p := File EmptyString]> s).
Proof.
  unfold Helpers.open_w. destruct (os_error OpenWrite p) as [e|].
  { intros [= <- <-]. left. split; [by eexists|done]. }
  destruct p as [|c p].
  { intros [= <- <-]. left. split; [by eexists|done]. }
  cbn [fs_node].
  destruct (s !! (c :: p)) as [[|?]|] eqn:Hp;
    destruct (fs_node s (parent (c :: p))) as [[|?]|] eqn:Hpar;
    intros [= <- <-];
    first [left; split; [by eexists|done] | right; by split_and!].
Qed.

Lemma json_dump_cases v p s r s' :
  json_dump v p s = (r, s') →
  (r = Ok () ∧ dump_error p v = None ∧ s' = <[p := File (json_dumps v)]> s) ∨
  (∃ e written, r = Raise e ∧ dump_error p v = Some (e, written) ∧
                s' = <[p := File written]> s).
Proof.
  unfold Helpers.json_dump. destruct (dump_error p v) as [[e written]|];
    intros [= <- <-]; [right; by eexists _, _|by left].
Qed.

(** X5.  [save_products] never raises; whatever it answers, no other file or
    directory is changed or removed: it may only add directories above the
    target.  When it answers [True] the target holds the text of the
    catalog.  When it answers [False] the target is what it was before,
    unless the file was opened, and so emptied, and [json.dump] then raised:
    the target then holds what was written of the document. *)
Theorem save_products_frame (products : list product) (file_path : path) (s : fs) :
  ∃ ok s', save_products json_dumps products file_path s = (Ok ok, s') ∧
    (∀ q, q ≠ file_path →
       s' !! q = s !! q ∨
       (s !! q = None ∧ s' !! q = Some Dir ∧ q `suffix_of` parent file_path)) ∧
    (ok = true →
       s' !! file_path = Some (File (json_dumps (catalog_value products)))) ∧
    (ok = false →
       s' !! file_path = s !! file_path ∨
       ∃ e written,
         dump_error file_path (catalog_value products) = Some (e, written) ∧
         s' !! file_path = Some (File written)).
Proof.
  unfold Helpers.save_products, io_try, io_bind, io_ret.
  destruct (Helpers.mkdir_parents os_error (parent file_path) s) as [r1 s1] eqn:Hmk.
  pose proof (mkdir_parents_frame _ _ _ _ Hmk) as Hframe.
  assert (s1 !! file_path = s !! file_path) as Htarget.
  { destruct (Hframe file_path) as [?|(_ & _ & Hsuf & Hne)]; [done|].
    destruct file_path as [|c d]; [done|].
    simpl in Hsuf. by apply suffix_cons_not in Hsuf. }
  assert (∀ q, q ≠ file_path →
     s1 !! q = s !! q ∨
     (s !! q = None ∧ s1 !! q = Some Dir ∧ q `suffix_of` parent file_path))
    as Hothers.
  { intros q _. destruct (Hframe q) as [?|(? & ? & ? & ?)]; [by left|by right]. }
  destruct r1 as [[]|e].
  2:{ eexists _, _. split; [done|]. split_and!; [done|done|by left]. }
  destruct (Helpers.open_w os_error file_path s1) as [r2 s2] eqn:Hopen.
  destruct (open_w_cases _ _ _ _ Hopen)
    as [[[e ->] ->]|(-> & ? & ? & ? & ? & ->)].
  { eexists _, _. split; [done|]. split_and!; [done|done|by left]. }
  destruct (Helpers.json_dump dump_error json_dumps _ file_path _)
    as [r3 s3] eqn:Hdump.
  destruct (json_dump_cases _ _ _ _ _ Hdump)
    as [(-> & ? & ->)|(e & written & -> & ? & ->)].
  - eexists _, _. split; [done|]. split_and!; [|intros _; apply lookup_insert_eq|done].
    intros q Hq. rewrite !lookup_insert_ne by done. by apply Hothers.
  - eexists _, _. split; [done|]. split_and!; [|done|].
    + intros q Hq. rewrite !lookup_insert_ne by done. by apply Hothers.
    + intros _. right. exists e, written. split; [done|]. apply lookup_insert_eq.
Qed.

(** *** Trees *)

Lemma suffix_cons_cases {A} (l1 l2 : list A) (y : A) :
  l1 `suffix_of` y :: l2 → l1 = y :: l2 ∨ l1 `suffix_of` l2.
Proof.
  destruct l1 as [|x l1]; [right; apply suffix_nil|apply suffix_cons_inv].
Qed.

Lemma well_formed_ancestors s d d' n :
  well_formed s → fs_node s d = Some n → d' `suffix_of` d → d' ≠ d →
  fs_node s d' = Some Dir.
Proof.
  intros Hwf. revert n. induction d as [|c d IH]; intros n Hd Hsuf Hne.
  - apply suffix_nil_inv in Hsuf. done.
  - apply suffix_cons_cases in Hsuf as [?|Hsuf]; [done|].
    simpl in Hd. pose proof (Hwf _ _ _ Hd) as Hp.
    destruct (decide (d' = d)) as [->|?]; [done|]. by eapply IH.
Qed.

Lemma well_formed_insert s c d n :
  well_formed s → fs_node s d = Some Dir → s !! (c :: d) ≠ Some Dir ∨ n = Dir →
  well_formed (<[c :: d := n]> s).
Proof.
  intros Hwf Hd Hn c' d' n' Hnew.
  assert (∀ q, fs_node s q = Some Dir → q ≠ c :: d ∨ n = Dir →
               fs_node (<[c :: d := n]> s) q = Some Dir) as Hkeep.
  { intros [|a q] Hq Hor; [done|]. simpl in *.
    destruct (decide (a :: q = c :: d)) as [Heq|Hneq].
    - rewrite Heq, lookup_insert_eq. destruct Hor as [?| ->]; [done|done].
    - by rewrite lookup_insert_ne. }
  destruct (decide (c' :: d' = c :: d)) as [Heq|Hne]; [injection Heq as -> ->|].
  - apply Hkeep; [done|]. left. intros Heq.
    apply (f_equal length) in Heq. simpl in Heq. lia.
  - rewrite lookup_insert_ne in Hnew by done.
    pose proof (Hwf _ _ _ Hnew) as Hp. apply Hkeep; [done|].
    destruct Hn as [Hn| ->]; [|by right]. left. intros ->.
    simpl in Hp. done.
Qed.

Lemma os_mkdir_well_formed d s r s' :
  well_formed s → os_mkdir d s = (r, s') → well_formed s'.
Proof.
  intros Hwf [[_ ->]|(_ & Hne & Hd & Hp & ->)]%os_mkdir_cases; [done|].
  destruct d as [|c d]; [done|]. apply well_formed_insert; [done|done|by right].
Qed.

Lemma mkdir_leaf_well_formed d s r s' :
  well_formed s → mkdir_leaf d s = (r, s') → well_formed s'.
Proof.
  intros Hwf [->|(_ & Hne & Hd & Hp & ->)]%mkdir_leaf_cases; [done|].
  destruct d as [|c d]; [done|]. apply well_formed_insert; [done|done|by right].
Qed.

Lemma mkdir_parents_well_formed d s r s' :
  well_formed s → mkdir_parents d s = (r, s') → well_formed s'.
Proof.
  revert s r s'. induction d as [|c d IH]; intros s r s' Hwf.
  - cbn. unfold io_try.
    destruct (Helpers.os_mkdir os_error [] s) as [r1 s1] eqn:Hmk.
    pose proof (os_mkdir_well_formed _ _ _ _ Hwf Hmk) as Hwf1.
    destruct r1 as [[]|e]; [by intros [= <- <-]|].
    destruct e; unfold io_raise; try (by intros [= <- <-]);
      by intros [-> _]%unless_is_dir_cases.
  - cbn [Helpers.mkdir_parents]. unfold io_try.
    destruct (Helpers.os_mkdir os_error (c :: d) s) as [[[]|e] s1] eqn:Hmk.
    + intros [= <- <-]. by eapply os_mkdir_well_formed.
    + pose proof (os_mkdir_well_formed _ _ _ _ Hwf Hmk) as Hwf1.
      destruct e; try (by intros [-> _]%unless_is_dir_cases).
      unfold io_bind.
      destruct (Helpers.mkdir_parents os_error d s1) as [[[]|e] s2] eqn:Hrec.
      * intros Hleaf. eapply mkdir_leaf_well_formed; [|done]. by eapply IH.
      * intros [= <- <-]. by eapply IH.
Qed.

(** When [mkdir(parents=True, exist_ok=True)] returns, the directory is
    there and no regular file was in the way. *)
Lemma mkdir_parents_success d s s' :
  well_formed s → mkdir_parents d s = (Ok (), s') →
  fs_node s' d = Some Dir ∧
  ∀ d' content, d' `suffix_of` d → fs_node s d' ≠ Some (File content).
Proof.
  intros Hwf. revert s'. induction d as [|c d IH]; intros s' Hrun.
  { split; [done|]. intros d' content ->%suffix_nil_inv. done. }
  assert (fs_node s (c :: d) = Some Dir →
          ∀ d' content, d' `suffix_of` c :: d →
                        fs_node s d' ≠ Some (File content)) as Hexists.
  { intros Hn d' content Hsuf.
    destruct (decide (d' = c :: d)) as [->|Hne]; [congruence|].
    by rewrite (well_formed_ancestors s (c :: d) d' Dir). }
  assert (fs_node s d = Some Dir → fs_node s (c :: d) = None →
          ∀ d' content, d' `suffix_of` c :: d →
                        fs_node s d' ≠ Some (File content)) as Hparent.
  { intros Hd Hcd d' content Hsuf.
    apply suffix_cons_cases in Hsuf as [->|Hsuf]; [congruence|].
    destruct (decide (d' = d)) as [->|Hne]; [congruence|].
    by rewrite (well_formed_ancestors s d d' Dir). }
  revert Hrun. cbn [Helpers.mkdir_parents]. unfold io_try.
  destruct (Helpers.os_mkdir os_error (c :: d) s) as [r1 s1] eqn:Hmk.
  destruct (os_mkdir_cases _ _ _ _ Hmk)
    as [[[e ->] ->]|(-> & _ & Hd & Hp & ->)].
  2:{ intros [= <-]. split; [simpl; apply lookup_insert_eq|]. by apply Hparent. }
  destruct e;
    try (intros [-> Hdir]%unless_is_dir_cases;
         destruct (Hdir eq_refl) as (_ & _ & Hd); split; [done|by apply Hexists]).
  unfold io_bind.
  destruct (Helpers.mkdir_parents os_error d s) as [[[]|e] s1] eqn:Hrec; [|done].
  destruct (IH _ eq_refl) as [Hd1 Hclear].
  pose proof (mkdir_parents_frame _ _ _ _ Hrec) as Hframe.
  intros Hleaf.
  assert (fs_node s' (c :: d) = Some Dir ∧
          (fs_node s (c :: d) = None ∨ fs_node s (c :: d) = Some Dir))
    as [Hs' Hs].
  { revert Hleaf. unfold Helpers.mkdir_leaf, io_try.
    destruct (Helpers.os_mkdir os_error (c :: d) s1) as [r2 s2] eqn:Hmk2.
    destruct (os_mkdir_cases _ _ _ _ Hmk2)
      as [[[e ->] ->]|(-> & _ & Hd2 & Hp2 & ->)].
    - assert (fs_node s1 (c :: d) = Some Dir →
              fs_node s (c :: d) = None ∨ fs_node s (c :: d) = Some Dir) as Hback.
      { simpl. destruct (Hframe (c :: d)) as [->|(? & _)]; [by right|by left]. }
      destruct e; unfold io_raise; try done;
        intros [-> Hdir]%unless_is_dir_cases;
        destruct (Hdir eq_refl) as (_ & _ & Hd); (split; [done|by apply Hback]).
    - intros [= <-]. split; [simpl; apply lookup_insert_eq|].
      simpl. destruct (Hframe (c :: d)) as [<-|(? & _)]; by left. }
  split; [done|]. intros d' content Hsuf.
  destruct Hs as [Hs|Hs]; [|by apply Hexists].
  apply suffix_cons_cases in Hsuf as [->|Hsuf]; [congruence|]. by apply Hclear.
Qed.

(** Where nothing is refused, [mkdir(parents=True, exist_ok=True)] succeeds
    when no regular file is in the way, and touches nothing outside the
    path's ancestors. *)
Lemma mkdir_parents_ok d s :
  (∀ call q, os_error call q = None) →
  (∀ d' content, d' `suffix_of` d → fs_node s d' ≠ Some (File content)) →
  ∃ s', mkdir_parents d s = (Ok (), s') ∧ fs_node s' d = Some Dir ∧
        ∀ q, ¬ q `suffix_of` d → s' !! q = s !! q.
Proof.
  intros Hos. revert s. induction d as [|c d IH]; intros s Hclear.
  - exists s. cbn. unfold io_try, Helpers.os_mkdir, Helpers.unless_is_dir,
      Helpers.is_dir, os_stat. rewrite !Hos. simpl. by split_and!.
  - assert (∀ d' content, d' `suffix_of` d → fs_node s d' ≠ Some (File content))
      as Hclear' by (intros d' content ?; by apply Hclear, suffix_cons_r).
    cbn [Helpers.mkdir_parents]. unfold io_try, Helpers.os_mkdir.
    rewrite Hos. cbn [parent tail].
    destruct (fs_node s (c :: d)) as [[|content]|] eqn:Hd.
    + exists s. unfold Helpers.unless_is_dir, Helpers.is_dir, os_stat.
      rewrite Hos, Hd. simpl. by split_and!.
    + by destruct (Hclear (c :: d) content).
    + destruct (fs_node s d) as [[|content]|] eqn:Hp.
      * exists (<[c :: d := Dir]> s). split_and!; [done| |].
        -- simpl. apply lookup_insert_eq.
        -- intros q Hq. apply lookup_insert_ne. by intros <-.
      * by destruct (Hclear' d content).
      * destruct (IH s Hclear') as (s1 & Hrun & Hdir & Hframe).
        unfold io_bind. rewrite Hrun.
        unfold Helpers.mkdir_leaf, io_try, Helpers.os_mkdir.
        rewrite Hos. cbn [parent tail].
        assert (fs_node s1 (c :: d) = None) as ->.
        { simpl in *. rewrite Hframe; [done|]. apply suffix_cons_not. }
        rewrite Hdir. exists (<[c :: d := Dir]> s1). split_and!; [done| |].
        -- simpl. apply lookup_insert_eq.
        -- intros q Hq. rewrite lookup_insert_ne by (by intros <-).
           apply Hframe. intros Hq'. apply Hq. by apply suffix_cons_r.
Qed.

(** X6.  On a tree, and where the system refuses no call, [save_products]
    answers [True] exactly when the path is writable (the path is not a
    directory and no regular file stands where one of its parent
    directories should be) and [json.dump] returns.  Whatever it answers,
    and whatever the system refuses, it leaves a tree. *)
Theorem save_products_succeeds_iff (products : list product) (file_path : path) (s : fs) :
  well_formed s →
  ((∀ call q, os_error call q = None) →
   ((∃ s', save_products json_dumps products file_path s = (Ok true, s'))
    ↔ writable s file_path ∧
      dump_error file_path (catalog_value products) = None)) ∧
  (∀ ok s', save_products json_dumps products file_path s = (Ok ok, s') →
            well_formed s').
Proof.
  intros Hwf. split; [intros Hos; split|].
  - intros [s' Hsave]. revert Hsave.
    unfold Helpers.save_products, io_try, io_bind, io_ret.
    destruct (Helpers.mkdir_parents os_error (parent file_path) s)
      as [[[]|e] s1] eqn:Hmk; [|done].
    destruct (Helpers.open_w os_error file_path s1) as [r2 s2] eqn:Hopen.
    destruct (open_w_cases _ _ _ _ Hopen)
      as [[[e ->] ->]|(-> & Hne & _ & Hnd & _ & ->)]; [done|].
    destruct (Helpers.json_dump dump_error json_dumps _ file_path _)
      as [r3 s3] eqn:Hdump.
    destruct (json_dump_cases _ _ _ _ _ Hdump)
      as [(-> & Hd & ->)|(e & written & -> & _ & ->)]; [|done].
    intros _. split; [|done].
    split; [|by eapply mkdir_parents_success].
    destruct file_path as [|c d]; [done|]. cbn [fs_node].
    destruct (mkdir_parents_frame _ _ _ _ Hmk (c :: d))
      as [Hsame|(_ & _ & Hsuf & _)].
    + by rewrite <- Hsame.
    + simpl in Hsuf. by apply suffix_cons_not in Hsuf.
  - intros [[Hdir Hclear] Hdump].
    unfold Helpers.save_products, io_try, io_bind, io_ret.
    destruct (mkdir_parents_ok (parent file_path) s Hos)
      as (s1 & -> & Hparent & Hframe).
    { intros d content. apply Hclear. }
    unfold Helpers.open_w, Helpers.json_dump. rewrite Hos, Hparent, Hdump.
    destruct file_path as [|c d]; [done|].
    assert (fs_node s1 (c :: d) = fs_node s (c :: d)) as ->.
    { simpl. apply Hframe. simpl. apply suffix_cons_not. }
    destruct (fs_node s (c :: d)) as [[|?]|]; [done| |]; by eexists.
  - intros ok s'. unfold Helpers.save_products, io_try, io_bind, io_ret.
    destruct (Helpers.mkdir_parents os_error (parent file_path) s)
      as [r1 s1] eqn:Hmk.
    pose proof (mkdir_parents_well_formed _ _ _ _ Hwf Hmk) as Hwf1.
    destruct r1 as [[]|e]; [|by intros [= <- <-]].
    destruct (Helpers.open_w os_error file_path s1) as [r2 s2] eqn:Hopen.
    destruct (open_w_cases _ _ _ _ Hopen)
      as [[[e ->] ->]|(-> & Hne & _ & Hnd & Hpar & ->)]; [by intros [= <- <-]|].
    destruct file_path as [|c d]; [done|].
    assert (well_formed (<[c :: d := File EmptyString]> s1)) as Hwf2
      by (apply well_formed_insert; [done|done|by left]).
    destruct (Helpers.json_dump dump_error json_dumps _ (c :: d) _)
      as [r3 s3] eqn:Hdump.
    assert (well_formed s3) as Hwf3.
    { destruct (json_dump_cases _ _ _ _ _ Hdump)
        as [(_ & _ & ->)|(e & written & _ & _ & ->)];
        rewrite insert_insert_eq;
        (apply well_formed_insert; [done|done|by left]). }
    destruct r3 as [[]|e]; by intros [= <- <-].
Qed.

(** Once [mkdir(parents=True, exist_ok=True)] has returned, it returns
    again, and changes nothing, as long as the directory can be looked
    at. *)
Lemma mkdir_parents_again d s s' s1 :
  mkdir_parents d s = (Ok (), s') → os_error Stat d = None →
  fs_node s1 d = Some Dir →
  mkdir_parents d s1 = (Ok (), s1).
Proof.
  intros Hfirst Hstat Hdir.
  assert (∀ e, os_error Mkdir d = Some e →
               is_OSError e = true ∧ e ≠ FileNotFoundError) as Hrefused.
  { intros e He. revert Hfirst.
    destruct d as [|c d]; cbn [Helpers.mkdir_parents];
      unfold io_try, Helpers.os_mkdir; rewrite He.
    - destruct e; unfold io_raise; try done;
        by intros [_ Hok]%unless_is_dir_cases; destruct (Hok eq_refl) as (? & _).
    - destruct e;
        try (by intros [_ Hok]%unless_is_dir_cases;
                destruct (Hok eq_refl) as (? & _)).
      unfold io_bind.
      destruct (Helpers.mkdir_parents os_error d s) as [[[]|e] s2]; [|done].
      unfold Helpers.mkdir_leaf, io_try, Helpers.os_mkdir. by rewrite He. }
  assert (∀ e, is_OSError e = true → unless_is_dir d e s1 = (Ok (), s1)) as Hdone.
  { intros e He. unfold Helpers.unless_is_dir, Helpers.is_dir, os_stat.
    by rewrite He, Hstat, Hdir. }
  destruct d as [|c d]; cbn [Helpers.mkdir_parents];
    unfold io_try, Helpers.os_mkdir.
  - destruct (os_error Mkdir []) as [e|] eqn:He.
    + destruct (Hrefused e eq_refl) as [Hos Hne].
      destruct e; try done; by apply Hdone.
    + simpl. by apply Hdone.
  - destruct (os_error Mkdir (c :: d)) as [e|] eqn:He.
    + destruct (Hrefused e eq_refl) as [Hos Hne].
      destruct e; try done; by apply Hdone.
    + rewrite Hdir. by apply Hdone.
Qed.

(** X7.  The last save wins: once a save at a path has succeeded, the next
    save at that path succeeds too and changes nothing but the file, when
    the directory of the path can be looked at and [json.dump] returns; and
    (for a catalog that survives the JSON round trip, on a path that can be
    looked at and read) [load_products] then returns the catalog saved
    last. *)
Theorem save_products_overwrites (first second : list product) (file_path : path)
    (s s1 : fs) :
  save_products json_dumps first file_path s = (Ok true, s1) →
  os_error Stat (parent file_path) = None →
  dump_error file_path (catalog_value second) = None →
  let s2 := <[file_path := File (json_dumps (catalog_value second))]> s1 in
  save_products json_dumps second file_path s1 = (Ok true, s2) ∧
  (json_loads (json_dumps (catalog_value second)) = Ok (catalog_value second) →
   os_error Stat file_path = None → os_error OpenRead file_path = None →
   load_products json_loads file_path s2 = (Ok (catalog_value second), s2)).
Proof.
  intros Hsave Hstat Hdump s2.
  assert (∃ s0, mkdir_parents (parent file_path) s = (Ok (), s0) ∧
          os_error OpenWrite file_path = None ∧
          fs_node s1 (parent file_path) = Some Dir ∧
          ∃ text, s1 !! file_path = Some (File text) ∧ file_path ≠ [])
    as (s0 & Hmk & Hopen & Hparent & text & Hfile & Hne).
  { revert Hsave. unfold Helpers.save_products, io_try, io_bind, io_ret.
    destruct (Helpers.mkdir_parents os_error (parent file_path) s)
      as [[[]|e] s0] eqn:Hmk; [|done].
    destruct (Helpers.open_w os_error file_path s0) as [r2 s2'] eqn:Hopen.
    destruct (open_w_cases _ _ _ _ Hopen)
      as [[[e ->] ->]|(-> & Hne & ? & Hnd & Hpar & ->)]; [done|].
    destruct (Helpers.json_dump dump_error json_dumps _ file_path _)
      as [r3 s3] eqn:Hd.
    destruct (json_dump_cases _ _ _ _ _ Hd)
      as [(-> & _ & ->)|(e & written & -> & _ & ->)]; [|done].
    intros [= <-]. exists s0. split_and!; [done|done| |].
    - destruct file_path as [|c d]; [done|]. cbn [parent tail] in *.
      destruct d as [|c' d]; [done|]. cbn [fs_node] in *.
      rewrite !lookup_insert_ne; [done|..]; intros Heq;
        apply (f_equal length) in Heq; simpl in Heq; lia.
    - eexists. split; [apply lookup_insert_eq|done]. }
  assert (save_products json_dumps second file_path s1 = (Ok true, s2)) as Hsecond.
  { unfold Helpers.save_products, io_try, io_bind, io_ret.
    rewrite (mkdir_parents_again _ _ _ _ Hmk Hstat Hparent).
    unfold Helpers.open_w, Helpers.json_dump. rewrite Hopen, Hparent, Hdump.
    destruct file_path as [|c d]; [done|]. cbn [fs_node]. rewrite Hfile.
    unfold s2. by rewrite insert_insert_eq. }
  split; [done|]. intros Hjson Hst Hrd.
  eapply StoreFacts.load_products_file; [done|done| |done].
  destruct file_path as [|c d]; [done|]. simpl. apply lookup_insert_eq.
Qed.

(** X8.  [load_products] leaves the file system as it is, and raises only
    what the existence test raises.  What it returns has a length: it is
    whatever JSON value with a length the file holds, when the file can be
    looked at and read, unchanged, a list, but an object or a string just as
    well; a file whose JSON is a number, a boolean or [null] reads as the
    empty list, because [len(data)] raises inside the [try]. *)
Theorem load_products_sized (file_path : path) (s : fs) :
  ∃ r, load_products json_loads file_path s = (r, s) ∧
    (∀ e, r = Raise e ↔ path_exists s file_path = Raise e) ∧
    (∀ data, r = Ok data →
       (∃ n, py_len data = Ok n) ∧
       (∀ text v,
          os_error Stat file_path = None → os_error OpenRead file_path = None →
          fs_node s file_path = Some (File text) → json_loads text = Ok v →
          data = match v with
                 | VList _ | VDict _ | VStr _ => v
                 | VNone | VBool _ | VInt _ | VFloat _ => VList []
                 end)).
Proof.
  unfold Helpers.load_products, io_try, io_bind, read_text, io_ret.
  destruct (Helpers.path_exists os_error s file_path) as [[|]|e] eqn:Hfound.
  - assert (∀ data : value,
              (∃ n, py_len data = Ok n) →
              (∀ text v,
                 os_error Stat file_path = None →
                 os_error OpenRead file_path = None →
                 fs_node s file_path = Some (File text) → json_loads text = Ok v →
                 data = match v with
                        | VList _ | VDict _ | VStr _ => v
                        | VNone | VBool _ | VInt _ | VFloat _ => VList []
                        end) →
              ∃ r, (Ok data, s) = (r, s) ∧
                (∀ e, r = Raise e ↔ @Ok exn bool true = Raise e) ∧
                (∀ data', r = Ok data' →
                   (∃ n, py_len data' = Ok n) ∧
                   (∀ text v,
                      os_error Stat file_path = None →
                      os_error OpenRead file_path = None →
                      fs_node s file_path = Some (File text) →
                      json_loads text = Ok v →
                      data' = match v with
                              | VList _ | VDict _ | VStr _ => v
                              | VNone | VBool _ | VInt _ | VFloat _ => VList []
                              end))) as Hanswer.
    { intros data Hlen Hdata. exists (Ok data). split_and!; [done|done|].
      by intros ? [= <-]. }
    destruct (os_error OpenRead file_path) as [e|] eqn:Hread.
    { destruct e; (apply Hanswer; [by eexists|intros; congruence]). }
    destruct (fs_node s file_path) as [[|text]|] eqn:Hnode.
    + apply Hanswer; [by eexists|intros; congruence].
    + destruct (json_loads text) as [data|e] eqn:Hload.
      * destruct (py_len data) as [n|e] eqn:Hlen.
        -- apply Hanswer; [by eexists|].
           intros ? v _ _ [= <-] Hv. assert (v = data) as -> by congruence.
           by destruct data.
        -- destruct e; (apply Hanswer; [by eexists|]);
             intros ? v _ _ [= <-] Hv; (assert (v = data) as -> by congruence);
             by destruct data.
      * destruct e; (apply Hanswer; [by eexists|]); intros; congruence.
    + apply Hanswer; [by eexists|intros; congruence].
  - exists (Ok (VList [])). split_and!; [done|done|].
    intros ? [= <-]. split; [by eexists|].
    intros text v Hstat _ Hnode _. revert Hfound.
    unfold Helpers.path_exists, os_stat. by rewrite Hstat, Hnode.
  - exists (Raise e). split_and!; [done| |done].
    intros e'. split; congruence.
Qed.

End store_extra.

Lemma save_products_succeeds_iff_witness :
  well_formed ∅ ∧
  ∃ s', save_products os_permits dump_returns MiniJson.json_dumps
          Examples.scenario_catalog ["products.json"; "data"] ∅ = (Ok true, s').
Proof.
  assert (well_formed ∅) as Hwf by (intros c d n; by rewrite lookup_empty).
  split; [exact Hwf|].
  apply (proj1 (save_products_succeeds_iff os_permits dump_returns
                  MiniJson.json_dumps
                  Examples.scenario_catalog ["products.json"; "data"] ∅ Hwf));
    [done|].
  split; [|reflexivity]. split; [simpl; by rewrite lookup_empty|].
  intros d content _. destruct d; simpl; [done|by rewrite lookup_empty].
Defined.

Lemma save_products_overwrites_witness :
  save_products os_permits dump_returns MiniJson.json_dumps
    Examples.scenario_catalog products_json ∅
    = (Ok true, Examples.fs_with Examples.scenario_catalog) ∧
  (load_products os_permits MiniJson.json_loads products_json
     (<[products_json := File (MiniJson.json_dumps
                                 (catalog_value Examples.scenario_incoming))]>
        (Examples.fs_with Examples.scenario_catalog))).1
  = Ok (catalog_value Examples.scenario_incoming).
Proof.
  assert (save_products os_permits dump_returns MiniJson.json_dumps
            Examples.scenario_catalog products_json ∅
          = (Ok true, Examples.fs_with Examples.scenario_catalog)) as Hsave
    by (vm_compute; reflexivity).
  split; [exact Hsave|].
  rewrite (proj2 (save_products_overwrites os_permits dump_returns
             MiniJson.json_dumps MiniJson.json_loads
             Examples.scenario_catalog Examples.scenario_incoming
             products_json ∅ _ Hsave eq_refl eq_refl)); [reflexivity|..].
  - vm_compute. reflexivity.
  - reflexivity.
  - reflexivity.
Defined.

(** A name of 300 bytes cannot be written on a tree that would let it, and
    a dump that raises leaves [False] and the beginning of the document. *)
Example save_products_refused :
  (save_products os_name_max dump_returns MiniJson.json_dumps
     Examples.scenario_catalog [Examples.long_name] ∅).1 = Ok false ∧
  save_products os_permits (λ _ _, Some (ValueError, "[")) MiniJson.json_dumps
    Examples.scenario_catalog products_json ∅
  = (Ok false, {[ products_json := File "[" ]}).
Proof. split; vm_compute; reflexivity. Qed.

End StoreExtra.
(** ** More about the handlers of [api/routes.py] *)
Module RoutesExtra.
Section routes_extra.
Variable os_error : syscall → path → option exn.
Variable json_loads : string → result value.
Variable Product : Type.
Variable Product_new : value → result Product.

#[local] Abbreviation load_products := (load_products os_error).
#[local] Abbreviation get_products :=
  (get_products os_error json_loads Product Product_new).
#[local] Abbreviation get_product_by_id :=
  (get_product_by_id os_error json_loads Product Product_new).

(** The first record of the catalog with the given id. *)
Lemma next_with_id_catalog product_id (C : list product) :
  next_with_id product_id (VDict <$> C) =
  Ok (from_option VDict VNone (head (filter (id_listed [product_id]) C))).
Proof.
  induction C as [|p C IH]; [done|].
  rewrite fmap_cons, filter_cons. simpl.
  destruct (decide (id_listed [product_id] p)) as [Hp|Hp];
    unfold id_listed in Hp; simpl in Hp; rewrite orb_false_r in Hp.
  - by rewrite Hp.
  - apply not_true_is_false in Hp. rewrite Hp. apply IH.
Qed.

Lemma filter_id_listed_nil product_id (C : list product) :
  Forall (λ p, eq_int (get_id p) product_id = false) C →
  filter (id_listed [product_id]) C = [].
Proof.
  induction 1 as [|p C Hp _ IH]; [done|].
  rewrite filter_cons, decide_False; [done|].
  unfold id_listed. simpl. unfold get_id in Hp. by rewrite Hp.
Qed.

Lemma filter_id_listed_first product_id (before after : list product) p :
  Forall (λ q, eq_int (get_id q) product_id = false) before →
  eq_int (get_id p) product_id = true →
  head (filter (id_listed [product_id]) (before ++ p :: after)) = Some p.
Proof.
  intros Hbefore Hp. rewrite filter_app, filter_id_listed_nil by done.
  simpl. rewrite filter_cons, decide_True; [done|].
  unfold id_listed. simpl. unfold get_id in Hp. by rewrite Hp.
Qed.

Lemma id_listed_truthy product_id (p : product) :
  id_listed [product_id] p → truthy (VDict p) = true.
Proof.
  unfold id_listed. simpl. destruct p as [|[k v] p]; [|done].
  simpl. done.
Qed.

(** The handler on a stored catalog of records, as one expression. *)
Lemma get_product_by_id_catalog product_id s (C : list product) :
  load_products json_loads products_json s = (Ok (catalog_value C), s) →
  get_product_by_id product_id s =
  (match head (filter (id_listed [product_id]) C) with
   | None => Raise (HTTPException 404)
   | Some p =>
       match Product_new (VDict p) with
       | Ok product => Ok product
       | Raise _ => Raise (HTTPException 500)
       end
   end, s).
Proof.
  intros Hload. unfold RoutesById.get_product_by_id, io_try, io_bind.
  rewrite Hload. destruct C as [|p0 C]; [done|].
  set (C1 := p0 :: C).
  change (truthy (catalog_value C1)) with true. simpl negb. cbv iota.
  unfold io_lift.
  change (py_iter (catalog_value C1)) with (@Ok exn _ (VDict <$> C1)).
  cbv beta iota.
  rewrite next_with_id_catalog.
  destruct (head (filter _ C1)) as [p|] eqn:Hhead; [|done].
  change (from_option VDict VNone (Some p)) with (VDict p).
  rewrite (id_listed_truthy product_id).
  - simpl. by destruct (Product_new (VDict p)).
  - apply head_Some_elem_of in Hhead. by apply list_elem_of_filter in Hhead as [? _].
Qed.

Lemma next_with_id_first product_id (before : list product) p (after : list value) :
  Forall (λ q, eq_int (get_id q) product_id = false) before →
  eq_int (get_id p) product_id = true →
  next_with_id product_id ((VDict <$> before) ++ VDict p :: after) = Ok (VDict p).
Proof.
  intros Hbefore Hp. induction Hbefore as [|q before Hq _ IH]; simpl.
  - unfold get_id in Hp. by rewrite Hp.
  - unfold get_id in Hq. by rewrite Hq.
Qed.

(** [load_products] leaves the file system alone, and raises only what
    [os.stat] raises. *)
Lemma load_products_returns file_path s :
  ∃ r, load_products json_loads file_path s = (r, s) ∧
       ∀ e, r = Raise e → os_error Stat file_path = Some e.
Proof.
  unfold Helpers.load_products, Helpers.path_exists, os_stat, io_try, io_bind,
    read_text, io_ret.
  destruct (os_error Stat file_path) as [e|].
  { destruct (ignored_error e); (eexists; split; [done|]); [done|].
    by intros ? [= <-]. }
  destruct (fs_node s file_path) as [n|]; simpl; [|by eexists].
  destruct (os_error OpenRead file_path) as [e|].
  { destruct e; by eexists. }
  destruct n as [|text]; [by eexists|].
  destruct (json_loads text) as [data|e]; [|destruct e; by eexists].
  destruct (py_len data) as [n|e]; [|destruct e]; by eexists.
Qed.

(** X9.  [GET /products/{product_id}]: the file system is left as it was.
    On a stored catalog none of whose records carries the id (an empty
    catalog too) the answer is 404.  Otherwise the first entry with that id
    is the one looked at, and nothing after it is: it is returned when it
    validates and the answer is 500 when it does not, whatever the rest of
    the stored list holds. *)
Theorem get_product_by_id_contract product_id s :
  (∀ C : list product,
     load_products json_loads products_json s = (Ok (catalog_value C), s) →
     Forall (λ p, eq_int (get_id p) product_id = false) C →
     get_product_by_id product_id s = (Raise (HTTPException 404), s)) ∧
  (∀ (before : list product) p (after : list value),
     load_products json_loads products_json s
       = (Ok (VList ((VDict <$> before) ++ VDict p :: after)), s) →
     Forall (λ q, eq_int (get_id q) product_id = false) before →
     eq_int (get_id p) product_id = true →
     get_product_by_id product_id s =
       (match Product_new (VDict p) with
        | Ok product => Ok product
        | Raise _ => Raise (HTTPException 500)
        end, s)).
Proof.
  split.
  - intros C Hload Hnone. rewrite (get_product_by_id_catalog _ _ _ Hload).
    by rewrite filter_id_listed_nil.
  - intros before p after Hload Hbefore Hp.
    unfold RoutesById.get_product_by_id, io_try, io_bind. rewrite Hload.
    assert (truthy (VList ((VDict <$> before) ++ VDict p :: after)) = true) as ->.
    { by destruct before. }
    simpl negb. cbv iota. unfold io_lift, py_iter. cbv beta iota.
    rewrite next_with_id_first by done.
    rewrite (id_listed_truthy product_id).
    + simpl. by destruct (Product_new (VDict p)).
    + unfold id_listed. simpl. unfold get_id in Hp. by rewrite Hp.
Qed.

(** *** What the handlers may answer *)

Lemma comprehension_error {A B} (f : A → result B) (l : list A) (P : exn → Prop) e :
  (∀ x e, f x = Raise e → P e) → comprehension f l = Raise e → P e.
Proof.
  intros Hf. induction l as [|x l IH]; simpl; [done|].
  destruct (f x) as [y|e'] eqn:Hx; simpl; [|intros [= <-]; by eapply Hf].
  destruct (comprehension f l); simpl; [done|]. intros [= <-]. by apply IH.
Qed.

Lemma comprehension_if_error {A} (f : A → result bool) (l : list A) (P : exn → Prop) e :
  (∀ x e, f x = Raise e → P e) → comprehension_if f l = Raise e → P e.
Proof.
  intros Hf. induction l as [|x l IH]; simpl; [done|].
  destruct (f x) as [y|e'] eqn:Hx; simpl; [|intros [= <-]; by eapply Hf].
  destruct (comprehension_if f l); simpl; [done|]. intros [= <-]. by apply IH.
Qed.

Lemma filter_by_ids_error ids products_data e :
  filter_by_ids ids products_data = Raise e →
  (e = ValueError ∧ ∃ e', parse_ids ids = Raise e') ∨
  ((∃ id_list, parse_ids ids = Ok id_list) ∧
   (e = TypeError ∨ e = AttributeError ∨ e = HTTPException 404)).
Proof.
  unfold filter_by_ids. fold (parse_ids ids).
  destruct (parse_ids ids) as [id_list|e'] eqn:Hids; simpl.
  - intros H. right. split; [by eexists|]. revert H.
    destruct (py_iter products_data) as [items|e'] eqn:Hit; simpl.
    + destruct (comprehension_if _ items) as [kept|e'] eqn:Hc; simpl.
      * case_match; [|done]. intros [= <-]. auto.
      * intros [= <-]. right. left.
        eapply (comprehension_if_error _ _ (λ e, e = AttributeError)); [|exact Hc].
        intros x e0. simpl. destruct x; simpl; congruence.
    + intros [= <-]. left. destruct products_data; simpl in Hit; congruence.
  - intros [= <-]. left. split; [|by eexists]. by eapply RoutesFacts.parse_ids_error.
Qed.

Lemma paginate_error limit offset products_data e :
  paginate limit offset products_data = Raise e → e = TypeError.
Proof.
  unfold paginate. destruct (py_len products_data) as [n|e'] eqn:Hlen; simpl.
  - case_match; simpl; [done|].
    destruct (py_slice _ _ _) as [v|e'] eqn:Hs; simpl; [done|].
    intros [= <-]. destruct products_data; simpl in Hs; congruence.
  - intros [= <-]. destruct products_data; simpl in Hlen; congruence.
Qed.

(** X10.  Whatever state the file system is in and whatever
    [products.json] holds, the two handlers answer 200, 400, 404 or 500: no
    other exception gets out, and the file system is left as it was; an
    error of the operating system at the existence test is answered with
    500.  Only [GET /products] answers 400, and only to an [ids] parameter
    one of whose tokens [int] refuses. *)
Theorem handlers_answers ids limit offset product_id s :
  (∀ e, os_error Stat products_json = Some e → is_OSError e = true) →
  (∃ r, get_products ids limit offset s = (r, s) ∧
        (∀ e, r = Raise e →
           e = HTTPException 400 ∨ e = HTTPException 404 ∨ e = HTTPException 500) ∧
        (r = Raise (HTTPException 400) →
           ∃ t e, ids = Some t ∧ parse_ids t = Raise e)) ∧
  (∃ r, get_product_by_id product_id s = (r, s) ∧
        (∀ e, r = Raise e → e = HTTPException 404 ∨ e = HTTPException 500)).
Proof.
  intros Hos.
  destruct (load_products_returns products_json s) as (r0 & Hload & Hraise).
  destruct r0 as [data|e0].
  2:{ assert (is_HTTPException e0 = false) as He0.
      { specialize (Hos e0 (Hraise e0 eq_refl)). by destruct e0. }
      split.
      - unfold Routes.get_products, io_try, io_bind. rewrite Hload, He0.
        eexists. split; [done|]. split; [|done]. intros e [= <-]. auto.
      - unfold RoutesById.get_product_by_id, io_try, io_bind. rewrite Hload, He0.
        eexists. split; [done|]. intros e [= <-]. auto. }
  clear Hraise. split.
  - unfold Routes.get_products, io_try, io_bind. rewrite Hload.
    destruct (truthy data); cbn [negb]; cbv beta iota.
    2:{ eexists. split; [done|]. split; [|done]. intros e [= <-]. auto. }
    unfold io_lift.
    destruct (apply_ids ids data) as [filtered|e1] eqn:Hids.
    + destruct (paginate limit offset filtered) as [[n shown]|e2] eqn:Hpage.
      * unfold validate.
        destruct (py_iter shown ≫= comprehension Product_new) as [ps|e3].
        -- eexists. split; [done|]. split; done.
        -- eexists. split; [done|]. split; [|done]. intros e [= <-]. auto.
      * apply paginate_error in Hpage as ->. simpl.
        eexists. split; [done|]. split; [|done]. intros e [= <-]. auto.
    + revert Hids. unfold apply_ids. destruct ids as [t|]; [|done].
      destruct (truthy (VStr t)); [|done].
      destruct (filter_by_ids t data) as [v|e] eqn:Hf; [done|].
      destruct (filter_by_ids_error _ _ _ Hf) as [[-> [e' He']]|[[l Hl] He]].
      * simpl. intros [= <-]. simpl.
        eexists. split; [done|]. split; [intros e [= <-]; auto|].
        intros _. by exists t, e'.
      * destruct He as [->|[->| ->]]; simpl; intros [= <-]; simpl;
          (eexists; split; [done|]; split; [intros e [= <-]; auto|done]).
  - unfold RoutesById.get_product_by_id, io_try, io_bind. rewrite Hload.
    destruct (truthy data); cbn [negb]; cbv beta iota.
    2:{ eexists. split; [done|]. intros e [= <-]. auto. }
    unfold io_lift.
    destruct (py_iter data) as [items|e1] eqn:Hit.
    2:{ assert (is_HTTPException e1 = false) as He1
          by (destruct data; simpl in Hit; by simplify_eq).
        cbn [negb]; cbv beta iota. rewrite He1.
        eexists. split; [done|]. intros e [= <-]. auto. }
    cbn [negb]; cbv beta iota.
    destruct (next_with_id product_id items) as [found|e2] eqn:Hnext.
    2:{ assert (is_HTTPException e2 = false) as He2.
        { clear Hit. induction items as [|x items IH]; simpl in Hnext; [done|].
          destruct (py_get x "id") as [v|e'] eqn:Hx; simpl in Hnext.
          - destruct (eq_int v product_id); [done|by apply IH].
          - injection Hnext as <-. destruct x; simpl in Hx; by simplify_eq. }
        cbn [negb]; cbv beta iota. rewrite He2.
        eexists. split; [done|]. intros e [= <-]. auto. }
    cbv beta iota.
    destruct (truthy found); cbn [negb]; cbv beta iota.
    2:{ eexists. split; [done|]. intros e [= <-]. auto. }
    destruct (Product_new found) as [product|e3]; simpl.
    + eexists. split; done.
    + eexists. split; [done|]. intros e [= <-]. auto.
Qed.

(** X11.  The two handlers agree: asking for one product by id gives what
    asking the list route for that id alone, limited to one record, gives.
    Both answer 404 or 500 together, and when the list route answers it
    carries exactly the product the other route returns. *)
Theorem get_product_by_id_agrees product_id (t : string) s (C : list product) :
  load_products json_loads products_json s = (Ok (catalog_value C), s) →
  parse_ids t = Ok [product_id] →
  http_status (get_product_by_id product_id s).1
    = http_status (get_products (Some t) (Some 1) 0 s).1 ∧
  ∀ product,
    (get_product_by_id product_id s).1 = Ok product ↔
    ∃ n, (get_products (Some t) (Some 1) 0 s).1
         = Ok {| total := n; products := [product] |}.
Proof.
  intros Hload Hids.
  rewrite (get_product_by_id_catalog _ _ _ Hload).
  rewrite (RoutesFacts.get_products_catalog _ _ _ _ _ _ _ _ _ Hload).
  assert (t ≠ "") as Ht by (by intros ->).
  unfold selection. rewrite decide_False by done. rewrite Hids. simpl.
  destruct C as [|p0 C]; [by split; [|intros product; split; [|intros [? ?]]]|].
  set (C1 := p0 :: C).
  destruct (filter (id_listed [product_id]) C1) as [|p F] eqn:HF.
  { simpl. split; [done|]. intros product; split; [done|by intros [? ?]]. }
  assert (shown (Some 1) 0 (p :: F) = [p]) as ->.
  { rewrite RoutesFacts.list_slice_page; [done|lia|]. intros ? [= <-]. lia. }
  simpl. destruct (Product_new (VDict p)) as [product|e]; simpl.
  - split; [done|]. intros product'. split.
    + intros [= ->]. by eexists.
    + intros [n Heq]. by simplify_eq.
  - split; [done|]. intros product'. split; [done|by intros [? ?]].
Qed.

Lemma id_listed_iff id_list (p : product) :
  id_listed id_list p ↔ ∃ z, z ∈ id_list ∧ eq_int (get_id p) z = true.
Proof.
  unfold id_listed. rewrite existsb_exists. split.
  - intros (z & Hz & ?). exists z. split; [by apply list_elem_of_In|done].
  - intros (z & Hz & ?). exists z. split; [by apply list_elem_of_In|done].
Qed.

(** X12.  The answer of [GET /products] depends on the set of listed ids
    only: the records come in catalog order whatever the order of the ids in
    the query, and listing an id twice changes nothing. *)
Theorem get_products_ids_as_set (t1 t2 : string) (l1 l2 : list Z) limit offset s
    (C : list product) :
  load_products json_loads products_json s = (Ok (catalog_value C), s) →
  parse_ids t1 = Ok l1 → parse_ids t2 = Ok l2 → (∀ z, z ∈ l1 ↔ z ∈ l2) →
  get_products (Some t1) limit offset s = get_products (Some t2) limit offset s.
Proof.
  intros Hload H1 H2 Hset.
  rewrite !(RoutesFacts.get_products_catalog _ _ _ _ _ _ _ _ _ Hload).
  assert (t1 ≠ "") as Ht1 by (by intros ->).
  assert (t2 ≠ "") as Ht2 by (by intros ->).
  unfold selection. rewrite !decide_False by done. rewrite H1, H2. simpl.
  assert (filter (id_listed l1) C = filter (id_listed l2) C) as ->; [|done].
  apply list_filter_iff. intros p. rewrite !id_listed_iff.
  split; intros (z & Hz & ?); exists z; (split; [by apply Hset|done]).
Qed.

Lemma comprehension_app {A B} (f : A → result B) (l1 l2 : list A) :
  comprehension f (l1 ++ l2) =
  ys1 ← comprehension f l1; ys2 ← comprehension f l2; Ok (ys1 ++ ys2).
Proof.
  induction l1 as [|x l1 IH]; simpl.
  - by destruct (comprehension f l2).
  - destruct (f x) as [y|e]; simpl; [|done]. rewrite IH.
    destruct (comprehension f l1); simpl; [|done].
    by destruct (comprehension f l2).
Qed.

(** X13.  Pages compose: a page of [a + b] records at [offset] is the page
    of [a] records at [offset] followed by the page of [b] records at
    [offset + a]; when the large page is answered so are the two small ones,
    and conversely, with the same total. *)
Theorem get_products_pages_compose ids (a b offset : Z) s (C : list product) :
  load_products json_loads products_json s = (Ok (catalog_value C), s) →
  0 ≤ offset → 1 ≤ a → 1 ≤ b →
  ∀ n ps,
    get_products ids (Some (a + b)) offset s
      = (Ok {| total := n; products := ps |}, s) ↔
    ∃ ps1 ps2,
      get_products ids (Some a) offset s
        = (Ok {| total := n; products := ps1 |}, s) ∧
      get_products ids (Some b) (offset + a) s
        = (Ok {| total := n; products := ps2 |}, s) ∧
      ps = ps1 ++ ps2.
Proof.
  intros Hload Hoff Ha Hb n ps.
  rewrite !(RoutesFacts.get_products_catalog _ _ _ _ _ _ _ _ _ Hload).
  destruct C as [|p0 C]; [split; [done|by intros (? & ? & ? & _)]|].
  destruct (selection ids (p0 :: C)) as [[|q F]|e];
    [split; [done|by intros (? & ? & ? & _)]| |
     split; [done|by intros (? & ? & ? & _)]].
  set (F1 := q :: F).
  rewrite !RoutesFacts.list_slice_page
    by (try lia; intros ? [= <-]; lia).
  unfold page.
  assert (take (Z.to_nat (a + b)) (drop (Z.to_nat offset) F1)
          = take (Z.to_nat a) (drop (Z.to_nat offset) F1)
            ++ take (Z.to_nat b) (drop (Z.to_nat (offset + a)) F1)) as ->.
  { replace (Z.to_nat (a + b)) with (Z.to_nat a + Z.to_nat b)%nat by lia.
    rewrite <- take_take_drop, drop_drop. repeat f_equal; lia. }
  rewrite fmap_app, comprehension_app.
  destruct (comprehension Product_new (VDict <$> take (Z.to_nat a) _)) as [ps1|e1];
    simpl.
  - destruct (comprehension Product_new (VDict <$> take (Z.to_nat b) _)) as [ps2|e2];
      simpl.
    + split.
      * intros [= <- <-]. by exists ps1, ps2.
      * intros (ps1' & ps2' & [= <- <-] & [= <-] & ->). done.
    + split; [done|]. by intros (? & ? & _ & ? & _).
  - split; [done|]. by intros (? & ? & ? & _).
Qed.

End routes_extra.

Lemma stored_catalog_loads :
  load_products os_permits MiniJson.json_loads products_json
    (Examples.fs_with Examples.stored_catalog)
  = (Ok (catalog_value Examples.stored_catalog),
     Examples.fs_with Examples.stored_catalog).
Proof. vm_compute. reflexivity. Qed.

Lemma get_product_by_id_contract_witness :
  get_product_by_id os_permits MiniJson.json_loads Examples.Product
    Examples.Product_new 7 (Examples.fs_with Examples.stored_catalog)
  = (Raise (HTTPException 404), Examples.fs_with Examples.stored_catalog).
Proof.
  apply (proj1 (get_product_by_id_contract os_permits MiniJson.json_loads
                  Examples.Product Examples.Product_new 7
                  (Examples.fs_with Examples.stored_catalog))
           Examples.stored_catalog stored_catalog_loads).
  repeat constructor.
Defined.

Lemma handlers_answers_witness :
  (∀ e, os_name_max Stat products_json = Some e → is_OSError e = true) ∧
  ∃ r, get_product_by_id os_name_max MiniJson.json_loads Examples.Product
         Examples.Product_new 2 (Examples.fs_with Examples.stored_catalog)
       = (r, Examples.fs_with Examples.stored_catalog).
Proof.
  assert (∀ e, os_name_max Stat products_json = Some e → is_OSError e = true)
    as Hos by (intros e; vm_compute; discriminate).
  split; [exact Hos|].
  destruct (proj2 (handlers_answers os_name_max MiniJson.json_loads
                     Examples.Product Examples.Product_new None None 0 2
                     (Examples.fs_with Examples.stored_catalog) Hos))
    as (r & Hr & _).
  by exists r.
Defined.

Lemma get_product_by_id_agrees_witness :
  parse_ids " 2 " = Ok [2] ∧
  http_status (get_product_by_id os_permits MiniJson.json_loads Examples.Product
                 Examples.Product_new 2
                 (Examples.fs_with Examples.stored_catalog)).1
  = http_status (get_products os_permits MiniJson.json_loads Examples.Product
                   Examples.Product_new (Some " 2 ") (Some 1) 0
                   (Examples.fs_with Examples.stored_catalog)).1.
Proof.
  assert (parse_ids " 2 " = Ok [2]) as Hids by (vm_compute; reflexivity).
  split; [exact Hids|].
  exact (proj1 (get_product_by_id_agrees os_permits MiniJson.json_loads
                  Examples.Product Examples.Product_new 2 " 2 " _ _
                  stored_catalog_loads Hids)).
Defined.

Lemma get_products_ids_as_set_witness :
  parse_ids "3,1" = Ok [3; 1] ∧ parse_ids "1, 3, 1" = Ok [1; 3; 1] ∧
  get_products os_permits MiniJson.json_loads Examples.Product
    Examples.Product_new
    (Some "3,1") None 0 (Examples.fs_with Examples.stored_catalog)
  = get_products os_permits MiniJson.json_loads Examples.Product
      Examples.Product_new
      (Some "1, 3, 1") None 0 (Examples.fs_with Examples.stored_catalog).
Proof.
  assert (parse_ids "3,1" = Ok [3; 1]) as H1 by (vm_compute; reflexivity).
  assert (parse_ids "1, 3, 1" = Ok [1; 3; 1]) as H2 by (vm_compute; reflexivity).
  split_and!; [exact H1|exact H2|].
  apply (get_products_ids_as_set os_permits MiniJson.json_loads Examples.Product
           Examples.Product_new "3,1" "1, 3, 1" [3; 1] [1; 3; 1] None 0 _ _
           stored_catalog_loads H1 H2).
  intros z. rewrite !elem_of_cons, !elem_of_nil. tauto.
Defined.

Lemma get_products_pages_compose_witness :
  load_products os_permits MiniJson.json_loads products_json
    (Examples.fs_with Examples.stored_catalog)
  = (Ok (catalog_value Examples.stored_catalog),
     Examples.fs_with Examples.stored_catalog) ∧
  ∀ n ps,
    get_products os_permits MiniJson.json_loads Examples.Product
      Examples.Product_new
      None (Some (1 + 2)) 0 (Examples.fs_with Examples.stored_catalog)
    = (Ok {| total := n; products := ps |},
       Examples.fs_with Examples.stored_catalog) ↔
    ∃ ps1 ps2,
      get_products os_permits MiniJson.json_loads Examples.Product
        Examples.Product_new
        None (Some 1) 0 (Examples.fs_with Examples.stored_catalog)
      = (Ok {| total := n; products := ps1 |},
         Examples.fs_with Examples.stored_catalog) ∧
      get_products os_permits MiniJson.json_loads Examples.Product
        Examples.Product_new
        None (Some 2) (0 + 1) (Examples.fs_with Examples.stored_catalog)
      = (Ok {| total := n; products := ps2 |},
         Examples.fs_with Examples.stored_catalog) ∧
      ps = ps1 ++ ps2.
Proof.
  split; [exact stored_catalog_loads|].
  apply (get_products_pages_compose os_permits MiniJson.json_loads
           Examples.Product Examples.Product_new None 1 2 0 _ _
           stored_catalog_loads); lia.
Defined.

(** Entries after the first match are not looked at by the one-product
    route, while the list route goes through the whole list. *)
Example get_product_by_id_lazy :
  let s : fs :=
    {[ products_json :=
         File (MiniJson.json_dumps
                 (VList [VDict (Examples.olx_record 1 (Examples.olx_url 1));
                         VInt 7])) ]} in
  http_status (get_product_by_id os_permits MiniJson.json_loads Examples.Product
                 Examples.Product_new 1 s).1 = 200 ∧
  http_status (get_product_by_id os_permits MiniJson.json_loads Examples.Product
                 Examples.Product_new 2 s).1 = 500 ∧
  http_status (get_products os_permits MiniJson.json_loads Examples.Product
                 Examples.Product_new (Some "1") (Some 1) 0 s).1 = 500.
Proof. vm_compute. repeat split. Qed.

(** An id of more than 4300 digits is refused by [int], leading zeros
    counted, and an id written in the digits of another script is read:
    the list route answers 400 to the first and finds the record for the
    second. *)
Example get_products_int_limits :
  let get ids :=
    (get_products os_permits MiniJson.json_loads Examples.Product
       Examples.Product_new (Some ids) None 0
       (Examples.fs_with Examples.stored_catalog)).1 in
  http_status (get (String.concat "" (replicate 4300 "0") +:+ "1")) = 400 ∧
  total <$> get (String "217" (String "161" EmptyString)) = Ok 1.
Proof. vm_compute. repeat split. Qed.

End RoutesExtra.
(** ** More about [scrape_all] *)
Module EngineExtra.

Section engine_extra.
Variable pw : Playwright.
Variable scraper : ProductScraper.
Variable engine : ScraperEngine.

#[local] Abbreviation step := (step pw scraper).
#[local] Abbreviation reachable := (reachable pw scraper engine).

Lemma reachable_ind (P : state → Prop) :
  P (scrape_all engine) →
  (∀ st st', reachable st → P st → step st st' → P st') →
  ∀ st, reachable st → P st.
Proof.
  intros Hinit Hstep st Hreach. unfold Core.reachable in Hreach.
  eapply (rtc_ind_r (λ st, reachable st ∧ P st)); [| |exact Hreach].
  - split; [apply rtc_refl|done].
  - intros y z Hy Hyz [Hry HPy]. split; [by eapply rtc_r|by eapply Hstep].
Qed.

(** What a stretch of a task does to the pages and to their history. *)
Lemma task_step_pages t sem pc' sem' upd evs :
  task_step pw scraper t sem = Some (pc', sem', upd, evs) →
  ∀ n, (has_page t ≤ n)%nat →
       (pages_opened evs + n = pages_closed evs + upd n)%nat.
Proof.
  unfold task_step, has_page, pages_opened, pages_closed.
  destruct (task_pc t); intros Hstep n Hn; repeat case_match; simplify_eq/=; lia.
Qed.

End engine_extra.

(** X14.  Pages do not leak and the semaphore is given back: in every state
    of every run each page that was opened is either still counted as open
    or has been closed, and once [scrape_all] has returned as many pages
    were closed as were opened and the semaphore has its initial value
    again, so the engine can be used for another run. *)
Theorem scrape_all_releases pw scraper engine :
  0 ≤ max_concurrent engine →
  ∀ st, reachable pw scraper engine st →
    pages_opened (st_trace st) = (pages_closed (st_trace st) + st_pages st)%nat ∧
    ∀ ps, st_phase st = Returned ps →
      pages_opened (st_trace st) = pages_closed (st_trace st) ∧
      st_semaphore st = max_concurrent engine.
Proof.
  intros Hmax.
  assert (∀ st, reachable pw scraper engine st →
            pages_opened (st_trace st)
            = (pages_closed (st_trace st) + st_pages st)%nat) as Hbalance.
  { apply reachable_ind; [done|].
    intros st st' Hreach Hst [a Hexec].
    pose proof (EngineFacts.invariant_reachable pw scraper engine Hmax st Hreach)
      as Hinv.
    destruct st as [ph sem ts pages tr]. simpl in *.
    destruct a, ph; simpl in Hexec; try done.
    - destruct (chromium_launch pw); by simplify_eq/=.
    - destruct (browser_new_context pw); by simplify_eq/=.
    - destruct (ts !! i) as [t|] eqn:Hi; simpl in Hexec; [|done].
      destruct (task_step pw scraper t sem) as [[[[pc' sem'] upd] evs]|] eqn:Hts;
        simplify_eq/=.
      pose proof (inv_pages _ _ _ _ Hinv) as Hpages. simpl in Hpages.
      pose proof (EngineFacts.sum_list_lookup_le has_page ts i t Hi) as Hle.
      pose proof (task_step_pages pw scraper _ _ _ _ _ _ Hts pages) as Hupd.
      unfold pages_opened, pages_closed in *.
      rewrite !filter_app, !length_app. lia.
    - destruct (mapM task_result ts); by simplify_eq/=.
    - destruct (context_close pw); by simplify_eq/=.
    - destruct (browser_close pw); by simplify_eq/=. }
  intros st Hreach. split; [by apply Hbalance|].
  intros ps Hps.
  pose proof (EngineFacts.invariant_reachable pw scraper engine Hmax st Hreach)
    as [Hsem Hperm Hpages Hatt Htasks Hok Htrace].
  unfold tasks_ok in Htasks. rewrite Hps in Htasks.
  destruct Htasks as (_ & Hdone & _).
  split.
  - rewrite (Hbalance st Hreach), Hpages.
    rewrite EngineFacts.sum_list_zero; [lia|].
    eapply Forall_impl; [exact Hdone|]. intros t. unfold is_done, has_page.
    by destruct (task_pc t).
  - rewrite EngineFacts.sum_list_zero in Hperm; [lia|].
    eapply Forall_impl; [exact Hdone|]. intros t. unfold is_done, holds.
    by destruct (task_pc t).
Qed.

(** X15.  If opening the browser context raises after the browser was
    launched, [scrape_all] raises that exception: no task is created, no
    page is opened, nothing is returned, and [scrape_all] itself never
    closes the browser it launched (lines 165-166 stand before the [try]
    whose [finally] closes it). *)
Theorem scrape_all_context_unavailable pw scraper engine e :
  chromium_launch pw = Ok () → browser_new_context pw = Raise e →
  let start := scrape_all engine in
  let failed :=
    {| st_phase := Failed e; st_semaphore := max_concurrent engine;
       st_tasks := []; st_pages := 0; st_trace := [BrowserLaunched] |} in
  (∀ fuel, run pw scraper (S (S fuel)) start = failed) ∧
  (∀ st, ¬ step pw scraper failed st) ∧
  (∀ st, reachable pw scraper engine st →
     st_tasks st = [] ∧ st_pages st = 0%nat ∧
     attempts (st_trace st) = 0%nat ∧ pages_opened (st_trace st) = 0%nat ∧
     count BrowserClosed (st_trace st) = 0%nat ∧
     (∀ ps, st_phase st ≠ Returned ps) ∧
     (finished st = true → st = failed)).
Proof.
  intros Hlaunch Hcontext start failed.
  set (launched :=
    {| st_phase := ContextOpening; st_semaphore := max_concurrent engine;
       st_tasks := []; st_pages := 0%nat; st_trace := [BrowserLaunched] |}).
  assert (∀ st, step pw scraper start st → st = launched) as H1.
  { intros st [a Ha]. destruct a; simpl in Ha; try done.
    rewrite Hlaunch in Ha. by injection Ha as <-. }
  assert (∀ st, step pw scraper launched st → st = failed) as H2.
  { intros st [a Ha]. destruct a; simpl in Ha; try done.
    rewrite Hcontext in Ha. by injection Ha as <-. }
  assert (∀ st, ¬ step pw scraper failed st) as H3.
  { intros st [a Ha]. by destruct a. }
  split_and!.
  - intros fuel. simpl. unfold next. simpl. rewrite Hlaunch. simpl.
    unfold next. simpl. rewrite Hcontext. simpl.
    destruct fuel; [done|]. simpl. unfold next. simpl. done.
  - done.
  - intros st Hreach.
    assert (st = start ∨ st = launched ∨ st = failed) as Hst.
    { revert st Hreach. apply reachable_ind; [by left|].
      intros st st' _ [->|[->| ->]] Hstep.
      - right. left. by apply H1.
      - right. right. by apply H2.
      - by destruct (H3 st'). }
    destruct Hst as [->|[->| ->]]; by split_and!.
Qed.

(** X16.  With [max_concurrent = 0] and at least one target nothing ever
    gets past the semaphore: once the browser and the context are open the
    run reaches [gather] and stays there for ever; [scrape_all] neither
    returns nor raises, and no page is opened. *)
Theorem scrape_all_zero_permits pw scraper engine :
  max_concurrent engine = 0 →
  chromium_launch pw = Ok () → browser_new_context pw = Ok () →
  get_product_urls scraper ≠ [] →
  (∀ st, reachable pw scraper engine st →
     finished st = false ∧ attempts (st_trace st) = 0%nat ∧ st_pages st = 0%nat ∧
     (st_phase st = Running → ∀ st', ¬ step pw scraper st st')) ∧
  ∃ st, reachable pw scraper engine st ∧ st_phase st = Running.
Proof.
  intros Hzero Hlaunch Hcontext Hurls.
  set (P := λ st : state,
    st_semaphore st = 0 ∧ st_pages st = 0%nat ∧ attempts (st_trace st) = 0%nat ∧
    match st_phase st with
    | Launching | ContextOpening => True
    | Running =>
        st_tasks st ≠ [] ∧ Forall (λ t, task_pc t = AtSemaphore) (st_tasks st)
    | _ => False
    end).
  assert (∀ st, P st → st_phase st = Running → ∀ st', ¬ step pw scraper st st')
    as Hstuck.
  { intros [ph sem ts pages tr] (Hsem & _ & _ & Hph) Hrun st' [a Ha].
    simpl in *. subst ph sem. destruct Hph as [Hne Hall].
    destruct a; simpl in Ha; try done.
    - destruct (ts !! i) as [t|] eqn:Hi; simpl in Ha; [|done].
      rewrite Forall_forall in Hall.
      assert (task_pc t = AtSemaphore) as Hpc
        by (apply Hall; by eapply list_elem_of_lookup_2).
      unfold task_step in Ha. rewrite Hpc in Ha. simpl in Ha. done.
    - destruct ts as [|t ts]; [done|]. apply Forall_cons in Hall as [Hpc _].
      cbn in Ha. unfold task_result in Ha. rewrite Hpc in Ha. done. }
  assert (∀ st, reachable pw scraper engine st → P st) as HP.
  { apply reachable_ind.
    - unfold P. simpl. by rewrite Hzero.
    - intros st st' _ HPst Hstep.
      pose proof HPst as (_ & _ & _ & Hshape).
      destruct (st_phase st) eqn:Hph; try done.
      + destruct Hstep as [a Ha]. destruct st as [ph sem ts pages tr].
        destruct HPst as (Hsem & Hpages & Hatt & _). simpl in *. subst ph.
        destruct a; simpl in Ha; try done. rewrite Hlaunch in Ha.
        injection Ha as <-. by unfold P.
      + destruct Hstep as [a Ha]. destruct st as [ph sem ts pages tr].
        destruct HPst as (Hsem & Hpages & Hatt & _). simpl in *. subst ph.
        destruct a; simpl in Ha; try done. rewrite Hcontext in Ha.
        injection Ha as <-. unfold P. simpl. split_and!; try done.
        * intros Heq. apply (f_equal length) in Heq.
          rewrite EngineFacts.make_tasks_length in Heq.
          by destruct (get_product_urls scraper).
        * by apply EngineFacts.make_tasks_Forall.
      + by destruct (Hstuck st HPst Hph st'). }
  split.
  - intros st Hreach. pose proof (HP st Hreach) as HPst.
    destruct HPst as (Hsem & Hpages & Hatt & Hph). split_and!; try done.
    + unfold finished. by destruct (st_phase st).
    + intros Hrun. apply Hstuck; [|done]. by apply HP.
  - eexists. split.
    + eapply rtc_l; [exists DoLaunch; simpl; by rewrite Hlaunch|].
      eapply rtc_l; [exists DoNewContext; simpl; by rewrite Hcontext|].
      apply rtc_refl.
    + done.
Qed.

Lemma scrape_all_releases_witness :
  0 ≤ max_concurrent Examples.engine_of_two ∧
  st_semaphore
    (run Examples.working_browser Examples.flaky_scraper
       (measure Examples.flaky_scraper (scrape_all Examples.engine_of_two))
       (scrape_all Examples.engine_of_two)) = 2.
Proof.
  assert (0 ≤ max_concurrent Examples.engine_of_two) as Hmax by (simpl; lia).
  split; [exact Hmax|].
  refine (proj2 (proj2 (scrape_all_releases Examples.working_browser
                          Examples.flaky_scraper Examples.engine_of_two Hmax _ _)
                   _ _)).
  - apply EngineFacts.scrape_all_run_reachable. simpl. lia.
  - vm_compute. reflexivity.
Defined.

Lemma scrape_all_context_unavailable_witness :
  chromium_launch
    {| chromium_launch := Ok (); browser_new_context := Raise PlaywrightError;
       context_new_page := λ _, Ok (); page_close := λ _, Ok ();
       context_close := Ok (); browser_close := Ok () |} = Ok () ∧
  st_phase
    (run {| chromium_launch := Ok (); browser_new_context := Raise PlaywrightError;
            context_new_page := λ _, Ok (); page_close := λ _, Ok ();
            context_close := Ok (); browser_close := Ok () |}
       Examples.flaky_scraper 2 (scrape_all Examples.engine_of_two))
  = Failed PlaywrightError.
Proof.
  split; [reflexivity|].
  by rewrite (proj1 (scrape_all_context_unavailable
                       {| chromium_launch := Ok ();
                          browser_new_context := Raise PlaywrightError;
                          context_new_page := λ _, Ok ();
                          page_close := λ _, Ok ();
                          context_close := Ok (); browser_close := Ok () |}
                       Examples.flaky_scraper Examples.engine_of_two
                       PlaywrightError eq_refl eq_refl) 0%nat).
Defined.

Lemma scrape_all_zero_permits_witness :
  max_concurrent {| max_concurrent := 0 |} = 0 ∧
  ∃ st, reachable Examples.working_browser Examples.flaky_scraper
          {| max_concurrent := 0 |} st ∧ st_phase st = Running.
Proof.
  split; [reflexivity|].
  apply (scrape_all_zero_permits Examples.working_browser Examples.flaky_scraper
           {| max_concurrent := 0 |} eq_refl eq_refl eq_refl).
  done.
Defined.

End EngineExtra.

(** ** The example scrapers of [scraper/examples.py] *)
Module ExamplesExtra.

Lemma py_range_length lo hi : length (py_range lo hi) = Z.to_nat (hi - lo).
Proof. unfold py_range. by rewrite length_fmap, length_seq. Qed.

Lemma py_range_lookup lo hi (idx : nat) :
  (idx < Z.to_nat (hi - lo))%nat → py_range lo hi !! idx = Some (lo + Z.of_nat idx).
Proof.
  intros Hidx. unfold py_range. rewrite list_lookup_fmap, lookup_seq_lt by done.
  done.
Qed.

Lemma olx_urls_lookup max_products (idx : nat) :
  (idx < Z.to_nat max_products)%nat →
  olx_urls max_products !! idx
  = Some ("https://example-olx.com/item/electronics-" +:+ pretty (Z.of_nat idx + 1)).
Proof.
  intros Hidx. unfold olx_urls. rewrite list_lookup_fmap, py_range_lookup by lia.
  simpl. do 3 f_equal. lia.
Qed.

Lemma olx_urls_length max_products :
  length (olx_urls max_products) = Z.to_nat max_products.
Proof.
  unfold olx_urls. rewrite length_fmap, py_range_length. lia.
Qed.

(** X18.  The OLX example scraper lists [max_products] targets, none for a
    [max_products] below 1, all different, the one at position [idx] ending
    in [idx + 1]: so in a run of the engine the product scraped from
    [.../electronics-k] is given the id [k], and its record carries that id,
    that url and no rating, whatever the category. *)
Theorem olx_targets page_goto (category : string) (max_products : Z) :
  let scraper := ExampleOLXScraper page_goto category max_products in
  length (get_product_urls scraper) = Z.to_nat max_products ∧
  NoDup (get_product_urls scraper) ∧
  ∀ t, t ∈ make_tasks (get_product_urls scraper) →
    task_url t = "https://example-olx.com/item/electronics-" +:+ pretty (task_id t) ∧
    ∀ p, scrape_product scraper (task_url t) (task_id t) = Ok p →
      dict_get p "id" = VInt (task_id t) ∧
      dict_get p "source_url" = VStr (task_url t) ∧
      dict_get p "rating" = VNone.
Proof.
  intros scraper. simpl. split_and!.
  - apply olx_urls_length.
  - unfold olx_urls. apply NoDup_fmap_2.
    + intros i j Hij. apply (inj (String.append _)) in Hij. by apply (inj pretty).
    + unfold py_range. apply NoDup_fmap_2; [|apply NoDup_seq].
      intros i j. lia.
  - intros t [idx Ht]%list_elem_of_lookup.
    rewrite EngineFacts.make_tasks_lookup in Ht.
    destruct (olx_urls max_products !! idx) as [url|] eqn:Hurl; [|done].
    injection Ht as <-. simpl.
    assert (idx < Z.to_nat max_products)%nat as Hidx.
    { apply lookup_lt_Some in Hurl. by rewrite olx_urls_length in Hurl. }
    rewrite olx_urls_lookup in Hurl by done. injection Hurl as <-.
    split; [done|]. intros p. destruct (page_goto _ _); [|done].
    by intros [= <-].
Qed.

(** X19.  The Mercado Libre example scraper never lists more than its five
    built-in targets, whatever [max_products] is (the default of 10 gives
    5); it lists the first [max_products] of them for a [max_products] from
    0 to 5, and for a negative [max_products] it does not list none: it
    drops that many targets from the end. *)
Theorem mercadolibre_targets (max_products : Z) :
  (length (mercadolibre_urls max_products) ≤ 5)%nat ∧
  (0 ≤ max_products →
     mercadolibre_urls max_products = take (Z.to_nat max_products) base_urls) ∧
  (max_products < 0 →
     mercadolibre_urls max_products
     = take (5 - Z.to_nat (- max_products)) base_urls).
Proof.
  unfold mercadolibre_urls, list_slice, slice_index.
  change (Z.of_nat (length base_urls)) with 5. change (0 <? 0) with false.
  cbv iota. change (Z.min 0 5) with 0. change (Z.to_nat 0) with 0%nat.
  rewrite drop_0. split_and!.
  - rewrite length_take. simpl. lia.
  - intros Hpos. destruct (Z.ltb_spec max_products 0); [lia|].
    rewrite Z.sub_0_r.
    destruct (Z.le_ge_cases max_products 5).
    + by rewrite Z.min_l by lia.
    + rewrite Z.min_r by lia. rewrite !take_ge; [done|simpl; lia|simpl; lia].
  - intros Hneg. destruct (Z.ltb_spec max_products 0); [|lia].
    rewrite Z.sub_0_r. f_equal. lia.
Qed.

Lemma mercadolibre_targets_witness :
  mercadolibre_urls (-1) = take (5 - Z.to_nat (- -1)) base_urls.
Proof. apply (proj2 (proj2 (mercadolibre_targets (-1)))). lia. Defined.

Example mercadolibre_targets_examples :
  length (mercadolibre_urls 10) = 5%nat ∧ length (mercadolibre_urls 2) = 2%nat ∧
  length (mercadolibre_urls (-1)) = 4%nat ∧ length (mercadolibre_urls (-7)) = 0%nat ∧
  length (olx_urls (-1)) = 0%nat.
Proof. vm_compute. repeat split. Qed.

End ExamplesExtra.

(** ** [run_scraper]: from the scrape to the stored catalog *)
Module PipelineExtra.

Section pipeline.
Variable pw : Playwright.
Variable page_goto : Z → string → result ().
Variable mercadolibre_product_data : string → Z → result product.
Variable os_error : syscall → path → option exn.
Variable dump_error : path → value → option (exn * string).
Variable json_dumps : value → string.
Variable json_loads : string → result value.

#[local] Abbreviation load_products := (load_products os_error).
#[local] Abbreviation save_products := (save_products os_error dump_error).
#[local] Abbreviation get_products := (get_products os_error).
#[local] Abbreviation get_product_by_id := (get_product_by_id os_error).
#[local] Abbreviation run_scraper :=
  (run_scraper pw page_goto mercadolibre_product_data os_error dump_error
     json_dumps json_loads).

(** Where the run stands tells what the browser answered. *)
Lemma launch_answers scraper engine st :
  reachable pw scraper engine st →
  match st_phase st with
  | Launching => True
  | ContextOpening => chromium_launch pw = Ok ()
  | Failed e =>
      chromium_launch pw = Raise e ∨
      (chromium_launch pw = Ok () ∧ browser_new_context pw = Raise e) ∨
      (chromium_launch pw = Ok () ∧ browser_new_context pw = Ok () ∧
       context_close pw = Raise e) ∨
      (chromium_launch pw = Ok () ∧ browser_new_context pw = Ok () ∧
       context_close pw = Ok () ∧ browser_close pw = Raise e)
  | Running | ContextClosing _ =>
      chromium_launch pw = Ok () ∧ browser_new_context pw = Ok ()
  | BrowserClosing _ =>
      chromium_launch pw = Ok () ∧ browser_new_context pw = Ok () ∧
      context_close pw = Ok ()
  | Returned _ =>
      chromium_launch pw = Ok () ∧ browser_new_context pw = Ok () ∧
      context_close pw = Ok () ∧ browser_close pw = Ok ()
  end.
Proof.
  revert st. apply EngineExtra.reachable_ind; [done|].
  intros st st' _ Hst [a Ha]. destruct st as [ph sem ts pages tr]. simpl in *.
  destruct a, ph; simpl in Ha; try done.
  - destruct (chromium_launch pw) as [[]|e]; simplify_eq/=; auto.
  - destruct (browser_new_context pw) as [[]|e]; simplify_eq/=; auto.
  - destruct (ts !! i) as [t|]; simpl in Ha; [|done].
    destruct (task_step pw scraper t sem) as [[[[pc' sem'] upd] evs]|];
      by simplify_eq/=.
  - destruct (mapM task_result ts); by simplify_eq/=.
  - destruct Hst as [? ?].
    destruct (context_close pw) as [[]|e] eqn:Hc; simplify_eq/=; [done|].
    right. right. left. done.
  - destruct Hst as (? & ? & ?).
    destruct (browser_close pw) as [[]|e] eqn:Hc; simplify_eq/=; [done|].
    right. right. right. done.
Qed.

(** With a permit to give, awaiting [scrape_all] ends: with the exception
    of the browser when it cannot be opened or closed, with what line 183
    keeps of the outcomes of the tasks otherwise. *)
Lemma await_scrape_all_result engine scraper :
  1 ≤ max_concurrent engine →
  await_scrape_all pw engine scraper =
  Some (_ ← chromium_launch pw; _ ← browser_new_context pw;
        _ ← context_close pw; _ ← browser_close pw;
        Ok (expected_products pw scraper)).
Proof.
  intros Hmax. assert (0 ≤ max_concurrent engine) as Hmax0 by lia.
  unfold await_scrape_all.
  set (final := run pw scraper _ (scrape_all engine)).
  destruct (EngineFacts.run_finishes pw scraper engine Hmax0
              (5 + 4 * length (get_product_urls scraper))%nat (scrape_all engine))
    as [Hfin Hrun]; [done|by apply EngineFacts.invariant_init|done|].
  fold final in Hfin, Hrun.
  pose proof (launch_answers scraper engine final Hrun) as Hanswers.
  pose proof (EngineFacts.invariant_reachable pw scraper engine Hmax0 final Hrun)
    as Hinv.
  pose proof (inv_tasks _ _ _ _ Hinv) as Htasks. unfold tasks_ok in Htasks.
  unfold finished in Hfin.
  destruct (st_phase final) as [| | | | |ps|e]; try done.
  - destruct Hanswers as (-> & -> & -> & ->).
    destruct Htasks as (_ & _ & ->). done.
  - destruct Hanswers as [->|[[-> ->]|[(-> & -> & ->)|(-> & -> & -> & ->)]]];
      done.
Qed.

(** On a list of records the merge is [merge_products]. *)
Lemma index_values_catalog (C : list product) d :
  index_values (VDict <$> C) d = index_by_id C d.
Proof.
  revert d. induction C as [|p C IH]; intros d; [done|].
  rewrite fmap_cons. simpl.
  destruct (key_of (dict_get p "id")); simpl; [apply IH|done].
Qed.

Lemma merge_loaded_catalog (C X : list product) :
  merge_loaded (catalog_value C) X = merge_products C X.
Proof.
  unfold merge_loaded, merge_products. simpl. by rewrite index_values_catalog.
Qed.

(** Whatever was loaded, a merge that returns went over a list of records. *)
Lemma index_values_records items d d' :
  index_values items d = Ok d' →
  ∃ C : list product, items = VDict <$> C ∧ index_by_id C d = Ok d'.
Proof.
  revert d. induction items as [|p items IH]; intros d Hrun; simpl in Hrun.
  - exists []. by split.
  - destruct p as [| | | | | |r]; try done.
    destruct (key_of (dict_get r "id")) as [k|e] eqn:Hk; simpl in Hrun; [|done].
    destruct (IH _ Hrun) as (C & -> & HC).
    exists (r :: C). split; [done|]. simpl. by rewrite Hk.
Qed.

(** [mkdir(parents=True, exist_ok=True)] on the working directory creates
    nothing, and what it answers does not depend on the tree. *)
Lemma mkdir_parents_root s :
  mkdir_parents os_error [] s = ((mkdir_parents os_error [] ∅).1, s).
Proof.
  cbn. unfold io_try, os_mkdir, unless_is_dir, is_dir, os_stat. cbn.
  destruct (os_error Mkdir []) as [e|]; cbn.
  - destruct e; cbn; try done;
      destruct (os_error Stat []) as [e'|]; cbn; try done;
      by destruct (ignored_error e').
  - destruct (os_error Stat []) as [e'|]; cbn; try done.
    by destruct (ignored_error e').
Qed.

(** Saving under [products.json] in the working directory. *)
Lemma save_products_json products s :
  save_products json_dumps products products_json s =
  match (mkdir_parents os_error [] ∅).1, os_error OpenWrite products_json,
        s !! products_json with
  | Ok _, None, (None | Some (File _)) =>
      match dump_error products_json (catalog_value products) with
      | None =>
          (Ok true,
           <[products_json := File (json_dumps (catalog_value products))]> s)
      | Some (e, written) => (Ok false, <[products_json := File written]> s)
      end
  | _, _, _ => (Ok false, s)
  end.
Proof.
  unfold Helpers.save_products, io_try, io_bind, io_ret.
  change (parent products_json) with (@nil string).
  rewrite mkdir_parents_root.
  destruct (mkdir_parents os_error [] ∅).1 as [[]|e]; [|done].
  unfold open_w, json_dump.
  destruct (os_error OpenWrite products_json) as [e|]; [done|].
  change (fs_node s products_json) with (s !! products_json).
  change (fs_node s (parent products_json)) with (Some Dir).
  destruct (s !! products_json) as [[|text]|]; [done| |];
    by destruct (dump_error _ _) as [[e written]|]; rewrite insert_insert_eq.
Qed.

Lemma load_products_same file_path s :
  (load_products json_loads file_path s).2 = s.
Proof.
  destruct (RoutesExtra.load_products_returns os_error json_loads file_path s)
    as (r & -> & _). done.
Qed.

#[local] Abbreviation scraped :=
  (scraped pw page_goto mercadolibre_product_data).
#[local] Abbreviation merged_products :=
  (merged_products pw page_goto mercadolibre_product_data os_error json_loads).

(** The rows of a list whose every item has one: the list holds records
    only. *)
Lemma item_rows items rows :
  mapM item_row items = Some rows →
  mapM product_row (records items) = Some rows ∧
  (items = [] ↔ records items = []).
Proof.
  revert rows. induction items as [|i items IH]; intros rows.
  - intros [= <-]. done.
  - cbn [mapM]. destruct i as [p|]; [|done]. cbn [item_row].
    destruct (product_row p) as [r|] eqn:Hr; [|done]. cbn.
    destruct (mapM item_row items) as [rs|] eqn:Hrs; [|done]. cbn.
    intros [= <-]. destruct (IH rs eq_refl) as [Hrec _].
    unfold records in *. cbn. rewrite Hr. cbn. rewrite Hrec. done.
Qed.

(** What [run_scraper] goes through, with a permit to give. *)
Lemma run_scraper_unfold max_products max_concurrent scraper_type s :
  1 ≤ max_concurrent →
  let scraper :=
    select_scraper page_goto mercadolibre_product_data scraper_type
      max_products in
  run_scraper max_products max_concurrent scraper_type s =
  match (_ ← chromium_launch pw; _ ← browser_new_context pw;
         _ ← context_close pw; _ ← browser_close pw;
         Ok (expected_products pw scraper)) with
  | Raise _ | Ok [] => Some (false, s)
  | Ok items =>
      match mapM item_row items with
      | None => Some (false, s)
      | Some rows =>
          match load_products json_loads products_json s with
          | (Raise _, _) => Some (false, s)
          | (Ok existing, _) =>
              match merge_loaded existing rows with
              | Raise _ => Some (false, s)
              | Ok merged =>
                  match save_products json_dumps merged products_json s with
                  | (Ok success, s2) => Some (success, s2)
                  | (Raise _, s2) => Some (false, s2)
                  end
              end
          end
      end
  end.
Proof.
  intros Hmax scraper. unfold Main.run_scraper, ScraperEngine_new.
  destruct (Z.ltb_spec max_concurrent 0); [lia|]. cbv zeta.
  rewrite await_scrape_all_result by (simpl; lia). fold scraper.
  destruct (_ ← chromium_launch pw; _) as [[|i items]|e]; try done.
  destruct (mapM item_row (i :: items)); [|done].
  pose proof (load_products_same products_json s) as Hsame.
  destruct (load_products json_loads products_json s) as [[existing|e] s1];
    simpl in Hsame; by subst s1.
Qed.

(** What a successful run went through. *)
Lemma run_scraper_success max_products max_concurrent scraper_type s s' :
  1 ≤ max_concurrent →
  run_scraper max_products max_concurrent scraper_type s = Some (true, s') →
  ∃ merged,
    scraped scraper_type max_products ≠ [] ∧
    merged_products scraper_type max_products s = Some merged ∧
    save_products json_dumps merged products_json s = (Ok true, s') ∧
    s' = <[products_json := File (json_dumps (catalog_value merged))]> s.
Proof.
  intros Hmax. rewrite run_scraper_unfold by done. cbv zeta.
  unfold MainSpec.merged_products, MainSpec.scraped.
  destruct (chromium_launch pw) as [[]|e1]; [|by intros [= ?]].
  destruct (browser_new_context pw) as [[]|e2]; [|by intros [= ?]].
  destruct (context_close pw) as [[]|e3]; [|by intros [= ?]].
  destruct (browser_close pw) as [[]|e4]; [|by intros [= ?]]. simpl.
  destruct (expected_products pw _) as [|i items] eqn:Hitems; [by intros [= ?]|].
  destruct (mapM item_row (i :: items)) as [rows|] eqn:Hrows; [|by intros [= ?]].
  destruct (item_rows _ _ Hrows) as [-> Hne].
  destruct (load_products json_loads products_json s) as [[existing|e] s1];
    [|by intros [= ?]].
  simpl. destruct (merge_loaded existing rows) as [merged|e]; [|by intros [= ?]].
  destruct (save_products json_dumps merged products_json s)
    as [[ok|e] s2] eqn:Hsave; [|by intros [= ?]].
  intros [= -> ->]. exists merged. split_and!; [|done|done|].
  - intros Hnil. by apply Hne in Hnil.
  - revert Hsave. rewrite save_products_json. repeat case_match; congruence.
Qed.

Lemma merged_products_inv scraper_type max_products s merged :
  merged_products scraper_type max_products s = Some merged →
  ∃ rows existing,
    mapM product_row (scraped scraper_type max_products) = Some rows ∧
    load_products json_loads products_json s = (Ok existing, s) ∧
    merge_loaded existing rows = Ok merged.
Proof.
  unfold MainSpec.merged_products.
  destruct (RoutesExtra.load_products_returns os_error json_loads products_json s)
    as (r & Hload & _). rewrite Hload. simpl.
  destruct (mapM product_row _) as [rows|]; simpl; [|done].
  destruct r as [existing|e]; [|done].
  destruct (merge_loaded existing rows) as [m|e] eqn:Hm; [|done].
  intros [= <-]. by exists rows, existing.
Qed.

(** X20.  [run_scraper] never raises.  With a negative [max_concurrent] it
    answers [False] at once.  With a [max_concurrent] of at least 1 it
    always returns.  When it answers [False] (the browser could not be
    opened or closed, nothing was scraped, a scraped item is no record or
    lacks a required key, the stored data cannot be looked at or merged, or
    the file cannot be written) the file system is exactly as it was,
    unless [products.json] was opened and [json.dump] then raised: the file
    then holds what was written of the merged catalog.  When it answers
    [True], something was scraped and the only change is that
    [products.json] holds the merge of what was stored with the rows of the
    scraped records. *)
Theorem run_scraper_outcome max_products max_concurrent scraper_type s :
  (max_concurrent < 0 →
     run_scraper max_products max_concurrent scraper_type s = Some (false, s)) ∧
  (1 ≤ max_concurrent →
     ∃ ok s',
       run_scraper max_products max_concurrent scraper_type s = Some (ok, s') ∧
       (ok = false →
          s' = s ∨
          ∃ merged e written,
            merged_products scraper_type max_products s = Some merged ∧
            dump_error products_json (catalog_value merged) = Some (e, written) ∧
            s' = <[products_json := File written]> s) ∧
       (ok = true →
          ∃ merged,
            scraped scraper_type max_products ≠ [] ∧
            merged_products scraper_type max_products s = Some merged ∧
            s' = <[products_json := File (json_dumps (catalog_value merged))]> s)).
Proof.
  split.
  - intros Hneg. unfold Main.run_scraper, ScraperEngine_new.
    by rewrite (proj2 (Z.ltb_lt _ _)) by done.
  - intros Hmax.
    destruct (run_scraper max_products max_concurrent scraper_type s)
      as [[ok s']|] eqn:Hrun.
    2:{ revert Hrun. rewrite run_scraper_unfold by done. cbv zeta.
        repeat case_match; done. }
    exists ok, s'. split; [done|]. split.
    + intros ->. revert Hrun. rewrite run_scraper_unfold by done. cbv zeta.
      unfold MainSpec.merged_products, MainSpec.scraped.
      destruct (chromium_launch pw) as [[]|e1]; [|intros [= <-]; by left].
      destruct (browser_new_context pw) as [[]|e2]; [|intros [= <-]; by left].
      destruct (context_close pw) as [[]|e3]; [|intros [= <-]; by left].
      destruct (browser_close pw) as [[]|e4]; [|intros [= <-]; by left]. simpl.
      destruct (expected_products pw _) as [|i items] eqn:Hitems;
        [intros [= <-]; by left|].
      destruct (mapM item_row (i :: items)) as [rows|] eqn:Hrows;
        [|intros [= <-]; by left].
      destruct (item_rows _ _ Hrows) as [-> _].
      destruct (load_products json_loads products_json s) as [[existing|e] s1];
        [|intros [= <-]; by left].
      simpl. destruct (merge_loaded existing rows) as [merged|e];
        [|intros [= <-]; by left].
      rewrite save_products_json.
      destruct (mkdir_parents os_error [] ∅).1 as [[]|e];
        [|intros [= <-]; by left].
      destruct (os_error OpenWrite products_json); [intros [= <-]; by left|].
      destruct (s !! products_json) as [[|text]|]; [intros [= <-]; by left| |];
        (destruct (dump_error products_json (catalog_value merged))
           as [[e written]|] eqn:Hdump; [|done]);
        intros [= <-]; right; by exists merged, e, written.
    + intros ->. destruct (run_scraper_success _ _ _ _ _ Hmax Hrun)
        as (merged & ? & ? & _ & ?). by exists merged.
Qed.

Lemma key_of_eq_int v z : key_of v = Ok (int_key z) → eq_int v z = true.
Proof.
  destruct v as [|b|z'|[m e|neg]| | |]; simpl; try done.
  - intros H. apply bool_decide_eq_true. apply int_key_inj.
    unfold int_key in *. congruence.
  - intros H. apply bool_decide_eq_true. apply int_key_inj.
    unfold int_key in *. congruence.
  - intros H. apply bool_decide_eq_true. unfold int_key in H. congruence.
Qed.

Lemma product_row_id p r :
  product_row p = Some r → dict_get r "id" = dict_get p "id".
Proof.
  unfold product_row, py_item. repeat case_match; try done;
    cbn; by intros [= <-].
Qed.

(** The merged list holds a record for every integer id of the batch. *)
Lemma merge_loaded_holds existing rows merged r z :
  merge_loaded existing rows = Ok merged → r ∈ rows → dict_get r "id" = VInt z →
  ∃ x, x ∈ merged ∧ eq_int (get_id x) z = true.
Proof.
  unfold merge_loaded. intros Hmerge Hr Hz.
  destruct (py_iter existing) as [items|e]; simpl in Hmerge; [|done].
  destruct (index_values items []) as [d0|e] eqn:H0; simpl in Hmerge; [|done].
  rewrite update_all_upsert in Hmerge.
  destruct (upsert_all true rows d0) as [d1|e] eqn:H1; simpl in Hmerge; [|done].
  injection Hmerge as <-.
  destruct (index_values_records _ _ _ H0) as (C & -> & HC).
  rewrite index_by_id_upsert in HC.
  assert (NoDup (dict_keys d1)) as Hnd1.
  { eapply upsert_all_NoDup; [done|]. eapply upsert_all_NoDup; [done|constructor]. }
  destruct (stored_last_is_Some true rows r (int_key z) Hr) as [x Hx].
  { unfold get_id. by rewrite Hz. }
  { unfold get_id. by rewrite Hz. }
  exists x. split.
  - apply dict_values_elem. exists (int_key z). apply dict_lookup_elem; [done|].
    by rewrite (upsert_all_lookup _ _ _ _ _ H1), Hx.
  - apply stored_last_elem in Hx as [_ Hk]. by apply key_of_eq_int.
Qed.

(** X21.  After a run of the scraper that answered [True] the API serves
    what was scraped: provided the stored catalog survives the JSON round
    trip and [products.json] can be looked at and read, for every scraped
    record with an integer id neither [GET /products/{id}] for that id nor
    [GET /products] answers 404. *)
Theorem run_scraper_then_api max_products max_concurrent scraper_type s s' merged
    (Product : Type) (Product_new : value → result Product) :
  1 ≤ max_concurrent →
  run_scraper max_products max_concurrent scraper_type s = Some (true, s') →
  merged_products scraper_type max_products s = Some merged →
  json_loads (json_dumps (catalog_value merged)) = Ok (catalog_value merged) →
  os_error Stat products_json = None → os_error OpenRead products_json = None →
  ∀ p z, p ∈ scraped scraper_type max_products → dict_get p "id" = VInt z →
    (get_product_by_id json_loads Product Product_new z s').1
      ≠ Raise (HTTPException 404) ∧
    ∀ limit offset,
      (get_products json_loads Product Product_new None limit offset s').1
      ≠ Raise (HTTPException 404).
Proof.
  intros Hmax Hrun Hmerged Hjson Hstat Hread.
  destruct (run_scraper_success _ _ _ _ _ Hmax Hrun)
    as (merged' & Hsome & Hmerged' & _ & ->).
  assert (merged' = merged) as -> by congruence.
  destruct (merged_products_inv _ _ _ _ Hmerged)
    as (rows & existing & Hrows & Hload & Hmerge).
  set (s' := <[products_json := _]> s) in *.
  assert (s' !! products_json = Some (File (json_dumps (catalog_value merged))))
    as Hfile by apply lookup_insert_eq.
  assert (load_products json_loads products_json s'
          = (Ok (catalog_value merged), s')) as Hload'.
  { by eapply StoreFacts.load_products_file. }
  assert (∀ p z, p ∈ scraped scraper_type max_products →
                 dict_get p "id" = VInt z →
                 ∃ x, x ∈ merged ∧ eq_int (get_id x) z = true) as Hheld.
  { intros p z Hp Hz. apply mapM_Some in Hrows.
    apply list_elem_of_lookup in Hp as [i Hi].
    destruct (Forall2_lookup_l _ _ _ i p Hrows Hi) as (r & Hr & Hpr).
    eapply merge_loaded_holds; [done|by eapply list_elem_of_lookup_2|].
    by rewrite (product_row_id _ _ Hpr). }
  intros p z Hp Hz. destruct (Hheld p z Hp Hz) as (x & Hx & Hxz). split.
  - rewrite (RoutesExtra.get_product_by_id_catalog _ _ _ _ _ _ _ Hload').
    destruct (head (filter (id_listed [z]) merged)) as [y|] eqn:Hhead.
    + by destruct (Product_new (VDict y)).
    + exfalso. apply head_None in Hhead.
      assert (x ∈ filter (id_listed [z]) merged) as Hin.
      { apply list_elem_of_filter. split; [|done].
        unfold id_listed. simpl. unfold get_id in Hxz. by rewrite Hxz. }
      rewrite Hhead in Hin. by apply elem_of_nil in Hin.
  - intros limit offset.
    rewrite (RoutesFacts.get_products_catalog _ _ _ _ _ _ _ _ _ Hload').
    destruct merged as [|m merged']; [by apply elem_of_nil in Hx|].
    simpl. by destruct (comprehension Product_new _).
Qed.

(** What [load_products] gives after a save that succeeded: the catalog
    that was saved when the file can be read, and otherwise the empty list
    it gave before the save as well. *)
Lemma load_products_after_save merged existing s :
  json_loads (json_dumps (catalog_value merged)) = Ok (catalog_value merged) →
  load_products json_loads products_json s = (Ok existing, s) →
  let s' := <[products_json := File (json_dumps (catalog_value merged))]> s in
  load_products json_loads products_json s' = (Ok (catalog_value merged), s') ∨
  (existing = VList [] ∧
   load_products json_loads products_json s' = (Ok (VList []), s')).
Proof.
  intros Hjson Hload s'.
  assert (s' !! products_json = Some (File (json_dumps (catalog_value merged))))
    as Hfile by apply lookup_insert_eq.
  revert Hload.
  unfold Helpers.load_products, path_exists, os_stat, io_try, io_bind,
    read_text, io_ret.
  change (fs_node s' products_json) with (s' !! products_json).
  change (fs_node s products_json) with (s !! products_json).
  rewrite Hfile.
  destruct (os_error Stat products_json) as [e|].
  { destruct (ignored_error e); [|done]. intros [= <-]. by right. }
  cbn.
  destruct (os_error OpenRead products_json) as [e|].
  { destruct (s !! products_json) as [n|]; cbn.
    - destruct e; intros [= <-]; right; done.
    - intros [= <-]. right. by destruct e. }
  rewrite Hjson. cbn. intros _. by left.
Qed.

(** X22.  Running the scraper again changes nothing: after a run that
    answered [True], a second run (the browser and the pages answering as
    before, the stored catalog surviving the JSON round trip) answers [True]
    and leaves the file system exactly as the first run left it. *)
Theorem run_scraper_again max_products max_concurrent scraper_type s s' merged :
  1 ≤ max_concurrent →
  run_scraper max_products max_concurrent scraper_type s = Some (true, s') →
  merged_products scraper_type max_products s = Some merged →
  json_loads (json_dumps (catalog_value merged)) = Ok (catalog_value merged) →
  run_scraper max_products max_concurrent scraper_type s' = Some (true, s').
Proof.
  intros Hmax Hrun Hmerged Hjson.
  destruct (run_scraper_success _ _ _ _ _ Hmax Hrun)
    as (merged' & Hsome & Hmerged' & Hsave & ->).
  assert (merged' = merged) as -> by congruence.
  destruct (merged_products_inv _ _ _ _ Hmerged)
    as (rows & existing & Hrows & Hload & Hmerge).
  set (s' := <[products_json := _]> s) in *.
  assert (s' !! products_json = Some (File (json_dumps (catalog_value merged))))
    as Hfile by apply lookup_insert_eq.
  assert (merge_products merged rows = Ok merged) as Hagain.
  { revert Hmerge. unfold merge_loaded.
    destruct (py_iter existing) as [items|e]; simpl; [|done].
    destruct (index_values items []) as [d0|e] eqn:H0; simpl; [|done].
    rewrite update_all_upsert.
    destruct (upsert_all true rows d0) as [d1|e] eqn:H1; simpl; [|done].
    intros [= <-].
    destruct (index_values_records _ _ _ H0) as (C & -> & HC).
    rewrite index_by_id_upsert in HC.
    assert (NoDup (dict_keys d0))
      by (eapply upsert_all_NoDup; [done|constructor]).
    assert (coherent d0)
      by (eapply upsert_all_coherent; [done|constructor]).
    unfold merge_products. rewrite index_by_id_upsert.
    rewrite index_by_id_values;
      [|by eapply upsert_all_NoDup|by eapply upsert_all_coherent].
    simpl. rewrite update_all_upsert.
    by rewrite (upsert_all_twice _ _ _ _ ltac:(done) H1). }
  assert (∃ existing',
            load_products json_loads products_json s' = (Ok existing', s') ∧
            merge_loaded existing' rows = Ok merged) as (existing' & Hload' & Hmerge').
  { destruct (load_products_after_save merged existing s Hjson Hload)
      as [Hl|[-> Hl]]; fold s' in Hl.
    - exists (catalog_value merged). split; [done|].
      by rewrite merge_loaded_catalog.
    - by exists (VList []). }
  assert (save_products json_dumps merged products_json s' = (Ok true, s'))
    as Hsave'.
  { revert Hsave. rewrite !save_products_json. rewrite Hfile.
    destruct (mkdir_parents os_error [] ∅).1 as [[]|e]; [|done].
    destruct (os_error OpenWrite products_json); [done|].
    assert (<[products_json := File (json_dumps (catalog_value merged))]> s'
            = s') as Hsame by (unfold s'; by rewrite insert_insert_eq).
    destruct (s !! products_json) as [[|text]|]; [done| |];
      (destruct (dump_error products_json (catalog_value merged))
         as [[e written]|]; [done|]); intros _; by rewrite Hsame. }
  revert Hrun. rewrite !run_scraper_unfold by done. cbv zeta.
  unfold MainSpec.scraped in Hrows.
  destruct (chromium_launch pw) as [[]|e1]; [|by intros [= ?]].
  destruct (browser_new_context pw) as [[]|e2]; [|by intros [= ?]].
  destruct (context_close pw) as [[]|e3]; [|by intros [= ?]].
  destruct (browser_close pw) as [[]|e4]; [|by intros [= ?]]. simpl.
  destruct (expected_products pw _) as [|i items] eqn:Hitems; [by intros [= ?]|].
  destruct (mapM item_row (i :: items)) as [rows'|] eqn:Hrows'; [|by intros [= ?]].
  destruct (item_rows _ _ Hrows') as [Hrec _].
  assert (rows' = rows) as -> by congruence.
  intros _. by rewrite Hload', Hmerge', Hsave'.
Qed.

End pipeline.

(** A run on concrete answers: the browser works, every page loads, the OLX
    scraper is asked for two products with two tasks at a time, and there
    is no [products.json] yet. *)
Lemma olx_run :
  run_scraper Examples.working_browser (λ _ _, Ok ()) (λ _ _, Raise PlaywrightError)
    os_permits dump_returns MiniJson.json_dumps MiniJson.json_loads 2 2 "OLX" ∅
  = Some (true,
          {[ products_json :=
               File (MiniJson.json_dumps
                       (catalog_value
                          [olx_product_data "electronics"
                             "https://example-olx.com/item/electronics-1" 1;
                           olx_product_data "electronics"
                             "https://example-olx.com/item/electronics-2" 2])) ]}).
Proof. vm_compute. reflexivity. Qed.

Lemma olx_run_merged :
  merged_products Examples.working_browser (λ _ _, Ok ())
    (λ _ _, Raise PlaywrightError) os_permits MiniJson.json_loads "OLX" 2 ∅
  = Some [olx_product_data "electronics"
            "https://example-olx.com/item/electronics-1" 1;
          olx_product_data "electronics"
            "https://example-olx.com/item/electronics-2" 2].
Proof. vm_compute. reflexivity. Qed.

Lemma olx_run_round_trip :
  MiniJson.json_loads
    (MiniJson.json_dumps
       (catalog_value
          [olx_product_data "electronics"
             "https://example-olx.com/item/electronics-1" 1;
           olx_product_data "electronics"
             "https://example-olx.com/item/electronics-2" 2]))
  = Ok (catalog_value
          [olx_product_data "electronics"
             "https://example-olx.com/item/electronics-1" 1;
           olx_product_data "electronics"
             "https://example-olx.com/item/electronics-2" 2]).
Proof. vm_compute. reflexivity. Qed.

Lemma run_scraper_outcome_witness :
  1 ≤ 2 ∧
  ∃ ok s',
    run_scraper Examples.working_browser (λ _ _, Ok ())
      (λ _ _, Raise PlaywrightError) os_permits dump_returns
      MiniJson.json_dumps MiniJson.json_loads
      2 2 "OLX" ∅ = Some (ok, s').
Proof.
  split; [lia|].
  destruct (proj2 (run_scraper_outcome Examples.working_browser (λ _ _, Ok ())
                     (λ _ _, Raise PlaywrightError) os_permits dump_returns
                     MiniJson.json_dumps
                     MiniJson.json_loads 2 2 "OLX" ∅) ltac:(lia))
    as (ok & s' & Hrun & _).
  by exists ok, s'.
Defined.

Lemma run_scraper_then_api_witness :
  (get_product_by_id os_permits MiniJson.json_loads Examples.Product
     Examples.Product_new 2
     {[ products_json :=
          File (MiniJson.json_dumps
                  (catalog_value
                     [olx_product_data "electronics"
                        "https://example-olx.com/item/electronics-1" 1;
                      olx_product_data "electronics"
                        "https://example-olx.com/item/electronics-2" 2])) ]}).1
  ≠ Raise (HTTPException 404).
Proof.
  refine (proj1 (run_scraper_then_api Examples.working_browser (λ _ _, Ok ())
                   (λ _ _, Raise PlaywrightError) os_permits dump_returns
                   MiniJson.json_dumps
                   MiniJson.json_loads 2 2 "OLX" ∅ _ _ Examples.Product
                   Examples.Product_new ltac:(lia) olx_run olx_run_merged
                   olx_run_round_trip eq_refl eq_refl
                   (olx_product_data "electronics"
                      "https://example-olx.com/item/electronics-2" 2)
                   2 _ eq_refl)).
  vm_compute. apply list_elem_of_further, list_elem_of_here.
Defined.

Lemma run_scraper_again_witness :
  run_scraper Examples.working_browser (λ _ _, Ok ()) (λ _ _, Raise PlaywrightError)
    os_permits dump_returns MiniJson.json_dumps MiniJson.json_loads 2 2 "OLX"
    {[ products_json :=
         File (MiniJson.json_dumps
                 (catalog_value
                    [olx_product_data "electronics"
                       "https://example-olx.com/item/electronics-1" 1;
                     olx_product_data "electronics"
                       "https://example-olx.com/item/electronics-2" 2])) ]}
  = Some (true,
          {[ products_json :=
               File (MiniJson.json_dumps
                       (catalog_value
                          [olx_product_data "electronics"
                             "https://example-olx.com/item/electronics-1" 1;
                           olx_product_data "electronics"
                             "https://example-olx.com/item/electronics-2" 2])) ]}).
Proof.
  exact (run_scraper_again Examples.working_browser (λ _ _, Ok ())
           (λ _ _, Raise PlaywrightError) os_permits dump_returns
           MiniJson.json_dumps MiniJson.json_loads
           2 2 "OLX" ∅ _ _ ltac:(lia) olx_run olx_run_merged olx_run_round_trip).
Defined.

(** What makes a run answer [False]: a browser that cannot be launched or
    whose context does not close, a negative bound, a directory where the
    file should be, stored data that is no list of records, a
    [products.json] the system refuses to look at; all of these leave the
    file system as it was.  A dump that raises on the way leaves the
    beginning of the document in the file. *)
Example run_scraper_failures :
  let run pw os dump n s :=
    run_scraper pw (λ _ _, Ok ()) (λ _ _, Raise PlaywrightError)
      os dump MiniJson.json_dumps MiniJson.json_loads 2 n "olx" s in
  let stored := Examples.fs_with Examples.stored_catalog in
  run Examples.missing_browser os_permits dump_returns 2 ∅ = Some (false, ∅) ∧
  run Examples.stuck_browser os_permits dump_returns 2 ∅ = Some (false, ∅) ∧
  run Examples.working_browser os_permits dump_returns (-1) ∅ = Some (false, ∅) ∧
  run Examples.working_browser os_permits dump_returns 2
    {[ products_json := Dir ]} = Some (false, {[ products_json := Dir ]}) ∧
  run Examples.working_browser os_permits dump_returns 2
    {[ products_json := File "[1, 2]" ]}
    = Some (false, {[ products_json := File "[1, 2]" ]}) ∧
  run Examples.working_browser (λ _ _, Some PermissionError) dump_returns 2 stored
    = Some (false, stored) ∧
  run Examples.working_browser os_permits (λ _ _, Some (ValueError, "[")) 2 stored
    = Some (false, {[ products_json := File "[" ]}) ∧
  run Examples.working_browser os_permits dump_returns 0 ∅ = None.
Proof. cbv zeta. split_and!; vm_compute; reflexivity. Qed.

End PipelineExtra.
(** ** [scrape_batch] *)
Module BatchExtra.

(** A batch that starts at [start_id] is a run of [scrape_all] seen through
    a shift of the ids by [start_id - 1]. *)
Section shift.
Variable pw : Playwright.
Variable scraper : ProductScraper.
Variable urls : list string.
Variable start_id : Z.

#[local] Abbreviation shifted_browser := (shifted_browser pw start_id).
#[local] Abbreviation shifted_scraper := (shifted_scraper scraper urls start_id).
#[local] Abbreviation shift_task := (shift_task start_id).
#[local] Abbreviation shift_event := (shift_event start_id).
#[local] Abbreviation shift_state := (shift_state start_id).

#[local] Abbreviation exec_batch := (exec_batch pw scraper urls start_id).
#[local] Abbreviation exec_all := (exec shifted_browser shifted_scraper).

Lemma batch_tasks_shift :
  batch_tasks urls start_id = shift_task <$> make_tasks urls.
Proof.
  unfold batch_tasks, make_tasks. rewrite fmap_imap. apply imap_ext.
  intros idx url _. unfold shift_task. simpl. f_equal. lia.
Qed.

Lemma task_step_shift t sem :
  task_step pw scraper (shift_task t) sem =
  (λ r : pc * Z * (nat → nat) * list event,
     (r.1.1.1, r.1.1.2, r.1.2, shift_event <$> r.2))
    <$> task_step shifted_browser shifted_scraper t sem.
Proof.
  unfold task_step. simpl. destruct (task_pc t); simpl.
  - by destruct (0 <? sem).
  - by destruct (context_new_page pw _).
  - by destruct (scrape_product scraper _ _) as [|[|]].
  - by destruct (page_close pw _).
  - done.
Qed.

Lemma task_result_shift (ts : list task) :
  mapM task_result (shift_task <$> ts) = mapM task_result ts.
Proof.
  induction ts as [|t ts IH]; [done|].
  rewrite fmap_cons. cbn [mapM]. cbn [mapM] in IH. by rewrite IH.
Qed.

Lemma exec_shift a st :
  exec_batch a (shift_state st) = shift_state <$> exec_all a st.
Proof.
  destruct st as [ph sem ts pages tr]. unfold Batch.exec_batch, shift_state.
  simpl. destruct a, ph; try done.
  - by destruct (chromium_launch pw).
  - destruct (browser_new_context pw); simpl; [|done].
    by rewrite batch_tasks_shift.
  - simpl. rewrite list_lookup_fmap.
    destruct (ts !! i) as [t|] eqn:Hi; simpl; [|done].
    rewrite task_step_shift.
    destruct (task_step shifted_browser shifted_scraper t sem)
      as [[[[pc' sem'] upd] evs]|]; simpl; [|done].
    unfold shift_state. simpl. f_equal. f_equal.
    + by rewrite list_fmap_insert.
    + by rewrite fmap_app.
  - simpl. rewrite task_result_shift.
    by destruct (mapM task_result ts).
  - by destruct (context_close pw).
  - by destruct (browser_close pw).
Qed.

Lemma step_shift st st1 :
  step_batch pw scraper urls start_id (shift_state st) st1 ↔
  ∃ st', step shifted_browser shifted_scraper st st' ∧ st1 = shift_state st'.
Proof.
  split.
  - intros [a Ha]. rewrite exec_shift in Ha.
    destruct (exec_all a st) as [st'|] eqn:Hst'; simplify_eq/=.
    exists st'. split; [by exists a|done].
  - intros (st' & [a Ha] & ->). exists a. by rewrite exec_shift, Ha.
Qed.

Lemma reachable_shift engine st1 :
  reachable_batch pw scraper urls start_id engine st1 ↔
  ∃ st, reachable shifted_browser shifted_scraper engine st ∧ st1 = shift_state st.
Proof.
  split.
  - intros Hreach. unfold reachable_batch in Hreach.
    eapply (rtc_ind_r (λ st1, ∃ st, reachable shifted_browser shifted_scraper
                                      engine st ∧ st1 = shift_state st));
      [| |exact Hreach].
    + exists (scrape_all engine). split; [apply rtc_refl|done].
    + intros y z _ Hstep (st & Hst & ->).
      apply step_shift in Hstep as (st' & Hstep & ->).
      exists st'. split; [by eapply rtc_r|done].
  - intros (st & Hreach & ->). unfold Core.reachable in Hreach.
    eapply (rtc_ind_r (λ st, reachable_batch pw scraper urls start_id engine
                               (shift_state st))); [| |exact Hreach].
    + apply rtc_refl.
    + intros y z _ Hstep Hy. eapply rtc_r; [exact Hy|].
      apply step_shift. by exists z.
Qed.

Lemma next_shift st :
  next_batch pw scraper urls start_id (shift_state st)
  = shift_state <$> next shifted_browser shifted_scraper st.
Proof.
  unfold next_batch, next.
  assert (candidates (shift_state st) = candidates st) as ->.
  { unfold candidates, shift_state. simpl. by rewrite length_fmap. }
  induction (candidates st) as [|a l IH]; [done|]. simpl.
  rewrite exec_shift. destruct (exec_all a st); simpl; [done|apply IH].
Qed.

Lemma run_shift fuel st :
  run_batch pw scraper urls start_id fuel (shift_state st)
  = shift_state (run shifted_browser shifted_scraper fuel st).
Proof.
  revert st. induction fuel as [|fuel IH]; intros st; [done|]. simpl.
  rewrite next_shift. destruct (next _ _ st); simpl; [apply IH|done].
Qed.

Lemma expected_products_shift :
  expected_products shifted_browser shifted_scraper
  = batch_products pw scraper urls start_id.
Proof.
  unfold expected_products, batch_products. simpl. f_equal.
  rewrite batch_tasks_shift, <- list_fmap_compose. done.
Qed.

Lemma await_shift engine :
  await_scrape_batch pw scraper urls start_id engine
  = await_scrape_all shifted_browser engine shifted_scraper.
Proof.
  unfold await_scrape_batch, await_scrape_all, scrape_batch.
  change (scrape_all engine) with (shift_state (scrape_all engine)) at 1.
  by rewrite run_shift.
Qed.

End shift.

(** With a permit to give, awaiting a batch ends: with the exception of the
    browser when it cannot be opened or closed, with what line 229 keeps of
    the outcomes of the tasks otherwise. *)
Lemma await_scrape_batch_result pw scraper urls start_id engine :
  1 ≤ max_concurrent engine →
  await_scrape_batch pw scraper urls start_id engine
  = Some (_ ← chromium_launch pw; _ ← browser_new_context pw;
          _ ← context_close pw; _ ← browser_close pw;
          Ok (batch_products pw scraper urls start_id)).
Proof.
  intros Hmax. rewrite await_shift.
  rewrite PipelineExtra.await_scrape_all_result by done.
  by rewrite expected_products_shift.
Qed.

Lemma batch_tasks_app urls1 urls2 start_id :
  batch_tasks (urls1 ++ urls2) start_id
  = batch_tasks urls1 start_id
    ++ batch_tasks urls2 (start_id + Z.of_nat (length urls1)).
Proof.
  unfold batch_tasks. rewrite imap_app. f_equal. apply imap_ext.
  intros idx url _. simpl. f_equal. lia.
Qed.

Lemma batch_tasks_lookup urls start_id idx :
  batch_tasks urls start_id !! idx
  = (λ url, {| task_url := url; task_id := start_id + Z.of_nat idx;
               task_pc := AtSemaphore |}) <$> urls !! idx.
Proof. unfold batch_tasks. by rewrite list_lookup_imap. Qed.

(** X23.  [scrape_batch(scraper, urls, start_id)] with a bound of at least
    1 always ends: it raises what the browser raises when the browser or
    the context cannot be opened or, after the tasks, cannot be closed, and
    otherwise returns, in the order of the urls, what line 229 keeps of the
    outcomes of the tasks: the records of the tasks that succeeded, and an
    exception object for each task that ended with a [CancelledError].  In
    every state of every run at most [max_concurrent] pages are open, the
    task at position [idx] carries the id [start_id + idx], and every call
    of [scrape_product] is made with a url of the batch and the id of its
    position. *)
Theorem scrape_batch_contract pw scraper urls start_id engine :
  1 ≤ max_concurrent engine →
  await_scrape_batch pw scraper urls start_id engine
  = Some (_ ← chromium_launch pw; _ ← browser_new_context pw;
          _ ← context_close pw; _ ← browser_close pw;
          Ok (batch_products pw scraper urls start_id)) ∧
  ∀ st, reachable_batch pw scraper urls start_id engine st →
    Z.of_nat (st_pages st) ≤ max_concurrent engine ∧
    (gathering st = true →
       (λ t, (task_url t, task_id t)) <$> st_tasks st
       = imap (λ idx url, (url, start_id + Z.of_nat idx)) urls) ∧
    (∀ url product_id, ScrapeCalled url product_id ∈ st_trace st →
       ∃ idx : nat, urls !! idx = Some url ∧ product_id = start_id + Z.of_nat idx) ∧
    (∀ ps, st_phase st = Returned ps →
       ps = batch_products pw scraper urls start_id ∧ st_pages st = 0%nat).
Proof.
  intros Hmax. split; [by apply await_scrape_batch_result|].
  assert (0 ≤ max_concurrent engine) as Hmax0 by lia.
  intros st1 (st & Hreach & ->)%reachable_shift.
  set (pw' := shifted_browser pw start_id).
  set (scraper' := shifted_scraper scraper urls start_id).
  pose proof (EngineFacts.invariant_reachable pw' scraper' engine Hmax0 st Hreach)
    as [Hsem Hperm Hpages Hatt Htasks Hok Htrace].
  pose proof (EngineFacts.identifiers_reachable pw' scraper' engine st Hreach)
    as [Hids Hevents].
  split_and!.
  - simpl. rewrite Hpages.
    pose proof (EngineFacts.sum_list_le has_page holds (st_tasks st)) as Hle.
    assert (∀ t, has_page t ≤ holds t)%nat as Hph
      by (intros t; unfold has_page, holds; destruct (task_pc t); lia).
    specialize (Hle Hph). lia.
  - intros Hg. change (gathering (shift_state start_id st)) with (gathering st) in Hg.
    destruct Hids as [[_ ?]|Hids]; [congruence|]. simpl.
    rewrite <- list_fmap_compose.
    transitivity ((λ ui : string * Z, (ui.1, ui.2 + (start_id - 1)))
                    <$> ((λ t, (task_url t, task_id t)) <$> st_tasks st)).
    { by rewrite <- list_fmap_compose. }
    rewrite Hids. unfold make_tasks. simpl.
    rewrite !fmap_imap. apply imap_ext. intros idx url _. simpl. f_equal. lia.
  - intros url product_id Hin. simpl in Hin.
    apply list_elem_of_fmap in Hin as (e & He & Hin).
    rewrite Forall_forall in Hevents. specialize (Hevents e Hin).
    destruct e; simpl in He; try done. injection He as -> ->.
    destruct Hevents as (idx & Hidx & ->). exists idx. split; [done|]. lia.
  - intros ps Hps. simpl in Hps. unfold tasks_ok in Htasks. rewrite Hps in Htasks.
    destruct Htasks as (_ & Hdone & ->). split.
    + apply expected_products_shift.
    + simpl. rewrite Hpages. apply EngineFacts.sum_list_zero.
      eapply Forall_impl; [exact Hdone|]. intros t. unfold is_done, has_page.
      by destruct (task_pc t).
Qed.

(** X24.  [scrape_all(scraper)] is [scrape_batch(scraper,
    scraper.get_product_urls(), 1)]: the two runs take the same steps and
    end alike, for every bound. *)
Theorem scrape_all_as_batch pw scraper engine :
  (∀ a st, exec_batch pw scraper (get_product_urls scraper) 1 a st
           = exec pw scraper a st) ∧
  (∀ st, reachable_batch pw scraper (get_product_urls scraper) 1 engine st
         ↔ reachable pw scraper engine st) ∧
  await_scrape_batch pw scraper (get_product_urls scraper) 1 engine
  = await_scrape_all pw engine scraper.
Proof.
  assert (∀ a st, exec_batch pw scraper (get_product_urls scraper) 1 a st
                  = exec pw scraper a st) as Hexec.
  { intros a [ph sem ts pages tr]. unfold Batch.exec_batch. simpl.
    destruct a, ph; try done.
    destruct (browser_new_context pw); [|done]. do 2 f_equal.
    unfold batch_tasks, make_tasks. apply imap_ext. intros idx url _.
    f_equal. lia. }
  assert (∀ st st', step_batch pw scraper (get_product_urls scraper) 1 st st'
                    ↔ step pw scraper st st') as Hstep.
  { intros st st'. unfold step_batch, step.
    split; intros [a Ha]; exists a; by rewrite ?Hexec in *. }
  split_and!; [done| |].
  - intros st. unfold reachable_batch, reachable, scrape_batch.
    split; intros H; (eapply rtc_subrel; [|exact H]); intros x y; apply Hstep.
  - unfold await_scrape_batch, await_scrape_all, scrape_batch.
    assert (∀ fuel st,
              run_batch pw scraper (get_product_urls scraper) 1 fuel st
              = run pw scraper fuel st) as ->; [|done].
    induction fuel as [|fuel IH]; intros st; [done|]. simpl.
    assert (next_batch pw scraper (get_product_urls scraper) 1 st
            = next pw scraper st) as ->.
    { unfold next_batch, next. f_equal.
      induction (candidates st) as [|a l IHl]; [done|].
      cbn [omap list_omap]. rewrite Hexec.
      cbn [omap list_omap] in IHl. by rewrite IHl. }
    destruct (next pw scraper st); [apply IH|done].
Qed.

(** X25.  Batches compose: scraping [urls1 + urls2] from [start_id] returns
    what scraping [urls1] from [start_id] returns, followed by what
    scraping [urls2] from [start_id + len(urls1)] returns (the browser and
    the pages answering alike in the three runs); when the browser or the
    context cannot be opened or closed the three runs raise alike, and when
    they can the three runs return. *)
Theorem scrape_batch_split pw scraper urls1 urls2 start_id engine :
  1 ≤ max_concurrent engine →
  ∃ r1 r2,
    await_scrape_batch pw scraper urls1 start_id engine = Some r1 ∧
    await_scrape_batch pw scraper urls2
      (start_id + Z.of_nat (length urls1)) engine = Some r2 ∧
    await_scrape_batch pw scraper (urls1 ++ urls2) start_id engine
    = Some (ps1 ← r1; ps2 ← r2; Ok (ps1 ++ ps2)) ∧
    (chromium_launch pw = Ok () → browser_new_context pw = Ok () →
     context_close pw = Ok () → browser_close pw = Ok () →
     ∃ ps1 ps2, r1 = Ok ps1 ∧ r2 = Ok ps2).
Proof.
  intros Hmax.
  rewrite !await_scrape_batch_result by done.
  eexists _, _. split_and!; [done|done| |].
  - destruct (chromium_launch pw); simpl; [|done].
    destruct (browser_new_context pw); simpl; [|done].
    destruct (context_close pw); simpl; [|done].
    destruct (browser_close pw); simpl; [|done].
    do 2 f_equal. unfold batch_products, successes.
    by rewrite batch_tasks_app, fmap_app, omap_app.
  - intros -> -> -> ->. simpl. by eexists _, _.
Qed.

Lemma scrape_batch_contract_witness :
  1 ≤ max_concurrent Examples.engine_of_two ∧
  await_scrape_batch Examples.working_browser Examples.flaky_scraper
    [Examples.olx_url 6; Examples.olx_url 7] 3 Examples.engine_of_two
  = Some (Ok [Item (Examples.olx_record 3 (Examples.olx_url 6))]).
Proof.
  assert (1 ≤ max_concurrent Examples.engine_of_two) as Hmax by (simpl; lia).
  split; [exact Hmax|].
  rewrite (proj1 (scrape_batch_contract Examples.working_browser
                    Examples.flaky_scraper
                    [Examples.olx_url 6; Examples.olx_url 7] 3
                    Examples.engine_of_two Hmax)).
  vm_compute. reflexivity.
Defined.

Lemma scrape_batch_split_witness :
  1 ≤ max_concurrent Examples.engine_of_two ∧
  ∃ r1 r2,
    await_scrape_batch Examples.working_browser Examples.flaky_scraper
      [Examples.olx_url 1; Examples.olx_url 2] 1 Examples.engine_of_two
    = Some r1 ∧
    await_scrape_batch Examples.working_browser Examples.flaky_scraper
      [Examples.olx_url 3] (1 + Z.of_nat (length [Examples.olx_url 1; Examples.olx_url 2]))
      Examples.engine_of_two
    = Some r2 ∧
    await_scrape_batch Examples.working_browser Examples.flaky_scraper
      ([Examples.olx_url 1; Examples.olx_url 2] ++ [Examples.olx_url 3]) 1
      Examples.engine_of_two
    = Some (ps1 ← r1; ps2 ← r2; Ok (ps1 ++ ps2)).
Proof.
  assert (1 ≤ max_concurrent Examples.engine_of_two) as Hmax by (simpl; lia).
  split; [exact Hmax|].
  destruct (scrape_batch_split Examples.working_browser Examples.flaky_scraper
              [Examples.olx_url 1; Examples.olx_url 2] [Examples.olx_url 3] 1
              Examples.engine_of_two Hmax) as (r1 & r2 & H1 & H2 & H12 & _).
  by exists r1, r2.
Defined.

(** A batch one of whose tasks ends with a [CancelledError] returns the
    exception object in the place of a record. *)
Example scrape_batch_cancelled :
  await_scrape_batch Examples.working_browser
    {| get_product_urls := [];
       scrape_product := λ url product_id,
         if decide (product_id = 4) then Raise CancelledError
         else Ok (Examples.olx_record product_id url) |}
    [Examples.olx_url 6; Examples.olx_url 7] 3 Examples.engine_of_two
  = Some (Ok [Item (Examples.olx_record 3 (Examples.olx_url 6));
              CancelledErrorObject]).
Proof. vm_compute. reflexivity. Qed.

End BatchExtra.

(** ** [get_logger] *)
Module LoggerExtra.

Lemma logger_handlers_add logger h lg logger' :
  logger_handlers (addHandler logger h lg) logger' =
  if decide (logger = logger') then logger_handlers lg logger ++ [h]
  else logger_handlers lg logger'.
Proof.
  unfold logger_handlers, addHandler. simpl. case_decide as Hn.
  - subst. by rewrite lookup_insert_eq.
  - by rewrite lookup_insert_ne.
Qed.

Lemma logger_handlers_level logger level lg logger' :
  logger_handlers (setLevel logger level lg) logger' = logger_handlers lg logger'.
Proof. done. Qed.

(** X26.  [get_logger] configures a logger once.  After a first call for a
    name, whether it returned or the log file could not be opened, the
    logger of that name has its console handler, and every later call for
    that logger, under the same name or under another name of it (the root
    logger answers to the empty name and to its own), with whatever level
    and log file, returns the logger as it is: the later level is not set,
    the later log file is never opened and no handler is added.  The other
    loggers are never touched. *)
Theorem get_logger_once os_error name level log_file lg s :
  let logger := getLogger name in
  ∃ r lg' s', get_logger os_error name level log_file (lg, s) = (r, (lg', s')) ∧
    logger_handlers lg' logger ≠ [] ∧
    (logger_handlers lg logger = [] →
       ∃ rest, logger_handlers lg' logger = StreamHandler level :: rest ∧
               (log_file = None → rest = []) ∧
               (∀ e, r = Raise e → rest = [])) ∧
    (∀ name2 level2 log_file2,
       getLogger name2 = logger →
       get_logger os_error name2 level2 log_file2 (lg', s')
       = (Ok logger, (lg', s'))) ∧
    (∀ other, other ≠ logger →
       logger_handlers lg' other = logger_handlers lg other ∧
       levels lg' !! other = levels lg !! other).
Proof.
  intros logger.
  assert (∀ lg0 s0, logger_handlers lg0 logger ≠ [] →
            ∀ name2 level2 log_file2,
              getLogger name2 = logger →
              get_logger os_error name2 level2 log_file2 (lg0, s0)
              = (Ok logger, (lg0, s0)))
    as Hagain.
  { intros lg0 s0 Hne name2 level2 log_file2 Hname. unfold get_logger.
    rewrite Hname. by destruct (logger_handlers lg0 logger). }
  unfold get_logger at 1. fold logger.
  destruct (logger_handlers lg logger) as [|h hs] eqn:Hh.
  - set (lg1 := addHandler logger (StreamHandler level) (setLevel logger level lg)).
    assert (logger_handlers lg1 logger = [StreamHandler level]) as H1.
    { unfold lg1. rewrite logger_handlers_add, decide_True by done.
      by rewrite logger_handlers_level, Hh. }
    assert (∀ other, other ≠ logger →
              logger_handlers lg1 other = logger_handlers lg other ∧
              levels lg1 !! other = levels lg !! other) as Hother1.
    { intros other Hne. unfold lg1. split.
      - by rewrite logger_handlers_add, decide_False.
      - simpl. by rewrite lookup_insert_ne. }
    destruct log_file as [p|].
    + destruct (open_append os_error p s) as [[[]|e] s'] eqn:Hopen.
      * eexists _, _, _. split; [done|].
        assert (logger_handlers (addHandler logger (FileHandler p level) lg1) logger
                = [StreamHandler level; FileHandler p level]) as H2.
        { rewrite logger_handlers_add, decide_True by done. by rewrite H1. }
        split_and!.
        -- by rewrite H2.
        -- intros _. eexists. split; [exact H2|]. split; [done|]. by intros e.
        -- apply Hagain. by rewrite H2.
        -- intros other Hne. destruct (Hother1 other Hne) as [<- <-]. split.
           ++ by rewrite logger_handlers_add, decide_False.
           ++ done.
      * eexists _, _, _. split; [done|]. split_and!.
        -- by rewrite H1.
        -- intros _. exists []. by split_and!.
        -- apply Hagain. by rewrite H1.
        -- done.
    + eexists _, _, _. split; [done|]. split_and!.
      * by rewrite H1.
      * intros _. exists []. by split_and!.
      * apply Hagain. by rewrite H1.
      * done.
  - eexists _, _, _. split; [done|]. split_and!.
    + by rewrite Hh.
    + done.
    + apply Hagain. by rewrite Hh.
    + done.
Qed.

(** A log file that cannot be opened leaves the logger with its console
    handler only, and a later call with a good log file does not add the
    file handler. *)
Example get_logger_bad_file :
  let lg0 := {| levels := ∅; handlers := ∅ |} in
  let '(r1, (lg1, s1)) :=
    get_logger os_permits "scraper" 20 (Some ["app.log"; "logs"]) (lg0, ∅) in
  let '(r2, (lg2, s2)) :=
    get_logger os_permits "scraper" 10 (Some ["app.log"]) (lg1, s1) in
  r1 = Raise FileNotFoundError ∧ r2 = Ok "scraper" ∧
  logger_handlers lg2 "scraper" = [StreamHandler 20] ∧
  levels lg2 !! "scraper" = Some 20 ∧ s2 = ∅.
Proof. vm_compute. repeat split. Qed.

(** The root logger under its two names: configured under the empty name,
    it is returned as it is when asked for by its own name. *)
Example get_logger_root :
  let lg0 := {| levels := ∅; handlers := ∅ |} in
  let '(r1, (lg1, s1)) := get_logger os_permits "" 20 None (lg0, ∅) in
  let '(r2, (lg2, s2)) := get_logger os_permits "root" 10 None (lg1, s1) in
  r1 = Ok "root" ∧ r2 = Ok "root" ∧
  logger_handlers lg2 "root" = [StreamHandler 20] ∧
  levels lg2 !! "root" = Some 20.
Proof. vm_compute. repeat split. Qed.

End LoggerExtra.
